(** * Wild-Fire-Analysis: meteorological data collection and dataset merging

    A shallow embedding of the two notebooks of the repository

    - the meteorology collection notebook ([build_request_param], the three
      collection campaigns and the record filter [filtered_df]), and
    - [02.2_merging_data.ipynb] (the merges, the column projection, the
      row key and the export of the two master datasets),

    together with the fragments of pandas, requests and dateutil the
    notebooks call.  Python functions that can raise return a [result];
    the variable that holds a frame which the code may rebind to [None]
    is an [option DataFrame]. *)

From Stdlib Require Import ZArith String Ascii Floats DecimalString.
From stdpp Require Import base tactics option list strings.

Open Scope Z_scope.

(** ** Exceptions and results *)

(** The exception classes that the modelled calls can raise.
    [ConnectionError] is the Python builtin, the class the name
    [ConnectionError] is bound to in the notebook (it imports [requests]
    but no name from [requests.exceptions]);
    [requests_ConnectionError] and [requests_Timeout] are the classes of
    [requests.exceptions], which derive from [IOError] and not from the
    builtin. *)
Inductive exn :=
  | ConnectionError
  | ConnectionResetError
  | requests_ConnectionError
  | requests_Timeout
  | ValueError
  | KeyError (labels : list string)
  | EmptyDataError
  | ParserError
  | AttributeError
  | OutOfBoundsDatetime.

Inductive result (A : Type) :=
  | Return (a : A)
  | Raise (e : exn).
Arguments Return {A} a.
Arguments Raise {A} e.

#[global] Instance result_ret : MRet result := fun A a => Return a.
#[global] Instance result_bind : MBind result := fun A B k r =>
  match r with
  | Return a => k a
  | Raise e => Raise e
  end.

(** [isinstance(e, ConnectionError)] for the builtin class: the class itself
    and its builtin subclasses. *)
Definition is_ConnectionError (e : exn) : bool :=
  match e with
  | ConnectionError | ConnectionResetError => true
  | _ => false
  end.

(** ** Strings: [str.find], slicing and [str.split] *)

Module Str.

(** [s[:n]] *)
Fixpoint take (n : nat) (s : string) : string :=
  match n, s with
  | S n', String c s' => String c (take n' s')
  | _, _ => EmptyString
  end.

(** [s[n:]] *)
Fixpoint drop (n : nat) (s : string) : string :=
  match n, s with
  | S n', String _ s' => drop n' s'
  | _, _ => s
  end.

(** [s.startswith(sep)] *)
Fixpoint startswith (s sep : string) {struct sep} : bool :=
  match sep, s with
  | EmptyString, _ => true
  | String c sep', String d s' => bool_decide (c = d) && startswith s' sep'
  | String _ _, EmptyString => false
  end.

(** [s.find(sep)]: the index of the first occurrence, [None] for -1. *)
Fixpoint find (sep s : string) : option nat :=
  if startswith s sep then Some 0%nat
  else match s with
       | EmptyString => None
       | String _ s' => S <$> find sep s'
       end.

(** [s.split(sep)] for a non-empty separator: the loop of CPython's
    [split], cutting at each occurrence found from left to right and
    resuming after it.  Every cut consumes at least one character, so
    [String.length s] rounds always reach the end of the string. *)
Fixpoint split_loop (rounds : nat) (sep s : string) : list string :=
  match rounds with
  | O => [s]
  | S k =>
      match find sep s with
      | None => [s]
      | Some i => take i s :: split_loop k sep (drop (i + String.length sep) s)
      end
  end.

Definition split (sep s : string) : list string :=
  split_loop (String.length s) sep s.

Fixpoint join (sep : string) (l : list string) : string :=
  match l with
  | [] => EmptyString
  | [x] => x
  | x :: l' => x +:+ sep +:+ join sep l'
  end.

End Str.

(** The delimiter between the header and the table of a POWER response. *)
Definition END_HEADER : string := "-END HEADER-".

Definition newline : string := String (ascii_of_nat 10) EmptyString.

(** ** Timestamps

    A timestamp is held by its calendar fields and the time of day in
    nanoseconds, in UTC as the dates of the data are.  [None] in an
    [option Timestamp] is [NaT]. *)

Record Timestamp := mkTimestamp {
  year : Z;
  month : Z;
  day : Z;
  time_of_day : Z
}.

(** [calendar.isleap] *)
Definition isleap (y : Z) : bool :=
  (y mod 4 =? 0) && (negb (y mod 100 =? 0) || (y mod 400 =? 0)).

(** The tables [_DAYS_IN_MONTH] and [_DAYS_BEFORE_MONTH] of [datetime],
    indexed by the month, with their placeholder at index 0. *)
Definition _DAYS_IN_MONTH : list Z :=
  [-1; 31; 28; 31; 30; 31; 30; 31; 31; 30; 31; 30; 31].

Definition _DAYS_BEFORE_MONTH : list Z :=
  [-1; 0; 31; 59; 90; 120; 151; 181; 212; 243; 273; 304; 334].

(** [calendar.monthrange(y, m)[1]], the number of days of month [m]. *)
Definition days_in_month (y m : Z) : Z :=
  nth (Z.to_nat m) _DAYS_IN_MONTH 0 + (if (m =? 2) && isleap y then 1 else 0).

(** [datetime._days_before_year], [_days_before_month] and [toordinal]. *)
Definition days_before_year (y : Z) : Z :=
  let y1 := y - 1 in
  y1 * 365 + y1 / 4 - y1 / 100 + y1 / 400.

Definition days_before_month (y m : Z) : Z :=
  nth (Z.to_nat m) _DAYS_BEFORE_MONTH 0 + (if (2 <? m) && isleap y then 1 else 0).

Definition toordinal (t : Timestamp) : Z :=
  days_before_year (year t) + days_before_month (year t) (month t) + day t.

Definition nanoseconds_per_day : Z := 86400 * 1000000000.

(** The instant of a timestamp, in nanoseconds. *)
Definition value (t : Timestamp) : Z :=
  toordinal t * nanoseconds_per_day + time_of_day t.

(** A well-formed calendar date and time of day. *)
Definition valid_timestamp (t : Timestamp) : Prop :=
  1 <= month t <= 12 /\ 1 <= day t <= days_in_month (year t) (month t) /\
  0 <= time_of_day t < nanoseconds_per_day.

(** [timedelta(days=n)], in nanoseconds. *)
Definition timedelta_days (n : Z) : Z := n * nanoseconds_per_day.

(** [a - b] on two timestamp cells: a [Timedelta], [NaT] when either is. *)
Definition sub_timestamps (a b : option Timestamp) : option Z :=
  match a, b with
  | Some x, Some y => Some (value x - value y)
  | _, _ => None
  end.

(** [d > t] on a [Timedelta] cell: false on [NaT]. *)
Definition timedelta_gt (d : option Z) (t : Z) : bool :=
  match d with
  | Some x => t <? x
  | None => false
  end.

(** [dt + relativedelta(months=-n)] for [1 <= n <= 12], as dateutil
    computes it. The month is shifted, the year adjusted when the month
    leaves 1..12, and the day clipped to the length of the month reached;
    the time of day is kept. *)
Definition sub_relativedelta_months (dt : Timestamp) (n : Z) : Timestamp :=
  let y := year dt in
  let m := month dt + (- n) in
  let '(y, m) :=
    if 12 <? m then (y + 1, m - 12)
    else if m <? 1 then (y - 1, m + 12)
    else (y, m) in
  let d := Z.min (days_in_month y m) (day dt) in
  {| year := y; month := m; day := d; time_of_day := time_of_day dt |}.

(** The instants a [Timestamp] can hold: a signed 64-bit count of
    nanoseconds since 1970-01-01, the least of which stands for [NaT];
    [Timestamp.min] is 1677-09-21 00:12:43.145224193 and [Timestamp.max] is
    2262-04-11 23:47:16.854775807. *)
Definition epoch : Timestamp :=
  {| year := 1970; month := 1; day := 1; time_of_day := 0 |}.

(** The date [t], computed on a [datetime] and hence without its
    nanoseconds, can be made a [Timestamp], and the nanoseconds added
    back. *)
Definition in_bounds (t : Timestamp) : bool :=
  let v := value t - value epoch in
  (- (2 ^ 63 - 1) <=? v - v mod 1000) && (v <=? 2 ^ 63 - 1).

(** [dt - pd.tseries.offsets.DateOffset(months=n)]: the date that
    [relativedelta] gives, made a [Timestamp] again, which raises
    [OutOfBoundsDatetime] when the date is out of the bounds. *)
Definition sub_DateOffset_months (dt : Timestamp) (n : Z) : result Timestamp :=
  let t := sub_relativedelta_months dt n in
  if in_bounds t then Return t else Raise OutOfBoundsDatetime.

(** The two [date_filter] formats the notebook passes to [strftime]. *)
Inductive date_format :=
  | fmt_Ymd   (* '%Y%m%d' *)
  | fmt_Y.    (* '%Y' *)

Definition digit (d : Z) : string :=
  String (ascii_of_nat (48 + Z.to_nat (d mod 10))) EmptyString.

Definition pad2 (n : Z) : string := digit (n / 10) +:+ digit n.
Definition pad4 (n : Z) : string :=
  digit (n / 1000) +:+ digit (n / 100) +:+ digit (n / 10) +:+ digit n.

(** [ts.strftime(fmt)]; [NaT] does not support [strftime]. *)
Definition strftime (ts : option Timestamp) (fmt : date_format) : result string :=
  match ts with
  | None => Raise ValueError
  | Some t =>
      match fmt with
      | fmt_Ymd => Return (pad4 (year t) +:+ pad2 (month t) +:+ pad2 (day t))
      | fmt_Y => Return (pad4 (year t))
      end
  end.

(** ** Tables *)

(** A cell of a table.  The missing value of a column is the float [nan]. *)
Inductive cell :=
  | CInt (z : Z)
  | CFloat (f : float)
  | CStr (s : string).

Definition NaN : cell := CFloat nan.

(** Equality of floats is decided by the kernel's comparison of their
    representations, under which [nan] is equal to itself. *)
#[global] Instance float_eq_dec : EqDecision float.
Proof.
  intros x y. destruct (PrimFloat.Leibniz.eqb x y) eqn:E.
  - left. by apply FloatAxioms.Leibniz.eqb_spec.
  - right. intros H. apply FloatAxioms.Leibniz.eqb_spec in H. congruence.
Defined.

#[global] Instance cell_eq_dec : EqDecision cell.
Proof. solve_decision. Defined.

(** A [DataFrame]: the row labels, the name of the index when a column was
    made the index, the column labels, and the rows, each holding one cell
    per column. *)
Record DataFrame := mkDataFrame {
  index_name : option string;
  index : list cell;
  columns : list string;
  rows : list (list cell)
}.

(** [pd.DataFrame()] *)
Definition empty_frame : DataFrame :=
  {| index_name := None; index := []; columns := []; rows := [] |}.

(** [RangeIndex(n)]: the labels 0 .. n-1. *)
Definition RangeIndex (n : nat) : list cell :=
  (fun i => CInt (Z.of_nat i)) <$> seq 0 n.

(** The position of the first column labelled [c]. *)
Fixpoint col_index (c : string) (cols : list string) : option nat :=
  match cols with
  | [] => None
  | c' :: cols' => if decide (c = c') then Some 0%nat else S <$> col_index c cols'
  end.

Definition has_col (c : string) (cols : list string) : bool :=
  bool_decide (c ∈ cols).

(** The cell of [row] under column [c]; a column the row's frame does not
    have reads as missing. *)
Definition get_cell (cols : list string) (row : list cell) (c : string) : cell :=
  match col_index c cols with
  | Some j => nth j row NaN
  | None => NaN
  end.

(** Reading a row laid out by [from] under the column labels [to]
    ([reindex] along the columns). *)
Definition realign (from to : list string) (row : list cell) : list cell :=
  get_cell from row <$> to.

(** The column labels of a concatenation: those of the first frame, then the
    new ones of the second, in their order. *)
Definition union_columns (a b : list string) : list string :=
  a ++ List.filter (fun c => negb (has_col c a)) b.

Definition concat_frames (a b : DataFrame) : DataFrame :=
  let cols := union_columns (columns a) (columns b) in
  {| index_name := index_name a;
     index := index a ++ index b;
     columns := cols;
     rows := (realign (columns a) cols <$> rows a) ++
             (realign (columns b) cols <$> rows b) |}.

(** [pd.concat(objs)] along the rows: [None] entries are dropped, and a list
    with no frame at all is refused. *)
Definition pd_concat (objs : list (option DataFrame)) : result DataFrame :=
  match omap id objs with
  | [] => Raise ValueError
  | f :: fs => Return (foldl concat_frames f fs)
  end.

(** [df[c] = v] with a scalar [v]: the column is overwritten when the frame
    has it and appended otherwise. *)
Definition set_column (df : DataFrame) (c : string) (v : cell) : DataFrame :=
  match col_index c (columns df) with
  | Some j =>
      {| index_name := index_name df; index := index df; columns := columns df;
         rows := (fun r => <[j := v]> r) <$> rows df |}
  | None =>
      {| index_name := index_name df; index := index df;
         columns := columns df ++ [c];
         rows := (fun r => r ++ [v]) <$> rows df |}
  end.

(** A field of a csv line as a cell: an empty field is missing, any other
    holds the text of the field (the inference of numeric column types is
    not modelled: no statement below reads a parsed number). *)
Definition parse_field (s : string) : cell :=
  if decide (s = EmptyString) then NaN else CStr s.

(** A data line laid out under [n] columns: short lines are filled with
    missing values. *)
Definition parse_line (n : nat) (line : string) : list cell :=
  let fields := parse_field <$> Str.split "," line in
  fields ++ replicate (n - length fields) NaN.

(** [pd.read_csv(io.StringIO(text))] with the default options, for plain
    comma-separated text: blank lines are skipped, the first line left is
    the header, and the frame gets a fresh [RangeIndex].  Text with no line
    to read a header from raises [EmptyDataError]; a data line with more
    fields than the header raises [ParserError]. *)
Definition read_csv (text : string) : result DataFrame :=
  let lines := List.filter (fun l => negb (bool_decide (l = EmptyString)))
                 (Str.split newline text) in
  match lines with
  | [] => Raise EmptyDataError
  | header :: body =>
      let cols := Str.split "," header in
      if forallb (fun l => (length (Str.split "," l) <=? length cols)%nat) body
      then Return {| index_name := None;
                     index := RangeIndex (length body);
                     columns := cols;
                     rows := parse_line (length cols) <$> body |}
      else Raise ParserError
  end.

(** ** The wildfire records

    A row of [wildfire.csv], with the columns the notebook reads and the
    row's label in [df.index].  The two date columns went through
    [pd.to_datetime(..., errors='coerce')]: a date that does not parse is
    [NaT]. *)
Record incident := mkIncident {
  label : Z;
  id : Z;
  InitialLatitude : float;
  InitialLongitude : float;
  FireDiscoveryDateTime : option Timestamp;
  ControlDateTime : option Timestamp;
  DailyAcres : float
}.

(** [filtered_df]: the fires of more than one acre, then among them those
    that lasted more than one day. *)
Definition acres_mask (r : incident) : bool := (1 <? DailyAcres r)%float.

Definition duration_mask (r : incident) : bool :=
  timedelta_gt (sub_timestamps (ControlDateTime r) (FireDiscoveryDateTime r))
               (timedelta_days 1).

Definition filtered_df (df : list incident) : list incident :=
  let filtered_df := List.filter acres_mask df in
  List.filter duration_mask filtered_df.

(** ** The collection of the meteorological data *)

(** What a call leaves behind: the lines it printed and what it returned or
    raised. *)
Definition outcome (A : Type) : Type := (list string * result A)%type.

Definition connection_error_message : string :=
  "Error: Connection error during api call. Please check!".

(** What a campaign's loop passes to [build_request_param] for a record:
    the fire id, the two dates, the endpoint and the date format. *)
Record campaign := mkCampaign {
  fire_id_of : incident → cell;
  start_date_of : incident → option Timestamp;
  end_date_of : incident → option Timestamp;
  base_uri_of : string;
  date_filter_of : date_format
}.

(** The table a response brings: the payload after the first marker, read
    as csv and given the three columns of the fire; [None] when the text
    has no marker. *)
Definition response_df (id : cell) (lat long : float) (text : string)
  : result (option DataFrame) :=
  let split_text := Str.split END_HEADER text in
  if (2 <=? length split_text)%nat then
    response_df ← read_csv (nth 1 split_text EmptyString);
    Return (Some (set_column (set_column (set_column response_df
                    "LAT" (CFloat lat)) "LONG" (CFloat long)) "PID" id))
  else Return None.

(** The accumulator: a new table is concatenated after the rows gathered so
    far, no table leaves them as they are. *)
Definition accumulate (table : option DataFrame) (new_rows : option DataFrame)
  : option DataFrame :=
  match new_rows with
  | None => table
  | Some new_rows =>
      match table with
      | None => Some new_rows
      | Some table => Some (concat_frames table new_rows)
      end
  end.

Section Collection.

(** The text Python formats a float to in an f-string. *)
Variable float_str : float → string.

(** The remote service: what [requests.get(uri)] gives at the [n]-th call
    of a campaign, the text of the response or the exception raised. *)
Variable requests_get : nat → string → result string.

(** The statements of the [try] block of [build_request_param]. *)
Definition try_block (call : nat) (id : cell) (lat long : float)
    (result_df : option DataFrame) (base_uri : string)
  : result (option DataFrame) :=
  res_text ← requests_get call base_uri;
  let split_text := Str.split END_HEADER res_text in
  if (2 <=? length split_text)%nat then
    response_df ← read_csv (nth 1 split_text EmptyString);
    let response_df := set_column response_df "LAT" (CFloat lat) in
    let response_df := set_column response_df "LONG" (CFloat long) in
    let response_df := set_column response_df "PID" id in
    result_df ← pd_concat [result_df; Some response_df];
    Return (Some result_df)
  else
    Return result_df.

(** The query parameters of the f-string [params]. *)
Definition params (lat long : float) (start_date end_date : option Timestamp)
    (date_filter : date_format) : result string :=
  s ← strftime start_date date_filter;
  e ← strftime end_date date_filter;
  Return ("latitude=" +:+ float_str lat +:+ "&longitude=" +:+ float_str long +:+
          "&start=" +:+ s +:+ "&end=" +:+ e).

(** [build_request_param]: the request is built outside the [try]; the
    [except ConnectionError] clause prints and falls off the end of the
    function, which then returns [None]. *)
Definition build_request_param (call : nat) (id : cell) (lat long : float)
    (start_date end_date : option Timestamp) (result_df : option DataFrame)
    (base_uri : string) (date_filter : date_format)
  : outcome (option DataFrame) :=
  match params lat long start_date end_date date_filter with
  | Raise e => ([], Raise e)
  | Return params =>
      let base_uri := base_uri +:+ params in
      match try_block call id lat long result_df base_uri with
      | Return r => ([], Return r)
      | Raise exc =>
          if is_ConnectionError exc
          then ([connection_error_message], Return None)
          else ([], Raise exc)
      end
  end.

(** A [for] loop over the records that rebinds the result frame at every
    turn; an exception leaves the loop. [call] counts the requests. *)
Fixpoint for_each (body : nat → incident → option DataFrame → outcome (option DataFrame))
    (call : nat) (records : list incident) (acc : option DataFrame)
  : outcome (option DataFrame) :=
  match records with
  | [] => ([], Return acc)
  | r :: records' =>
      match body call r acc with
      | (out, Return acc') =>
          let '(out', res) := for_each body (S call) records' acc' in
          (out ++ out', res)
      | (out, Raise e) => (out, Raise e)
      end
  end.

Definition daily_uri (parameters : string) : string :=
  "https://power.larc.nasa.gov/api/temporal/daily/point?time-standard=lst&header=true&format=csv&community=sb&"
  +:+ parameters +:+ "&".

Definition monthly_uri (parameters : string) : string :=
  "https://power.larc.nasa.gov/api/temporal/monthly/point?header=true&format=csv&community=sb&"
  +:+ parameters +:+ "&".

(** Basic meteorology, over all the fires; the row label is passed as the
    fire id. *)
Definition basic_request (call : nat) (r : incident) (nasa_df : option DataFrame)
  : outcome (option DataFrame) :=
  build_request_param call (CInt (label r))
    (InitialLatitude r) (InitialLongitude r)
    (FireDiscoveryDateTime r) (ControlDateTime r)
    nasa_df
    (daily_uri "parameters=T2M,T2M_MAX,QV2M,PRECTOTCORR,WS2M,WS2M_MAX,WS10M,WS10M_MAX,GWETTOP,GWETPROF")
    fmt_Ymd.

Definition nasa_df (df : list incident) : outcome (option DataFrame) :=
  for_each basic_request 0 df (Some empty_frame).

(** Extra measurements, over the filtered fires. *)
Definition big_fire_request (call : nat) (r : incident)
    (nasa_big_fire_df : option DataFrame) : outcome (option DataFrame) :=
  build_request_param call (CInt (id r))
    (InitialLatitude r) (InitialLongitude r)
    (FireDiscoveryDateTime r) (ControlDateTime r)
    nasa_big_fire_df
    (daily_uri "parameters=T2MDEW,T2MWET,RH2M,CLRSKY_SFC_PAR_TOT,ALLSKY_SFC_PAR_TOT,ALLSKY_SFC_UV_INDEX")
    fmt_Ymd.

Definition nasa_big_fire_df (df : list incident) : outcome (option DataFrame) :=
  for_each big_fire_request 0 (filtered_df df) (Some empty_frame).

(** The dates of the historical precipitation request of a record.  The
    start is computed in the loop, before the call: a discovery that is
    [NaT] gives [NaT], and a start out of the bounds raises. *)
Definition historical_start_date (r : incident) : result (option Timestamp) :=
  match FireDiscoveryDateTime r with
  | None => Return None
  | Some d => start ← sub_DateOffset_months d 6; Return (Some start)
  end.

Definition historical_end_date (r : incident) : option Timestamp :=
  FireDiscoveryDateTime r.

(** Historical precipitation of the six months before the discovery, over
    the filtered fires. *)
Definition last_180_prec_request (call : nat) (r : incident)
    (nasa_last_180_prec_df : option DataFrame) : outcome (option DataFrame) :=
  match historical_start_date r with
  | Raise e => ([], Raise e)
  | Return start_date =>
      build_request_param call (CInt (id r))
        (InitialLatitude r) (InitialLongitude r)
        start_date
        (historical_end_date r)
        nasa_last_180_prec_df
        (monthly_uri "parameters=PRECTOTCORR_SUM,PRECSNO")
        fmt_Y
  end.

Definition nasa_last_180_prec_df (df : list incident) : outcome (option DataFrame) :=
  for_each last_180_prec_request 0 (filtered_df df) (Some empty_frame).

(** The body of a campaign's loop, from the campaign's data. *)
Definition request (c : campaign) (call : nat) (r : incident)
    (acc : option DataFrame) : outcome (option DataFrame) :=
  build_request_param call (fire_id_of c r)
    (InitialLatitude r) (InitialLongitude r)
    (start_date_of c r) (end_date_of c r) acc
    (base_uri_of c) (date_filter_of c).

(** The records of a campaign are fetched one after the other, from call
    [call] on: every request is answered with a text, and the texts bring
    the tables [news]. *)
Inductive fetches (c : campaign) : nat → list incident → list (option DataFrame) → Prop :=
  | fetches_nil call : fetches c call [] []
  | fetches_cons call r records p text new news :
      params (InitialLatitude r) (InitialLongitude r)
             (start_date_of c r) (end_date_of c r) (date_filter_of c) = Return p →
      requests_get call (base_uri_of c +:+ p) = Return text →
      response_df (fire_id_of c r) (InitialLatitude r) (InitialLongitude r) text
        = Return new →
      fetches c (S call) records news →
      fetches c call (r :: records) (new :: news).

End Collection.

Definition basic : campaign :=
  {| fire_id_of := fun r => CInt (label r);
     start_date_of := FireDiscoveryDateTime;
     end_date_of := ControlDateTime;
     base_uri_of := daily_uri "parameters=T2M,T2M_MAX,QV2M,PRECTOTCORR,WS2M,WS2M_MAX,WS10M,WS10M_MAX,GWETTOP,GWETPROF";
     date_filter_of := fmt_Ymd |}.

Definition big_fire : campaign :=
  {| fire_id_of := fun r => CInt (id r);
     start_date_of := FireDiscoveryDateTime;
     end_date_of := ControlDateTime;
     base_uri_of := daily_uri "parameters=T2MDEW,T2MWET,RH2M,CLRSKY_SFC_PAR_TOT,ALLSKY_SFC_PAR_TOT,ALLSKY_SFC_UV_INDEX";
     date_filter_of := fmt_Ymd |}.

(** The historical campaign passes the start of the window, which the
    loop has computed when it is within the bounds. *)
Definition last_180_prec : campaign :=
  {| fire_id_of := fun r => CInt (id r);
     start_date_of :=
       fun r => (fun d => sub_relativedelta_months d 6) <$> FireDiscoveryDateTime r;
     end_date_of := historical_end_date;
     base_uri_of := monthly_uri "parameters=PRECTOTCORR_SUM,PRECSNO";
     date_filter_of := fmt_Y |}.

(** ** Merging the datasets *)

(** The position of the one column labelled [c]: a label the frame does not
    have is a [KeyError], a label it has twice is refused. *)
Definition key_position (c : string) (cols : list string) : result nat :=
  match col_index c cols with
  | None => Raise (KeyError [c])
  | Some j =>
      if has_col c (List.skipn (S j) cols) then Raise ValueError else Return j
  end.

(** A row or a list of labels without its [j]-th entry. *)
Definition remove_at {A} (j : nat) (l : list A) : list A :=
  List.firstn j l ++ List.skipn (S j) l.

(** The labels of one side of a merge: a label that the other side has too
    gets the side's suffix. *)
Definition add_suffix (other : list string) (suffix : string) (c : string) : string :=
  if has_col c other then c +:+ suffix else c.

(** A row or the labels of the right side, without the key when the two
    sides share its label. *)
Definition strip_key {A} (shared : bool) (rk : nat) (l : list A) : list A :=
  if shared then remove_at rk l else l.

(** The rows of an inner join on the keys at [lk] and [rk]: each left row
    with the right rows of equal key (missing keys match each other), in
    the order of the left rows. *)
Definition joined_rows (shared : bool) (lk rk : nat)
    (left right : list (list cell)) : list (list cell) :=
  l ← left;
  r ← List.filter (fun r => bool_decide (nth lk l NaN = nth rk r NaN)) right;
  [l ++ strip_key shared rk r].

(** The labels of a join: the two sides, each label that both have with
    the suffixes [_x] and [_y]. *)
Definition merged_columns (shared : bool) (rk : nat)
    (lcols rcols : list string) : list string :=
  let rcols := strip_key shared rk rcols in
  (add_suffix rcols "_x" <$> lcols) ++ (add_suffix lcols "_y" <$> rcols).

(** [left.merge(right, left_on=left_on, right_on=right_on)], an inner join
    ([how='inner'] is the default) on one key column per side; [on=c] is
    [left_on=c, right_on=c].  A key label shared by the two sides is kept
    once, from the left; every other label the two sides share gets the
    suffixes.  The table gets a fresh [RangeIndex]. *)
Definition merge (left right : DataFrame) (left_on right_on : string)
  : result DataFrame :=
  lk ← key_position left_on (columns left);
  rk ← key_position right_on (columns right);
  let shared := bool_decide (left_on = right_on) in
  let out_rows := joined_rows shared lk rk (rows left) (rows right) in
  Return {| index_name := None;
            index := RangeIndex (length out_rows);
            columns := merged_columns shared rk (columns left) (columns right);
            rows := out_rows |}.

(** The entries of [l] at the positions where [mask] holds. *)
Fixpoint select {A} (mask : list bool) (l : list A) : list A :=
  match mask, l with
  | b :: mask', x :: l' => if b then x :: select mask' l' else select mask' l'
  | _, _ => []
  end.

(** [df.drop(columns=cols)]: with the default [errors='raise'], a label
    that is not a column is a [KeyError]. *)
Definition drop (df : DataFrame) (cols : list string) : result DataFrame :=
  match List.filter (fun c => negb (has_col c (columns df))) cols with
  | [] =>
      let keep := (fun c => negb (has_col c cols)) <$> columns df in
      Return {| index_name := index_name df; index := index df;
                columns := select keep (columns df);
                rows := select keep <$> rows df |}
  | missing => Raise (KeyError missing)
  end.

(** [df.set_index(c, inplace=True)]: the column becomes the index and
    leaves the columns. *)
Definition set_index (df : DataFrame) (c : string) : result DataFrame :=
  j ← key_position c (columns df);
  Return {| index_name := Some c;
            index := (fun r => nth j r NaN) <$> rows df;
            columns := remove_at j (columns df);
            rows := remove_at j <$> rows df |}.

(** The columns that take no part in the prediction of the acreage. *)
Definition cols : list string :=
  ["UniqueFireIdentifier"; "X"; "Y"; "ContainmentDateTime"; "ControlDateTime";
   "DailyAcres"; "FireCause"; "FireDiscoveryDateTime";
   "IncidentTypeCategory"; "IncidentTypeKind"; "InitialLatitude";
   "InitialLongitude"; "IrwinID"; "LocalIncidentIdentifier"; "POOCounty";
   "POODispatchCenterID"; "POOFips"; "POOState"; "fire_id_x"; "x"; "y";
   "firecause"; "firediscoverydatetime"; "incidenttypecategory";
   "containmentdatetime"; "controldatetime"; "dailyacres"; "discoveryacres";
   "incidenttypekind"; "initiallatitude"; "initiallongitude"; "rain_sum";
   "fire_id_y"; "irwinid"; "localincidentidentifier"; "poocounty";
   "poodispatchcenterid"; "poofips"; "poostate"; "uniquefireidentifier";
   "wind_speed_2m_mean"; "wind_speed_2m_max_mean"; "wind_speed_10m_mean";
   "wind_speed_10m_max_mean"; "humidity_mean"; "temp_2m_mean"].

(** The joined table of the filtered fires, before the projection. *)
Definition data2 (historical_precip wildfires weather landcover : DataFrame)
  : result DataFrame :=
  data ← merge historical_precip wildfires "UniqueFireIdentifier" "UniqueFireIdentifier";
  data1 ← merge data weather "id" "id";
  merge data1 landcover "id" "fire_id".

(** The projection of a joined table: the columns of the drop list are
    dropped, then [id] is made the index. *)
Definition project (table : DataFrame) (drop_columns : list string)
  : result DataFrame :=
  table ← drop table drop_columns;
  set_index table "id".

(** [master_dataset], as it stands before the export. *)
Definition master_dataset (historical_precip wildfires weather landcover : DataFrame)
  : result DataFrame :=
  data2 ← data2 historical_precip wildfires weather landcover;
  project data2 cols.

(** The joined table of all the fires, before the projection. *)
Definition data_2 (wildfires weather landcover : DataFrame) : result DataFrame :=
  data_1 ← merge wildfires weather "fire_id" "id";
  merge data_1 landcover "id" "fire_id".

(** [master_dataset_allfires], as it stands before the export. *)
Definition master_dataset_allfires (wildfires weather landcover : DataFrame)
  : result DataFrame :=
  data_2 ← data_2 wildfires weather landcover;
  project data_2 cols.

(** *** Writing a table *)

Definition dquote_char : ascii := ascii_of_nat 34.
Definition dquote : string := String dquote_char EmptyString.

Fixpoint escape_quotes (s : string) : string :=
  match s with
  | EmptyString => EmptyString
  | String c s' =>
      if Ascii.eqb c dquote_char
      then String c (String c (escape_quotes s'))
      else String c (escape_quotes s')
  end.

Fixpoint needs_quoting (s : string) : bool :=
  match s with
  | EmptyString => false
  | String c s' =>
      Ascii.eqb c dquote_char || Ascii.eqb c ","%char ||
      Ascii.eqb c (ascii_of_nat 10) || Ascii.eqb c (ascii_of_nat 13) ||
      needs_quoting s'
  end.

(** A field as the csv writer puts it with minimal quoting. *)
Definition csv_field (s : string) : string :=
  if needs_quoting s then dquote +:+ escape_quotes s +:+ dquote else s.

(** A record of the csv writer; a record of one empty field is written
    quoted. *)
Definition csv_record (fields : list string) : string :=
  match fields with
  | [f] => if decide (f = EmptyString) then dquote +:+ dquote else csv_field f
  | _ => Str.join "," (csv_field <$> fields)
  end +:+ newline.

Section Writing.

Variable float_str : float → string.

(** The text of a cell; a missing value is written as the empty string. *)
Definition cell_text (c : cell) : string :=
  match c with
  | CInt z => NilZero.string_of_int (Z.to_int z)
  | CFloat f => if is_nan f then EmptyString else float_str f
  | CStr s => s
  end.

(** [df.to_csv(path, index=index)]: the text written, the header record
    and one record per row; with [index=True] each record starts with the
    row label, under the name of the index. *)
Definition to_csv (df : DataFrame) (with_index : bool) : string :=
  let header :=
    if with_index then default EmptyString (index_name df) :: columns df
    else columns df in
  let records :=
    if with_index
    then zip_with (fun i (r : list cell) => cell_text i :: (cell_text <$> r))
           (index df) (rows df)
    else (fun r : list cell => cell_text <$> r) <$> rows df in
  String.concat EmptyString (csv_record <$> (header :: records)).


Definition master_dataset_allfires_csv (wildfires weather landcover : DataFrame)
  : result string :=
  master_dataset_allfires ← master_dataset_allfires wildfires weather landcover;
  Return (to_csv master_dataset_allfires false).

(** The text of a campaign's file, written with [index=False]; the frame
    variable may hold [None], which has no [to_csv]. *)
Definition store (df : option DataFrame) : result string :=
  match df with
  | Some df => Return (to_csv df false)
  | None => Raise AttributeError
  end.

End Writing.

(** ** Specification-side definitions *)

(** The months elapsed since year 0 at the month of a timestamp. *)
Definition month_index (t : Timestamp) : Z := 12 * year t + (month t - 1).

(** A date [n] calendar months before [D]: the month [n] months earlier,
    the same day of the month, or the last day of that month when it is
    shorter, and the same time of day. *)
Definition calendar_months_before (n : Z) (D : Timestamp) : Timestamp :=
  let k := month_index D - n in
  let y := k / 12 in
  let m := k mod 12 + 1 in
  {| year := y; month := m;
     day := Z.min (day D) (days_in_month y m);
     time_of_day := time_of_day D |}.

(** The separator's first occurrence in [a +:+ sep] is the one at the
    end: [a] is the text before the first occurrence. *)
Definition first_at (sep a : string) : Prop :=
  Str.find sep (a +:+ sep) = Some (String.length a).

(** A record qualifies for the extended campaigns: its area is above one
    acre, its two dates are known, and the control came more than one day
    after the discovery. *)
Definition qualifies (r : incident) : Prop :=
  (1 <? DailyAcres r)%float = true ∧
  match ControlDateTime r, FireDiscoveryDateTime r with
  | Some c, Some d => timedelta_days 1 < value c - value d
  | _, _ => False
  end.

#[global] Instance qualifies_dec (r : incident) : Decision (qualifies r).
Proof.
  unfold qualifies.
  destruct (ControlDateTime r), (FireDiscoveryDateTime r); apply _.
Defined.

(** Every row of the table has one cell per column. *)
Definition well_formed (df : DataFrame) : Prop :=
  Forall (λ row, length row = length (columns df)) (rows df).

(** The cells of column [c], row after row. *)
Definition column_values (c : string) (df : DataFrame) : list cell :=
  (λ row, get_cell (columns df) row c) <$> rows df.

(** The table is keyed by column [c]: no two rows hold the same key. *)
Definition keyed_by (c : string) (df : DataFrame) : Prop :=
  NoDup (column_values c df).

(** The master row [row] of label [k] of the filtered fires stems from one
    row of each source table: a precipitation row and a wildfire row of the
    same unique fire identifier, one of which holds [k] as its [id], a
    weather row of [id] [k] and a land cover row of [fire_id] [k]; every
    cell of the master row is a cell of one of them. *)
Definition from_filtered_sources
    (historical_precip wildfires weather landcover : DataFrame)
    (k : cell) (row : list cell) : Prop :=
  ∃ h f x c,
    h ∈ rows historical_precip ∧ f ∈ rows wildfires ∧
    x ∈ rows weather ∧ c ∈ rows landcover ∧
    get_cell (columns historical_precip) h "UniqueFireIdentifier"
      = get_cell (columns wildfires) f "UniqueFireIdentifier" ∧
    (("id" ∈ columns historical_precip ∧
      get_cell (columns historical_precip) h "id" = k) ∨
     ("id" ∈ columns wildfires ∧ get_cell (columns wildfires) f "id" = k)) ∧
    get_cell (columns weather) x "id" = k ∧
    get_cell (columns landcover) c "fire_id" = k ∧
    ∀ v, v ∈ row → v ∈ h ∨ v ∈ f ∨ v ∈ x ∨ v ∈ c.

(** The same for a master row of all the fires: a wildfire row of
    [fire_id] [k], a weather row of [id] [k] and a land cover row of
    [fire_id] [k]. *)
Definition from_all_fires_sources (wildfires weather landcover : DataFrame)
    (k : cell) (row : list cell) : Prop :=
  ∃ f x c,
    f ∈ rows wildfires ∧ x ∈ rows weather ∧ c ∈ rows landcover ∧
    get_cell (columns wildfires) f "fire_id" = k ∧
    get_cell (columns weather) x "id" = k ∧
    get_cell (columns landcover) c "fire_id" = k ∧
    ∀ v, v ∈ row → v ∈ f ∨ v ∈ x ∨ v ∈ c.

(** A label that does not end with a suffix of [merge]. *)
Definition plain (c : string) : Prop :=
  Str.drop (String.length c - 2) c ≠ "_x" ∧
  Str.drop (String.length c - 2) c ≠ "_y".

(** The record that each row of a gathered table stems from: every record
    as many times as the table of its response has rows. *)
Fixpoint owners (records : list incident) (news : list (option DataFrame))
  : list incident :=
  match records, news with
  | r :: records', new :: news' =>
      replicate (from_option (λ f, length (rows f)) 0%nat new) r
      ++ owners records' news'
  | _, _ => []
  end.

(** The rows of a table, read under the columns [cols]. *)
Definition rows_under (cols : list string) (f : DataFrame) : list (list cell) :=
  realign (columns f) cols <$> rows f.

(** The text has an occurrence of the separator. *)
Definition occurs (sep s : string) : Prop :=
  ∃ a b : string, s = a +:+ sep +:+ b.

(** What a call of [build_request_param] leaves behind once the request
    is built: the [try] statement run at the address [uri]. *)
Definition answered (requests_get : nat → string → result string)
    (call : nat) (id : cell) (lat long : float) (result_df : option DataFrame)
    (uri : string) : outcome (option DataFrame) :=
  match try_block requests_get call id lat long result_df uri with
  | Return r => ([], Return r)
  | Raise exc =>
      if is_ConnectionError exc
      then ([connection_error_message], Return None)
      else ([], Raise exc)
  end.

(** The request of record [r] at call [call] is refused with a connection
    error that the [except] clause catches. *)
Definition caught (float_str : float → string)
    (requests_get : nat → string → result string)
    (c : campaign) (call : nat) (r : incident) : bool :=
  match params float_str (InitialLatitude r) (InitialLongitude r)
          (start_date_of c r) (end_date_of c r) (date_filter_of c) with
  | Return p =>
      match requests_get call (base_uri_of c +:+ p) with
      | Raise e => is_ConnectionError e
      | Return _ => false
      end
  | Raise _ => false
  end.

(** The number of the requests of a campaign that are so refused, the
    first record being requested at call [call]. *)
Fixpoint caught_errors (float_str : float → string)
    (requests_get : nat → string → result string)
    (c : campaign) (call : nat) (records : list incident) : nat :=
  match records with
  | [] => 0
  | r :: records' =>
      (if caught float_str requests_get c call r then 1 else 0)
      + caught_errors float_str requests_get c (S call) records'
  end.

(** The row carries the coordinates and the id of record [r], as campaign
    [c] passes them. *)
Definition tagged_with (c : campaign) (cols : list string) (row : list cell)
    (r : incident) : Prop :=
  get_cell cols row "LAT" = CFloat (InitialLatitude r) ∧
  get_cell cols row "LONG" = CFloat (InitialLongitude r) ∧
  get_cell cols row "PID" = fire_id_of c r.

(** Every row of the accumulator carries one of the records of [P]. *)
Definition all_tagged (c : campaign) (P : incident → Prop)
    (acc : option DataFrame) : Prop :=
  match acc with
  | Some T => Forall (λ row, ∃ r, P r ∧ tagged_with c (columns T) row r) (rows T)
  | None => True
  end.

(** The cell holds an integer. *)
Definition is_int (v : cell) : bool :=
  match v with
  | CInt _ => true
  | _ => false
  end.

(** The calendar order of two timestamps: by the year, then the month, the
    day and the time of day. *)
Definition earlier (a b : Timestamp) : Prop :=
  year a < year b ∨
  (year a = year b ∧
   (month a < month b ∨
    (month a = month b ∧
     (day a < day b ∨ (day a = day b ∧ time_of_day a < time_of_day b))))).

(** ** Scenarios

    Concrete records, services and tables on which the statements below
    are evaluated. *)

Module Scenario.

Definition float_str (f : float) : string := "0.0".

Definition discovery : Timestamp :=
  {| year := 2020; month := 7; day := 19; time_of_day := 82800000000000 |}.
Definition control : Timestamp :=
  {| year := 2020; month := 9; day := 2; time_of_day := 54000000000000 |}.

Definition fire (n : Z) : incident :=
  {| label := n; id := n + 100;
     InitialLatitude := 0; InitialLongitude := 0;
     FireDiscoveryDateTime := Some discovery;
     ControlDateTime := Some control;
     DailyAcres := 5 |}.

Definition payload (row : string) : string :=
  "POWER header" +:+ newline +:+ END_HEADER +:+ newline +:+
  "YEAR,T2M" +:+ newline +:+ row +:+ newline.

(** The service answers the first and the third request with a table of
    one row and fails the second with a connection error. *)
Definition service_failing_second (call : nat) (uri : string) : result string :=
  match call with
  | 0%nat => Return (payload "2020,21.5")
  | 1%nat => Raise ConnectionError
  | _ => Return (payload "2021,17.0")
  end.

(** The service answers the first request with a text that ends at the
    marker. *)
Definition service_empty_payload (call : nat) (uri : string) : result string :=
  match call with
  | 0%nat => Return ("POWER header" +:+ newline +:+ END_HEADER)
  | _ => Return (payload "2021,17.0")
  end.

(** The service answers every request with a header and no marker. *)
Definition service_no_marker (call : nat) (uri : string) : result string :=
  Return "POWER header".

(** The service answers with a text that holds the marker twice. *)
Definition service_two_markers (call : nat) (uri : string) : result string :=
  Return ("h" +:+ END_HEADER +:+ newline +:+ "YEAR,T2M" +:+ newline +:+ "2020,21.5" +:+ newline
          +:+ END_HEADER +:+ "2021,17.0").

(** The service answers every request but the second with a table of one
    row, and the second with a text without marker. *)
Definition service_answering (call : nat) (uri : string) : result string :=
  match call with
  | 0%nat => Return (payload "2020,21.5")
  | 1%nat => Return "POWER header"
  | _ => Return (payload "2021,17.0")
  end.

(** The columns of the four tables of the merge.  Between them they hold
    every column of the drop list once. *)
Definition wildfires_columns : list string :=
  ["X"; "Y"; "ContainmentDateTime"; "ControlDateTime"; "DailyAcres";
   "DiscoveryAcres"; "FireCause"; "FireDiscoveryDateTime";
   "IncidentTypeCategory"; "IncidentTypeKind"; "InitialLatitude";
   "InitialLongitude"; "IrwinID"; "LocalIncidentIdentifier"; "POOCounty";
   "POODispatchCenterID"; "POOFips"; "POOState"; "UniqueFireIdentifier";
   "fire_id"].

Definition weather_columns : list string :=
  ["id"; "x"; "y"; "firecause"; "firediscoverydatetime";
   "incidenttypecategory"; "containmentdatetime"; "controldatetime";
   "dailyacres"; "discoveryacres"; "incidenttypekind"; "initiallatitude";
   "initiallongitude"; "rain_sum"; "irwinid"; "localincidentidentifier";
   "poocounty"; "poodispatchcenterid"; "poofips"; "poostate";
   "uniquefireidentifier"; "wind_speed_2m_mean"; "wind_speed_2m_max_mean";
   "wind_speed_10m_mean"; "wind_speed_10m_max_mean"; "humidity_mean";
   "temp_2m_mean"; "temp_2m_max"].

Definition landcover_columns : list string := ["fire_id"; "landcover"].

Definition historical_precip_columns : list string :=
  ["UniqueFireIdentifier"; "id"; "rain_6mo"; "snow_6mo"].

Fixpoint assoc (c : string) (given : list (string * cell)) : cell :=
  match given with
  | [] => CInt 0
  | (c', v) :: given' => if decide (c = c') then v else assoc c given'
  end.

(** A row under [cols] with the given cells, and 0 in the other columns. *)
Definition fill (cols : list string) (given : list (string * cell)) : list cell :=
  (λ c, assoc c given) <$> cols.

Definition table (cols : list string) (rows : list (list (string * cell))) : DataFrame :=
  {| index_name := None; index := RangeIndex (length rows);
     columns := cols; rows := fill cols <$> rows |}.

(** Three fires; the weather of the first two, the land cover of the first
    and the third, the historical precipitation of the first two. *)
Definition wildfires (i1 i2 i3 : Z) : DataFrame :=
  table wildfires_columns
    [[("UniqueFireIdentifier", CStr "2020-NVECFX-010145"); ("fire_id", CInt i1);
      ("DiscoveryAcres", CInt 5)];
     [("UniqueFireIdentifier", CStr "2020-CABDF-000001"); ("fire_id", CInt i2);
      ("DiscoveryAcres", CInt 1)];
     [("UniqueFireIdentifier", CStr "2021-ORDEF-000002"); ("fire_id", CInt i3);
      ("DiscoveryAcres", CInt 2)]].

Definition weather (i1 i2 : Z) : DataFrame :=
  table weather_columns
    [[("id", CInt i1); ("temp_2m_max", CInt 30)];
     [("id", CInt i2); ("temp_2m_max", CInt 25)]].

Definition landcover (i1 i3 : Z) : DataFrame :=
  table landcover_columns
    [[("fire_id", CInt i1); ("landcover", CStr "Shrub/Scrub")];
     [("fire_id", CInt i3); ("landcover", CStr "Evergreen Forest")]].

Definition historical_precip (i1 i2 : Z) : DataFrame :=
  table historical_precip_columns
    [[("UniqueFireIdentifier", CStr "2020-NVECFX-010145"); ("id", CInt i1);
      ("rain_6mo", CInt 120); ("snow_6mo", CInt 3)];
     [("UniqueFireIdentifier", CStr "2020-CABDF-000001"); ("id", CInt i2);
      ("rain_6mo", CInt 80); ("snow_6mo", CInt 0)]].

(** A joined table of two fires with three columns. *)
Definition joined : DataFrame :=
  table ["id"; "x"; "temp_2m_max"]
    [[("id", CInt 1); ("x", CInt 7); ("temp_2m_max", CInt 30)];
     [("id", CInt 2); ("x", CInt 8); ("temp_2m_max", CInt 25)]].

(** A fire whose area is missing, and one that is not controlled yet. *)
Definition fire_without_acres : incident :=
  {| label := 7; id := 107;
     InitialLatitude := 0; InitialLongitude := 0;
     FireDiscoveryDateTime := Some discovery;
     ControlDateTime := Some control;
     DailyAcres := nan |}.

Definition fire_without_control : incident :=
  {| label := 8; id := 108;
     InitialLatitude := 0; InitialLongitude := 0;
     FireDiscoveryDateTime := Some discovery;
     ControlDateTime := None;
     DailyAcres := 5 |}.

End Scenario.

(** Further services and tables. *)

Module Cases.

(** The service answers every request but the second, which it fails with
    the connection error of [requests]. *)
Definition service_unreachable_second (call : nat) (uri : string) : result string :=
  match call with
  | 1%nat => Raise requests_ConnectionError
  | _ => Return (Scenario.payload "2020,21.5")
  end.

(** A wildfire table that holds an [id] column besides [fire_id]. *)
Definition wildfires_with_id : DataFrame :=
  Scenario.table ["UniqueFireIdentifier"; "fire_id"; "id"; "DiscoveryAcres"]
    [[("UniqueFireIdentifier", CStr "2020-NVECFX-010145"); ("fire_id", CInt 1);
      ("id", CInt 1); ("DiscoveryAcres", CInt 5)]].

(** A land cover table without rows. *)
Definition landcover_without_rows : DataFrame :=
  Scenario.table Scenario.landcover_columns [].

(** A fire discovered on the last day of the year of [Scenario.fire]. *)
Definition fire_in_december : incident :=
  {| label := 9; id := 109;
     InitialLatitude := 0; InitialLongitude := 0;
     FireDiscoveryDateTime :=
       Some {| year := 2020; month := 12; day := 31; time_of_day := 0 |};
     ControlDateTime := None;
     DailyAcres := 5 |}.

(** A fire discovered on the last day of March: six months earlier is the
    last day of September of the year before. *)
Definition fire_in_march : incident :=
  {| label := 8; id := 108;
     InitialLatitude := 0; InitialLongitude := 0;
     FireDiscoveryDateTime :=
       Some {| year := 2020; month := 3; day := 31; time_of_day := 36000000000000 |};
     ControlDateTime := None;
     DailyAcres := 5 |}.

(** A fire discovered within six months of the least [Timestamp]. *)
Definition fire_in_1677 : incident :=
  {| label := 7; id := 107;
     InitialLatitude := 0; InitialLongitude := 0;
     FireDiscoveryDateTime :=
       Some {| year := 1677; month := 12; day := 1; time_of_day := 0 |};
     ControlDateTime :=
       Some {| year := 1677; month := 12; day := 9; time_of_day := 0 |};
     DailyAcres := 5 |}.

End Cases.

(** * Properties *)

(** ** Strings *)

Module StrFacts.
Import Str.

#[local] Arguments String.append !_ _ / : simpl nomatch.

Lemma app_assoc (a b c : string) : (a +:+ b) +:+ c = a +:+ b +:+ c.
Proof. induction a as [|x a IH]; simpl; [done | by f_equal]. Qed.

Lemma app_empty_r (a : string) : a +:+ EmptyString = a.
Proof. induction a as [|x a IH]; simpl; [done | by f_equal]. Qed.

Lemma length_app (a b : string) :
  String.length (a +:+ b) = (String.length a + String.length b)%nat.
Proof. induction a as [|x a IH]; simpl; [done | by f_equal]. Qed.

Lemma take_app (a r : string) : take (String.length a) (a +:+ r) = a.
Proof. induction a as [|x a IH]; simpl; [by destruct r | by f_equal]. Qed.

Lemma drop_app (a r : string) (n : nat) :
  drop (String.length a + n) (a +:+ r) = drop n r.
Proof. induction a as [|x a IH]; simpl; [done | apply IH]. Qed.

Lemma drop_0 (s : string) : drop 0 s = s.
Proof. by destruct s. Qed.

Lemma take_drop (n : nat) (s : string) : take n s +:+ drop n s = s.
Proof.
  revert s. induction n as [|n IH]; intros [|x s]; simpl; try done.
  by rewrite IH.
Qed.

(** [startswith] decides that the text starts with the separator. *)
Lemma startswith_true (sep s : string) :
  startswith s sep = true ↔ ∃ r, s = sep +:+ r.
Proof.
  revert s. induction sep as [|x sep IH]; intros s; simpl.
  - split; [intros _; by exists s | done].
  - destruct s as [|y s]; [split; [done | by intros [r ?]]|].
    rewrite andb_true_iff, bool_decide_eq_true, IH.
    split; [intros [-> [r ->]]; by exists r | intros [r [= -> ->]]; eauto].
Qed.

Lemma startswith_app (sep r : string) : startswith (sep +:+ r) sep = true.
Proof. apply startswith_true. by exists r. Qed.

(** Whether a long enough text starts with the separator does not depend
    on what follows it. *)
Lemma startswith_app_long (sep x r : string) :
  (String.length sep ≤ String.length x)%nat →
  startswith (x +:+ r) sep = startswith x sep.
Proof.
  revert x. induction sep as [|c sep IH]; intros x Hlen; simpl in *.
  - done.
  - destruct x as [|y x]; simpl in *; [lia|].
    f_equal. apply IH. lia.
Qed.

Lemma find_startswith (sep s : string) :
  startswith s sep = true → find sep s = Some 0%nat.
Proof. intros H. destruct s; simpl; by rewrite H. Qed.

Lemma find_Some (sep s : string) (i : nat) :
  find sep s = Some i →
  s = take i s +:+ sep +:+ drop (i + String.length sep) s.
Proof.
  revert i. induction s as [|x s IH]; intros i; simpl.
  - destruct (startswith EmptyString sep) eqn:E; [|done].
    intros [= <-]. apply startswith_true in E as [r Hr].
    destruct sep; [done | discriminate].
  - destruct (startswith (String x s) sep) eqn:E.
    + intros [= <-]. apply startswith_true in E as [r Hr]. simpl.
      rewrite Hr at 2. replace (String.length sep) with (String.length sep + 0)%nat by lia.
      by rewrite drop_app, drop_0.
    + destruct (find sep s) as [j|] eqn:Hj; [|done].
      intros [= <-]. simpl. f_equal. by apply IH.
Qed.

Lemma find_None (sep s : string) : find sep s = None ↔ ¬ occurs sep s.
Proof.
  split.
  - intros Hnone [a [b ->]]. revert Hnone.
    induction a as [|x a IH]; simpl.
    + by rewrite (find_startswith _ _ (startswith_app sep b)).
    + destruct (startswith (String x (a +:+ sep +:+ b)) sep); [done|].
      destruct (find sep (a +:+ sep +:+ b)); [done | by intros _; apply IH].
  - intros Hno. destruct (find sep s) as [i|] eqn:E; [|done].
    destruct Hno. apply find_Some in E. by eexists _, _.
Qed.

(** When the first occurrence of the separator in [a +:+ sep] is the one at
    the end, it is the first one of any text that goes on after it. *)
Lemma find_app (sep a r : string) :
  find sep (a +:+ sep) = Some (String.length a) →
  find sep (a +:+ sep +:+ r) = Some (String.length a).
Proof.
  induction a as [|x a IH]; simpl.
  - intros _. apply find_startswith, startswith_app.
  - replace (String x (a +:+ sep +:+ r)) with (String x (a +:+ sep) +:+ r)
      by (simpl; by rewrite app_assoc).
    rewrite startswith_app_long by (simpl; rewrite length_app; lia).
    destruct (startswith (String x (a +:+ sep)) sep); [done|].
    destruct (find sep (a +:+ sep)) as [j|] eqn:Hj; [|done].
    intros [= ->]. by rewrite IH.
Qed.

Lemma split_no_sep (sep s : string) : find sep s = None → split sep s = [s].
Proof. unfold split. intros H. destruct (String.length s); simpl; by rewrite ?H. Qed.

Lemma split_loop_cut (k : nat) (sep a r : string) :
  find sep (a +:+ sep) = Some (String.length a) →
  split_loop (S k) sep (a +:+ sep +:+ r) = a :: split_loop k sep r.
Proof.
  intros H. cbn [split_loop]. rewrite (find_app _ _ _ H), take_app.
  rewrite drop_app.
  replace (String.length sep) with (String.length sep + 0)%nat by lia.
  by rewrite drop_app, drop_0.
Qed.

Lemma length_drop (n : nat) (s : string) :
  String.length (drop n s) = (String.length s - n)%nat.
Proof.
  revert s. induction n as [|n IH]; intros [|x s]; simpl; try done.
Qed.

Lemma find_empty (sep : string) : sep ≠ EmptyString → find sep EmptyString = None.
Proof. by destruct sep. Qed.

(** The rounds of [split] are enough: more rounds cut the text no
    further. *)
Lemma split_loop_enough (sep : string) (n m : nat) (s : string) :
  sep ≠ EmptyString →
  (String.length s ≤ n)%nat → (String.length s ≤ m)%nat →
  split_loop n sep s = split_loop m sep s.
Proof.
  intros Hsep. revert m s. induction n as [|n IH]; intros m s Hn Hm.
  - destruct s; [|simpl in Hn; lia].
    destruct m; cbn [split_loop]; [done|]. by rewrite find_empty.
  - destruct m as [|m].
    { destruct s; [|simpl in Hm; lia]. cbn [split_loop]. by rewrite find_empty. }
    cbn [split_loop]. destruct (find sep s) as [i|] eqn:Hi; [|done].
    f_equal. assert (0 < String.length sep)%nat by (destruct sep; simpl; [done|lia]).
    assert (0 < String.length s)%nat.
    { destruct s; [by rewrite find_empty in Hi | simpl; lia]. }
    apply IH; rewrite length_drop; lia.
Qed.

End StrFacts.

(** ** One call of [build_request_param] *)

Section CollectionFacts.

Variable float_str : float → string.
Variable requests_get : nat → string → result string.

#[local] Abbreviation build_request_param := (build_request_param float_str requests_get).
#[local] Abbreviation try_block := (try_block requests_get).
#[local] Abbreviation params := (params float_str).
#[local] Abbreviation request := (request float_str requests_get).
#[local] Abbreviation fetches := (fetches float_str requests_get).

Lemma pd_concat_accumulate (result_df : option DataFrame) (response_df : DataFrame) :
  pd_concat [result_df; Some response_df]
  = Return (default response_df (accumulate result_df (Some response_df))).
Proof. by destruct result_df. Qed.

(** The [try] block answers with the accumulator fed with the table of the
    response. *)
Lemma try_block_response call id lat long result_df uri :
  try_block call id lat long result_df uri =
  (text ← requests_get call uri;
   new ← response_df id lat long text;
   Return (accumulate result_df new)).
Proof.
  unfold try_block, response_df.
  destruct (requests_get call uri) as [text|e]; [|done].
  unfold mbind, result_bind.
  destruct (2 <=? length (Str.split END_HEADER text))%nat; [|done].
  destruct (read_csv _) as [df|e]; [|done].
  by destruct result_df.
Qed.

(** A response that is read: the call prints nothing and returns the
    accumulator fed with the table of the response. *)
Lemma build_request_param_fetched call id lat long sd ed result_df base_uri fmt p text new :
  params lat long sd ed fmt = Return p →
  requests_get call (base_uri +:+ p) = Return text →
  response_df id lat long text = Return new →
  build_request_param call id lat long sd ed result_df base_uri fmt
  = ([], Return (accumulate result_df new)).
Proof.
  intros Hp Hget Hnew. unfold build_request_param.
  by rewrite Hp, try_block_response, Hget; simpl; rewrite Hnew.
Qed.

(** A response that is not read as a table: the exception of [read_csv]
    leaves the function. *)
Lemma build_request_param_unreadable call id lat long sd ed result_df base_uri fmt p text e :
  params lat long sd ed fmt = Return p →
  requests_get call (base_uri +:+ p) = Return text →
  response_df id lat long text = Raise e →
  build_request_param call id lat long sd ed result_df base_uri fmt
  = ([], Raise e).
Proof.
  intros Hp Hget Hnew. unfold build_request_param.
  rewrite Hp, try_block_response, Hget; simpl; rewrite Hnew; simpl.
  unfold response_df in Hnew.
  destruct (2 <=? _)%nat; [|done].
  destruct (read_csv _) as [df|e'] eqn:Hread; [done|].
  simpl in Hnew. injection Hnew as <-.
  unfold read_csv in Hread.
  destruct (List.filter _ _); [by injection Hread as <-|].
  destruct (forallb _ _); [done | by injection Hread as <-].
Qed.

(** A connection error of the builtin class: the clause prints its message
    and the function returns [None], whatever the accumulator held. *)
Lemma build_request_param_connection_error call id lat long sd ed result_df base_uri fmt p e :
  params lat long sd ed fmt = Return p →
  requests_get call (base_uri +:+ p) = Raise e →
  is_ConnectionError e = true →
  build_request_param call id lat long sd ed result_df base_uri fmt
  = ([connection_error_message], Return None).
Proof.
  intros Hp Hget He. unfold build_request_param.
  by rewrite Hp, try_block_response, Hget; simpl; rewrite He.
Qed.

(** Any other exception of the request leaves the function. *)
Lemma build_request_param_other_error call id lat long sd ed result_df base_uri fmt p e :
  params lat long sd ed fmt = Return p →
  requests_get call (base_uri +:+ p) = Raise e →
  is_ConnectionError e = false →
  build_request_param call id lat long sd ed result_df base_uri fmt
  = ([], Raise e).
Proof.
  intros Hp Hget He. unfold build_request_param.
  by rewrite Hp, try_block_response, Hget; simpl; rewrite He.
Qed.

(** *** The table of a response *)

Lemma response_df_no_marker id lat long text :
  ¬ occurs END_HEADER text → response_df id lat long text = Return None.
Proof.
  intros H. apply StrFacts.find_None in H.
  unfold response_df. by rewrite (StrFacts.split_no_sep _ _ H).
Qed.

Lemma string_length_pos (a t : string) :
  (2 ≤ String.length (a +:+ END_HEADER +:+ t))%nat.
Proof. rewrite !StrFacts.length_app. simpl. lia. Qed.

(** The pieces of a text with one marker at least: the text before the
    first marker, then the pieces of what follows it. *)
Lemma split_first_marker (a t : string) :
  first_at END_HEADER a →
  ∃ k, Str.split END_HEADER (a +:+ END_HEADER +:+ t)
       = a :: Str.split_loop k END_HEADER t ∧
       (String.length t < k)%nat.
Proof.
  intros Ha. unfold Str.split.
  destruct (String.length (a +:+ END_HEADER +:+ t)) as [|k] eqn:Hlen.
  { pose proof (string_length_pos a t). lia. }
  exists k. split; [by apply StrFacts.split_loop_cut|].
  rewrite !StrFacts.length_app in Hlen. simpl in Hlen. lia.
Qed.

Lemma response_df_empty_payload id lat long a :
  first_at END_HEADER a →
  response_df id lat long (a +:+ END_HEADER) = Raise EmptyDataError.
Proof.
  intros Ha. unfold response_df.
  destruct (split_first_marker a EmptyString Ha) as (k & Hsplit & Hk).
  rewrite StrFacts.app_empty_r in Hsplit. rewrite Hsplit.
  destruct k; [simpl in Hk; lia|]. done.
Qed.

Lemma response_df_two_markers id lat long a b c :
  first_at END_HEADER a → first_at END_HEADER b →
  Str.split END_HEADER (a +:+ END_HEADER +:+ b +:+ END_HEADER +:+ c) !! 1%nat = Some b ∧
  response_df id lat long (a +:+ END_HEADER +:+ b +:+ END_HEADER +:+ c) =
  (response_df ← read_csv b;
   Return (Some (set_column (set_column (set_column response_df
             "LAT" (CFloat lat)) "LONG" (CFloat long)) "PID" id))).
Proof.
  intros Ha Hb. unfold response_df.
  destruct (split_first_marker a (b +:+ END_HEADER +:+ c) Ha) as (k & -> & Hk).
  destruct k as [|k]; [lia|].
  by rewrite (StrFacts.split_loop_cut _ _ _ _ Hb).
Qed.

End CollectionFacts.

(** ** The loop of a campaign *)

Section LoopFacts.

Variable body : nat → incident → option DataFrame → outcome (option DataFrame).

(** A turn that prints nothing goes on with the next record and the
    accumulator it returned. *)
Lemma for_each_next call r records acc acc' :
  body call r acc = ([], Return acc') →
  for_each body call (r :: records) acc = for_each body (S call) records acc'.
Proof. intros H. simpl. rewrite H. by destruct (for_each _ _ _ _). Qed.

(** A turn that raises ends the loop. *)
Lemma for_each_raise call r records acc out e :
  body call r acc = (out, Raise e) →
  for_each body call (r :: records) acc = (out, Raise e).
Proof. intros H. simpl. by rewrite H. Qed.

End LoopFacts.

(** The three loops of the notebook are the loops of the three campaigns. *)
Lemma nasa_df_campaign float_str requests_get df :
  nasa_df float_str requests_get df
  = for_each (request float_str requests_get basic) 0 df (Some empty_frame).
Proof. reflexivity. Qed.

Lemma nasa_big_fire_df_campaign float_str requests_get df :
  nasa_big_fire_df float_str requests_get df
  = for_each (request float_str requests_get big_fire) 0 (filtered_df df) (Some empty_frame).
Proof. reflexivity. Qed.

(** The loop of the historical campaign is that of its campaign on the
    records whose window starts within the bounds. *)
Lemma last_180_prec_request_campaign float_str requests_get call r acc :
  historical_start_date r = Return (start_date_of last_180_prec r) →
  last_180_prec_request float_str requests_get call r acc
  = request float_str requests_get last_180_prec call r acc.
Proof. intros H. unfold last_180_prec_request. by rewrite H. Qed.

Lemma for_each_ext (body body' : nat → incident → option DataFrame → outcome (option DataFrame))
    (call : nat) (records : list incident) (acc : option DataFrame) :
  Forall (λ r, ∀ call acc, body call r acc = body' call r acc) records →
  for_each body call records acc = for_each body' call records acc.
Proof.
  intros H. revert call acc. induction H as [|r records Hr _ IH]; intros call acc; [done|].
  simpl. rewrite Hr. destruct (body' call r acc) as [out [acc'|e]]; [|done].
  by rewrite IH.
Qed.

Lemma nasa_last_180_prec_df_campaign float_str requests_get df :
  Forall (λ r, historical_start_date r = Return (start_date_of last_180_prec r))
    (filtered_df df) →
  nasa_last_180_prec_df float_str requests_get df
  = for_each (request float_str requests_get last_180_prec) 0 (filtered_df df) (Some empty_frame).
Proof.
  intros H. unfold nasa_last_180_prec_df. apply for_each_ext.
  eapply Forall_impl; [exact H|]. intros r Hr call acc.
  by apply last_180_prec_request_campaign.
Qed.

(** ** Responses without data *)

(** C2, as the code has it: in every campaign, a response without the
    marker leaves the accumulator as it was, nothing is printed or raised,
    and the loop goes on with the next record. *)
Theorem no_marker_is_no_data float_str requests_get
    (c : campaign) (call : nat) (r : incident) (records : list incident)
    (acc : option DataFrame) (p text : string) :
  params float_str (InitialLatitude r) (InitialLongitude r)
    (start_date_of c r) (end_date_of c r) (date_filter_of c) = Return p →
  requests_get call (base_uri_of c +:+ p) = Return text →
  ¬ occurs END_HEADER text →
  request float_str requests_get c call r acc = ([], Return acc) ∧
  for_each (request float_str requests_get c) call (r :: records) acc
  = for_each (request float_str requests_get c) (S call) records acc.
Proof.
  intros Hp Hget Hno.
  assert (request float_str requests_get c call r acc = ([], Return acc)) as Hreq.
  { unfold request.
    rewrite (build_request_param_fetched _ _ _ _ _ _ _ _ _ _ _ _ _ None Hp Hget);
      [done | by apply response_df_no_marker]. }
  split; [done | by apply for_each_next].
Qed.

(** A response that ends at its marker is read all the same: [read_csv]
    raises [EmptyDataError] on the empty payload, no clause catches it, and
    the exception ends the loop. *)
Lemma empty_payload_is_read float_str requests_get
    (c : campaign) (call : nat) (r : incident) (records : list incident)
    (acc : option DataFrame) (p a : string) :
  params float_str (InitialLatitude r) (InitialLongitude r)
    (start_date_of c r) (end_date_of c r) (date_filter_of c) = Return p →
  requests_get call (base_uri_of c +:+ p) = Return (a +:+ END_HEADER) →
  first_at END_HEADER a →
  request float_str requests_get c call r acc = ([], Raise EmptyDataError) ∧
  for_each (request float_str requests_get c) call (r :: records) acc
  = ([], Raise EmptyDataError).
Proof.
  intros Hp Hget Ha.
  assert (request float_str requests_get c call r acc = ([], Raise EmptyDataError)) as Hreq.
  { unfold request.
    apply (build_request_param_unreadable _ _ _ _ _ _ _ _ _ _ _ _ _ _ Hp Hget).
    by apply response_df_empty_payload. }
  split; [done | by apply for_each_raise].
Qed.

Lemma no_marker_is_no_data_witness :
  let r := Scenario.fire 0 in
  (request Scenario.float_str Scenario.service_no_marker basic 0 r (Some empty_frame)
     = ([], Return (Some empty_frame)) ∧
   for_each (request Scenario.float_str Scenario.service_no_marker basic) 0
     [r; Scenario.fire 1] (Some empty_frame)
   = for_each (request Scenario.float_str Scenario.service_no_marker basic) 1
     [Scenario.fire 1] (Some empty_frame)).
Proof.
  intros r.
  refine (no_marker_is_no_data Scenario.float_str Scenario.service_no_marker
            basic 0 r [Scenario.fire 1] (Some empty_frame) _ "POWER header"
            eq_refl eq_refl _).
  apply StrFacts.find_None. reflexivity.
Defined.

(** C2, the claim as stated fails: the first response ends at its marker,
    and the basic campaign over two fires ends with [EmptyDataError]
    instead of going on to the second fire. *)
Lemma empty_payload_ends_the_batch :
  nasa_df Scenario.float_str Scenario.service_empty_payload
    [Scenario.fire 0; Scenario.fire 1]
  = ([], Raise EmptyDataError).
Proof. vm_compute. reflexivity. Qed.

(** ** A response with more than one marker *)

(** C10: when the response holds the marker twice, [a] being the text
    before the first marker and [b] the text between the first and the
    second, the piece that is parsed is [b]: the call returns the
    accumulator fed with the table read from [b], whatever text [c] follows
    the second marker. *)
Theorem only_text_between_first_two_markers_is_parsed float_str requests_get
    (call : nat) (id : cell) (lat long : float) (sd ed : option Timestamp)
    (result_df : option DataFrame) (base_uri : string) (fmt : date_format)
    (p a b c : string) :
  params float_str lat long sd ed fmt = Return p →
  requests_get call (base_uri +:+ p)
    = Return (a +:+ END_HEADER +:+ b +:+ END_HEADER +:+ c) →
  first_at END_HEADER a →
  first_at END_HEADER b →
  Str.split END_HEADER (a +:+ END_HEADER +:+ b +:+ END_HEADER +:+ c) !! 1%nat = Some b ∧
  build_request_param float_str requests_get call id lat long sd ed result_df base_uri fmt
  = ([], response_df ← read_csv b;
         Return (accumulate result_df
                   (Some (set_column (set_column (set_column response_df
                            "LAT" (CFloat lat)) "LONG" (CFloat long)) "PID" id)))).
Proof.
  intros Hp Hget Ha Hb.
  destruct (response_df_two_markers id lat long a b c Ha Hb) as [Hnth Hresp].
  split; [done|].
  destruct (read_csv b) as [df|e] eqn:Hread.
  - by apply (build_request_param_fetched _ _ _ _ _ _ _ _ _ _ _ _ _ _ Hp Hget).
  - by apply (build_request_param_unreadable _ _ _ _ _ _ _ _ _ _ _ _ _ _ Hp Hget).
Qed.

Lemma only_text_between_first_two_markers_is_parsed_witness :
  build_request_param Scenario.float_str Scenario.service_two_markers 0 (CInt 7) 0 0
    (Some Scenario.discovery) (Some Scenario.control) (Some empty_frame)
    "uri?" fmt_Ymd
  = ([], Return (Some
       {| index_name := None; index := [CInt 0];
          columns := ["YEAR"; "T2M"; "LAT"; "LONG"; "PID"];
          rows := [[CStr "2020"; CStr "21.5"; CFloat 0; CFloat 0; CInt 7]] |})).
Proof.
  exact (proj2 (only_text_between_first_two_markers_is_parsed
    Scenario.float_str Scenario.service_two_markers 0 (CInt 7) 0%float 0%float
    (Some Scenario.discovery) (Some Scenario.control) (Some empty_frame)
    "uri?" fmt_Ymd _ "h"
    (newline +:+ "YEAR,T2M" +:+ newline +:+ "2020,21.5" +:+ newline)
    "2021,17.0" eq_refl eq_refl eq_refl eq_refl)).
Defined.

(** ** Connection errors *)

(** C1, the code at the failing input: the service answers the first and
    the third of three requests with one row each and fails the second
    with a [ConnectionError].  The error is caught and its message printed,
    but the call returns [None], the loop rebinds the frame to it, and the
    table at the end holds the row of the third fire alone: the row of the
    first fire, gathered before the failing call, is lost. *)
Theorem connection_error_loses_the_gathered_rows :
  nasa_df Scenario.float_str Scenario.service_failing_second
    [Scenario.fire 0; Scenario.fire 1; Scenario.fire 2]
  = ([connection_error_message],
     Return (Some
       {| index_name := None; index := [CInt 0];
          columns := ["YEAR"; "T2M"; "LAT"; "LONG"; "PID"];
          rows := [[CStr "2021"; CStr "17.0"; CFloat 0; CFloat 0; CInt 2]] |})).
Proof. vm_compute. reflexivity. Qed.

(** When the failing request is the last one, the frame is left [None] and
    writing the file of the campaign fails. *)
Lemma connection_error_at_the_end_leaves_None :
  nasa_df Scenario.float_str Scenario.service_failing_second
    [Scenario.fire 0; Scenario.fire 1]
  = ([connection_error_message], Return None) ∧
  store Scenario.float_str None = Raise AttributeError.
Proof. split; vm_compute; reflexivity. Qed.

(** The connection errors that [requests] raises are not of the builtin
    class and are not caught. *)
Lemma requests_connection_error_is_not_caught float_str requests_get
    call id lat long sd ed result_df base_uri fmt p :
  params float_str lat long sd ed fmt = Return p →
  requests_get call (base_uri +:+ p) = Raise requests_ConnectionError →
  build_request_param float_str requests_get call id lat long sd ed result_df base_uri fmt
  = ([], Raise requests_ConnectionError).
Proof. intros Hp Hget. by apply (build_request_param_other_error _ _ _ _ _ _ _ _ _ _ _ _ _ Hp Hget). Qed.

(** ** The order of the gathered rows *)

Lemma col_index_Some (c : string) (cols : list string) (j : nat) :
  col_index c cols = Some j → cols !! j = Some c.
Proof.
  revert j. induction cols as [|c' cols IH]; intros j; simpl; [done|].
  case_decide as Hc; [by intros [= <-]; subst|].
  destruct (col_index c cols) as [k|]; [|done].
  intros [= <-]. by apply IH.
Qed.

Lemma col_index_None (c : string) (cols : list string) :
  col_index c cols = None ↔ c ∉ cols.
Proof.
  induction cols as [|c' cols IH]; simpl.
  - split; [intros _; apply not_elem_of_nil | done].
  - rewrite not_elem_of_cons. case_decide as Hc; [by split; [|intros []]|].
    destruct (col_index c cols); simpl.
    + split; [done|]. intros [_ Hn]. by apply IH in Hn.
    + split; [|done]. intros _. split; [done | by apply IH].
Qed.

Lemma col_index_lt (c : string) (cols : list string) (j : nat) :
  col_index c cols = Some j → (j < length cols)%nat.
Proof. intros H%col_index_Some. by apply lookup_lt_Some in H. Qed.


Lemma col_index_app (c : string) (l1 l2 : list string) :
  col_index c (l1 ++ l2)
  = match col_index c l1 with
    | Some j => Some j
    | None => (λ j, length l1 + j)%nat <$> col_index c l2
    end.
Proof.
  induction l1 as [|c' l1 IH]; simpl.
  - by destruct (col_index c l2).
  - case_decide; [done|]. rewrite IH.
    destruct (col_index c l1); [done|]. by destruct (col_index c l2).
Qed.



Lemma get_cell_cons (c c' : string) (cols : list string) (v : cell) (row : list cell) :
  get_cell (c' :: cols) (v :: row) c
  = if decide (c = c') then v else get_cell cols row c.
Proof.
  unfold get_cell. simpl. case_decide; [done|].
  by destruct (col_index c cols).
Qed.


(** A row of a well-formed table reads back cell by cell under the
    columns of the table, when no label is repeated. *)
Lemma realign_same (cols : list string) (row : list cell) :
  NoDup cols → length row = length cols → realign cols cols row = row.
Proof.
  unfold realign. intros Hnd. revert row.
  induction Hnd as [|c cols Hc Hnd IH]; intros [|v row] Hlen; simpl in *; try done.
  rewrite get_cell_cons, decide_True by done. f_equal.
  rewrite <-(IH row) at 2 by lia.
  apply list_fmap_ext. intros _ c' Hc'%list_elem_of_lookup_2.
  rewrite get_cell_cons, decide_False; [done | by intros ->].
Qed.


Lemma has_col_true (c : string) (cols : list string) :
  has_col c cols = true ↔ c ∈ cols.
Proof. apply bool_decide_eq_true. Qed.

Lemma has_col_false (c : string) (cols : list string) :
  has_col c cols = false ↔ c ∉ cols.
Proof. apply bool_decide_eq_false. Qed.

(** A row read under more columns still reads the same under its own. *)
Lemma get_cell_realign (from to : list string) (row : list cell) (c : string) :
  from ⊆ to → get_cell to (realign from to row) c = get_cell from row c.
Proof.
  intros Hincl. unfold get_cell at 1.
  destruct (col_index c to) as [j|] eqn:Hj.
  - apply col_index_Some in Hj. unfold realign.
    apply nth_lookup_Some. by rewrite list_lookup_fmap, Hj.
  - apply col_index_None in Hj. unfold get_cell.
    destruct (col_index c from) as [k|] eqn:Hk; [|done].
    apply col_index_Some in Hk. apply list_elem_of_lookup_2 in Hk.
    destruct Hj. by apply Hincl.
Qed.

Lemma union_columns_l (a b : list string) : a ⊆ union_columns a b.
Proof. intros c Hc. apply elem_of_app. by left. Qed.

Lemma union_columns_r (a b : list string) : b ⊆ union_columns a b.
Proof.
  intros c Hc. apply elem_of_app.
  destruct (decide (c ∈ a)) as [?|Hna]; [by left | right].
  apply list_elem_of_In, filter_In. split; [by apply list_elem_of_In|].
  apply negb_true_iff. by apply has_col_false.
Qed.

Lemma for_each_fetches float_str requests_get (c : campaign) (call : nat)
    (records : list incident) (news : list (option DataFrame))
    (acc : option DataFrame) :
  fetches float_str requests_get c call records news →
  for_each (request float_str requests_get c) call records acc
  = ([], Return (foldl accumulate acc news)).
Proof.
  intros H. revert acc. induction H as [|call r records p text new news Hp Hget Hnew _ IH];
    intros acc; [done|].
  rewrite (for_each_next _ _ _ _ _ (accumulate acc new)); [apply IH|].
  by apply (build_request_param_fetched _ _ _ _ _ _ _ _ _ _ _ _ _ _ Hp Hget).
Qed.

Lemma read_csv_well_formed (text : string) (df : DataFrame) :
  read_csv text = Return df → well_formed df.
Proof.
  unfold read_csv. destruct (List.filter _ _) as [|header body]; [done|].
  destruct (forallb _ body) eqn:Hall; [|done]. intros [= <-].
  unfold well_formed. simpl. apply Forall_fmap, Forall_forall. intros line Hline.
  rewrite forallb_forall in Hall. specialize (Hall line).
  rewrite <-list_elem_of_In in Hall. specialize (Hall Hline).
  apply Nat.leb_le in Hall. simpl. unfold parse_line.
  rewrite length_app, length_replicate, length_fmap. lia.
Qed.

Lemma set_column_well_formed (df : DataFrame) (c : string) (v : cell) :
  well_formed df → well_formed (set_column df c v).
Proof.
  unfold well_formed, set_column. intros H.
  destruct (col_index c (columns df)); simpl; apply Forall_fmap;
    (eapply Forall_impl; [exact H|]); intros row Hrow; simpl.
  - by rewrite length_insert.
  - rewrite !length_app, Hrow. done.
Qed.

(** After [df[c] = v], every row reads [v] under [c]. *)
Lemma set_column_same (df : DataFrame) (c : string) (v : cell) :
  well_formed df →
  Forall (λ row, get_cell (columns (set_column df c v)) row c = v)
         (rows (set_column df c v)).
Proof.
  unfold well_formed, set_column. intros H.
  destruct (col_index c (columns df)) as [j|] eqn:Hj; simpl; apply Forall_fmap;
    (eapply Forall_impl; [exact H|]); intros row Hrow; simpl; unfold get_cell.
  - rewrite Hj. apply nth_lookup_Some. apply list_lookup_insert_eq.
    rewrite Hrow. by apply col_index_lt in Hj.
  - rewrite col_index_app, Hj. simpl. rewrite decide_True by done. simpl.
    rewrite Nat.add_0_r, <-Hrow. apply nth_lookup_Some.
    by rewrite lookup_app_r, Nat.sub_diag.
Qed.

(** What the rows read under the other columns is kept. *)
Lemma set_column_keeps (df : DataFrame) (c c' : string) (v v' : cell) :
  c' ≠ c → well_formed df →
  Forall (λ row, get_cell (columns df) row c' = v') (rows df) →
  Forall (λ row, get_cell (columns (set_column df c v)) row c' = v')
         (rows (set_column df c v)).
Proof.
  unfold well_formed, set_column. intros Hne Hwf H.
  assert (H' := proj2 (Forall_and _ _) (conj Hwf H)). clear Hwf H.
  destruct (col_index c (columns df)) as [j|] eqn:Hj; simpl; apply Forall_fmap;
    (eapply Forall_impl; [exact H'|]); intros row [Hrow <-]; simpl; unfold get_cell.
  - destruct (col_index c' (columns df)) as [j'|] eqn:Hj'; [|done].
    assert (j ≠ j').
    { intros ->. apply col_index_Some in Hj, Hj'. congruence. }
    destruct (row !! j') as [x|] eqn:Hx.
    + rewrite (nth_lookup_Some _ _ _ _ Hx). apply nth_lookup_Some.
      by rewrite list_lookup_insert_ne.
    + rewrite !nth_overflow; [done|..].
      * by apply lookup_ge_None.
      * rewrite length_insert. by apply lookup_ge_None.
  - rewrite col_index_app.
    destruct (col_index c' (columns df)) as [j'|] eqn:Hj'; simpl.
    + apply col_index_lt in Hj'. rewrite app_nth1; [done | by rewrite Hrow].
    + by rewrite decide_False.
Qed.

(** The rows of the table of a response carry the record of the request. *)
Lemma response_df_tagged (c : campaign) (r : incident) (text : string) (f : DataFrame) :
  response_df (fire_id_of c r) (InitialLatitude r) (InitialLongitude r) text
    = Return (Some f) →
  Forall (λ row, tagged_with c (columns f) row r) (rows f).
Proof.
  unfold response_df. destruct (2 <=? _)%nat; [|done].
  destruct (read_csv _) as [df|e] eqn:Hread; [|done].
  intros [= <-]. apply read_csv_well_formed in Hread.
  pose proof (set_column_well_formed _ "LAT" (CFloat (InitialLatitude r)) Hread) as H1.
  pose proof (set_column_well_formed _ "LONG" (CFloat (InitialLongitude r)) H1) as H2.
  unfold tagged_with. rewrite !Forall_and. repeat split.
  - apply set_column_keeps; [done..|]. apply set_column_keeps; [done..|].
    by apply set_column_same.
  - apply set_column_keeps; [done..|]. by apply set_column_same.
  - by apply set_column_same.
Qed.

Section Tagged.

Variable float_str : float → string.
Variable requests_get : nat → string → result string.
Variable c : campaign.
Variable P : incident → Prop.

Lemma tagged_with_realign (from to : list string) (row : list cell) (r : incident) :
  from ⊆ to → tagged_with c from row r → tagged_with c to (realign from to row) r.
Proof. intros H. unfold tagged_with. by rewrite !get_cell_realign. Qed.

Lemma all_tagged_accumulate (acc new : option DataFrame) :
  all_tagged c P acc → all_tagged c P new → all_tagged c P (accumulate acc new).
Proof.
  destruct new as [f|]; [|done]. destruct acc as [T|]; [|done]. simpl.
  intros HT Hf. apply Forall_app. split; apply Forall_fmap.
  - eapply Forall_impl; [exact HT|]. intros row (r & Hr & Htag).
    exists r. split; [done|]. apply tagged_with_realign; [apply union_columns_l | done].
  - eapply Forall_impl; [exact Hf|]. intros row (r & Hr & Htag).
    exists r. split; [done|]. apply tagged_with_realign; [apply union_columns_r | done].
Qed.

Lemma all_tagged_request (call : nat) (r : incident) (acc acc' : option DataFrame)
    (out : list string) :
  P r → all_tagged c P acc →
  request float_str requests_get c call r acc = (out, Return acc') →
  all_tagged c P acc'.
Proof.
  intros Hr Hacc. unfold request, build_request_param.
  destruct (params _ _ _ _ _ _) as [p|e]; [|done].
  rewrite try_block_response.
  destruct (requests_get call _) as [text|e]; simpl.
  - destruct (response_df _ _ _ text) as [new|e] eqn:Hnew; simpl.
    + intros [= _ <-]. apply all_tagged_accumulate; [done|].
      destruct new as [f|]; [|done]. simpl.
      eapply Forall_impl; [by apply response_df_tagged in Hnew|].
      intros row Hrow. by exists r.
    + by destruct (is_ConnectionError e); intros [= _ <-].
  - by destruct (is_ConnectionError e); intros [= _ <-].
Qed.

Lemma all_tagged_for_each (call : nat) (records : list incident)
    (acc acc' : option DataFrame) (out : list string) :
  Forall P records → all_tagged c P acc →
  for_each (request float_str requests_get c) call records acc = (out, Return acc') →
  all_tagged c P acc'.
Proof.
  revert call acc out. induction records as [|r records IH]; intros call acc out HP Hacc.
  - by intros [= _ <-].
  - apply Forall_cons in HP as [Hr HP]. cbn [for_each].
    destruct (request _ _ c call r acc) as [o [acc1|e]] eqn:Hreq; [|done].
    destruct (for_each _ (S call) records acc1) as [o' res] eqn:Hloop.
    intros [= _ ->]. eapply IH; [done | | done].
    by eapply all_tagged_request.
Qed.

End Tagged.

(** The tables of the responses have one cell per column in every row. *)
Lemma response_df_well_formed id lat long (text : string) (f : DataFrame) :
  response_df id lat long text = Return (Some f) → well_formed f.
Proof.
  unfold response_df. destruct (2 <=? _)%nat; [|done].
  destruct (read_csv _) as [df|e] eqn:Hread; [|done].
  intros [= <-]. apply read_csv_well_formed in Hread.
  by do 3 apply set_column_well_formed.
Qed.

Lemma fetches_well_formed float_str requests_get (c : campaign) (call : nat)
    (records : list incident) (news : list (option DataFrame)) :
  fetches float_str requests_get c call records news →
  Forall well_formed (omap Datatypes.id news).
Proof.
  induction 1 as [|call r records p text new news Hp Hget Hnew _ IH]; [done|].
  destruct new as [f|]; simpl; [|done].
  constructor; [by apply response_df_well_formed in Hnew | done].
Qed.

Lemma concat_frames_columns (a b : DataFrame) (x : string) :
  x ∈ columns (concat_frames a b) ↔ x ∈ columns a ∨ x ∈ columns b.
Proof.
  simpl. split.
  - unfold union_columns. rewrite elem_of_app.
    intros [?|Hx%list_elem_of_In%filter_In]; [by left|].
    right. by apply list_elem_of_In, Hx.
  - intros [?|?]; [by apply union_columns_l | by apply union_columns_r].
Qed.

(** Feeding the accumulator with tables one after the other: the columns of
    the table it ends with are its own and those of the tables. *)
Lemma foldl_accumulate_columns (news : list (option DataFrame)) (A : DataFrame) :
  ∃ T, foldl accumulate (Some A) news = Some T ∧
       ∀ x, x ∈ columns T ↔
            x ∈ columns A ∨ ∃ f, f ∈ omap Datatypes.id news ∧ x ∈ columns f.
Proof.
  revert A. induction news as [|new news IH]; intros A.
  - exists A. split; [done|]. intros x. split; [by left|].
    intros [?|(f & Hf & _)]; [done|]. by apply elem_of_nil in Hf.
  - destruct new as [f|]; simpl; [|apply IH].
    destruct (IH (concat_frames A f)) as (T & HT & Hcols).
    exists T. split; [done|]. intros x. rewrite Hcols, concat_frames_columns.
    split.
    + intros [[?|?]|(g & Hg & Hx)]; [by left | |].
      * right. exists f. split; [apply list_elem_of_here | done].
      * right. exists g. split; [by apply list_elem_of_further | done].
    + intros [?|(g & Hg & Hx)]; [by left; left|].
      apply elem_of_cons in Hg as [->|Hg]; [by left; right|].
      right. by exists g.
Qed.

(** The number of its rows is the sum of theirs. *)
Lemma foldl_accumulate_length (news : list (option DataFrame)) (A : DataFrame) :
  ∃ T, foldl accumulate (Some A) news = Some T ∧
       length (rows T)
       = (length (rows A)
          + sum_list ((λ f, length (rows f)) <$> omap Datatypes.id news))%nat.
Proof.
  revert A. induction news as [|new news IH]; intros A.
  - exists A. simpl. split; [done | lia].
  - destruct new as [f|]; simpl; [|apply IH].
    destruct (IH (concat_frames A f)) as (T & HT & Hlen).
    exists T. split; [done|]. rewrite Hlen. cbn [concat_frames rows].
    rewrite length_app, !length_fmap. exact (eq_sym (Nat.add_assoc _ _ _)).
Qed.

Lemma union_columns_same (cols : list string) : union_columns cols cols = cols.
Proof.
  unfold union_columns. rewrite <-(app_nil_r cols) at 3. f_equal.
  assert (∀ l, l ⊆ cols → List.filter (λ c, negb (has_col c cols)) l = []) as H.
  { induction l as [|c l IH]; intros Hl; [done|]. simpl.
    rewrite (proj2 (has_col_true c cols)) by (apply Hl, list_elem_of_here). simpl.
    apply IH. intros x Hx. by apply Hl, list_elem_of_further. }
  by apply H.
Qed.

Lemma union_columns_nil_l (cols : list string) : union_columns [] cols = cols.
Proof.
  unfold union_columns. rewrite app_nil_l.
  induction cols as [|c l IH]; [done|]. cbn [List.filter].
  rewrite (proj2 (has_col_false c [])) by apply not_elem_of_nil.
  cbn [negb]. by f_equal.
Qed.

(** When the tables all have the same distinct columns, nothing is laid out
    anew: the rows are theirs, one table after the other. *)
Lemma foldl_accumulate_same (cols : list string) (news : list (option DataFrame))
    (A : DataFrame) :
  NoDup cols →
  Forall (λ f, columns f = cols ∧ well_formed f) (omap Datatypes.id news) →
  (columns A = cols ∧ well_formed A) ∨ (columns A = [] ∧ rows A = []) →
  ∃ T, foldl accumulate (Some A) news = Some T ∧
       rows T = rows A ++ mjoin (rows <$> omap Datatypes.id news).
Proof.
  intros Hnd. revert A. induction news as [|new news IH]; intros A Hnews HA.
  - exists A. simpl. by rewrite app_nil_r.
  - destruct new as [f|]; simpl in *; [|by apply IH].
    apply Forall_cons in Hnews as [[Hf Hwf] Hnews].
    assert (columns (concat_frames A f) = cols ∧
            rows (concat_frames A f) = rows A ++ rows f) as [Hcols Hrows].
    { unfold well_formed in Hwf. rewrite Hf in Hwf.
      cbn [concat_frames columns rows]. rewrite Hf.
      destruct HA as [[HcA HwA] | [HcA HrA]]; rewrite HcA.
      - unfold well_formed in HwA. rewrite HcA in HwA.
        rewrite union_columns_same.
        split; [done|]. f_equal.
        + rewrite <-(list_fmap_id (rows A)) at 2. apply Forall_fmap_ext.
          eapply Forall_impl; [exact HwA|]. intros row Hrow. by apply realign_same.
        + rewrite <-(list_fmap_id (rows f)) at 2. apply Forall_fmap_ext.
          eapply Forall_impl; [exact Hwf|]. intros row Hrow. by apply realign_same.
      - rewrite union_columns_nil_l, HrA.
        split; [done|]. simpl.
        rewrite <-(list_fmap_id (rows f)) at 2. apply Forall_fmap_ext.
        eapply Forall_impl; [exact Hwf|]. intros row Hrow. by apply realign_same. }
    destruct (IH (concat_frames A f) Hnews) as (T & HT & HrowsT).
    { left. split; [done|]. unfold well_formed. rewrite Hcols, Hrows.
      apply Forall_app. split.
      - destruct HA as [[HcA HwA] | [_ HrA]].
        + unfold well_formed in HwA. by rewrite HcA in HwA.
        + rewrite HrA. constructor.
      - unfold well_formed in Hwf. by rewrite Hf in Hwf. }
    exists T. split; [done|]. by rewrite HrowsT, Hrows, <-app_assoc.
Qed.

(** Every row of the table is a row of the response of one record: the
    rows of the first record that brought a table, then those of the
    next. *)
Lemma fetches_owners float_str requests_get (c : campaign) (call : nat)
    (records : list incident) (news : list (option DataFrame)) :
  fetches float_str requests_get c call records news →
  ∀ (A : DataFrame) (tags : list incident),
    Forall2 (λ row r, tagged_with c (columns A) row r) (rows A) tags →
    ∃ T, foldl accumulate (Some A) news = Some T ∧
         Forall2 (λ row r, tagged_with c (columns T) row r) (rows T)
           (tags ++ owners records news).
Proof.
  induction 1 as [|call r records p text new news Hp Hget Hnew _ IH]; intros A tags HA.
  - exists A. by rewrite app_nil_r.
  - destruct new as [f|]; simpl; [|by apply IH].
    destruct (IH (concat_frames A f) (tags ++ replicate (length (rows f)) r))
      as (T & HT & Htags).
    + simpl. apply Forall2_app.
      * apply Forall2_fmap_l. eapply Forall2_impl; [exact HA|].
        intros row r' Hrow. apply tagged_with_realign; [apply union_columns_l | done].
      * apply Forall2_fmap_l. apply response_df_tagged in Hnew.
        clear -Hnew. induction Hnew as [|row rws Hrow _ IH]; simpl; constructor.
        -- apply tagged_with_realign; [apply union_columns_r | done].
        -- exact IH.
    + exists T. split; [done|]. by rewrite <-app_assoc in Htags.
Qed.

(** C8: in a campaign whose requests are all answered and read, the tables
    [news] being what the responses bring (none for a response without
    marker), the loop ends with a table [T].  Its columns are those of the
    tables of [news].  Its rows are those of the responses in the order of
    the records: the rows of the response of the first record that brought
    a table, each under the coordinates and the id of that record, then the
    rows of the next one, and so on, a response without table or without
    row adding none; their number is the sum of the numbers of rows of the
    tables.  When the tables all have the same distinct columns, the rows
    of [T] are their rows, one table after the other. *)
Theorem gathered_rows_follow_the_records float_str requests_get
    (c : campaign) (records : list incident) (news : list (option DataFrame)) :
  fetches float_str requests_get c 0 records news →
  ∃ T : DataFrame,
    for_each (request float_str requests_get c) 0 records (Some empty_frame)
      = ([], Return (Some T)) ∧
    (∀ x, x ∈ columns T ↔ ∃ f, f ∈ omap Datatypes.id news ∧ x ∈ columns f) ∧
    Forall2 (λ row r, tagged_with c (columns T) row r) (rows T) (owners records news) ∧
    length (rows T) = sum_list ((λ f, length (rows f)) <$> omap Datatypes.id news) ∧
    (∀ cols, NoDup cols →
             Forall (λ f, columns f = cols) (omap Datatypes.id news) →
             rows T = mjoin (rows <$> omap Datatypes.id news)).
Proof.
  intros Hfetch.
  destruct (foldl_accumulate_columns news empty_frame) as (T & HT & Hcols).
  exists T. split; [by rewrite (for_each_fetches _ _ _ _ _ _ _ Hfetch), HT|].
  split; [|split; [|split]].
  - intros x. rewrite Hcols. simpl. split; [|by right].
    intros [Hx|?]; [|done]. by apply elem_of_nil in Hx.
  - destruct (fetches_owners _ _ _ _ _ _ Hfetch empty_frame []) as (T' & HT' & Htags);
      [constructor|].
    rewrite HT in HT'. by injection HT' as <-.
  - destruct (foldl_accumulate_length news empty_frame) as (T' & HT' & Hlen).
    rewrite HT in HT'. by injection HT' as <-.
  - intros cols Hnd Hsame.
    destruct (foldl_accumulate_same cols news empty_frame Hnd) as (T' & HT' & Hrows).
    + apply Forall_and. split; [done|]. by eapply fetches_well_formed.
    + by right.
    + rewrite HT in HT'. by injection HT' as <-.
Qed.

Lemma gathered_rows_follow_the_records_witness :
  ∃ T : DataFrame,
    nasa_df Scenario.float_str Scenario.service_answering
      [Scenario.fire 0; Scenario.fire 1; Scenario.fire 2]
    = ([], Return (Some T)) ∧
    Forall2 (λ row r, tagged_with basic (columns T) row r) (rows T)
      [Scenario.fire 0; Scenario.fire 2] ∧
    length (rows T) = 2%nat.
Proof.
  edestruct (gathered_rows_follow_the_records
               Scenario.float_str Scenario.service_answering basic
               [Scenario.fire 0; Scenario.fire 1; Scenario.fire 2])
    as (T & Hloop & _ & Hown & Hlen & _).
  { eapply fetches_cons; [reflexivity | reflexivity | vm_compute; reflexivity |].
    eapply fetches_cons; [reflexivity | reflexivity | vm_compute; reflexivity |].
    eapply fetches_cons; [reflexivity | reflexivity | vm_compute; reflexivity |].
    apply fetches_nil. }
  exists T. split; [exact Hloop|]. split; [exact Hown|]. rewrite Hlen. reflexivity.
Defined.

(** The rows of the witness, as the loop leaves them. *)
Example gathered_rows_of_three_fires :
  nasa_df Scenario.float_str Scenario.service_answering
    [Scenario.fire 0; Scenario.fire 1; Scenario.fire 2]
  = ([], Return (Some
      {| index_name := None; index := [CInt 0; CInt 0];
         columns := ["YEAR"; "T2M"; "LAT"; "LONG"; "PID"];
         rows := [[CStr "2020"; CStr "21.5"; CFloat 0; CFloat 0; CInt 0];
                  [CStr "2021"; CStr "17.0"; CFloat 0; CFloat 0; CInt 2]] |})).
Proof. vm_compute. reflexivity. Qed.

(** ** The record filter *)

Lemma List_filter_decide {A} (f : A → bool) (P : A → Prop) `{∀ x, Decision (P x)}
    (l : list A) :
  (∀ x, f x = true ↔ P x) → List.filter f l = filter P l.
Proof.
  intros Hf. induction l as [|x l IH]; [done|]. simpl.
  rewrite filter_cons. destruct (f x) eqn:Hx.
  - rewrite decide_True by (by apply Hf). by f_equal.
  - rewrite decide_False; [done|]. rewrite <-Hf. congruence.
Qed.

Lemma List_filter_and {A} (f g : A → bool) (l : list A) :
  List.filter g (List.filter f l) = List.filter (λ x, f x && g x) l.
Proof.
  induction l as [|x l IH]; [done|]. simpl.
  destruct (f x); simpl; [|done]. destruct (g x); simpl; by rewrite ?IH.
Qed.

Lemma duration_mask_true (r : incident) :
  duration_mask r = true ↔
  match ControlDateTime r, FireDiscoveryDateTime r with
  | Some c, Some d => timedelta_days 1 < value c - value d
  | _, _ => False
  end.
Proof.
  unfold duration_mask, sub_timestamps, timedelta_gt.
  destruct (ControlDateTime r), (FireDiscoveryDateTime r); try done.
  apply Z.ltb_lt.
Qed.

Lemma masks_qualify (r : incident) :
  acres_mask r && duration_mask r = true ↔ qualifies r.
Proof.
  unfold qualifies. by rewrite andb_true_iff, duration_mask_true.
Qed.

Lemma filtered_df_filter (df : list incident) :
  filtered_df df = filter qualifies df.
Proof.
  unfold filtered_df. rewrite List_filter_and.
  apply List_filter_decide, masks_qualify.
Qed.

(** C7: the filter keeps, in their order, exactly the records that qualify:
    more than one acre, and a control more than one day after the
    discovery.  A record with a missing control or discovery date does not
    qualify, no error is involved; filtering twice is filtering once. *)
Theorem filtered_df_selects_the_qualifying_records (df : list incident) :
  filtered_df df = filter qualifies df ∧
  (∀ r, r ∈ filtered_df df ↔
        r ∈ df ∧ (1 <? DailyAcres r)%float = true ∧
        ∃ c d, ControlDateTime r = Some c ∧ FireDiscoveryDateTime r = Some d ∧
               86400 * 1000000000 < value c - value d) ∧
  (∀ r, ControlDateTime r = None ∨ FireDiscoveryDateTime r = None →
        r ∉ filtered_df df) ∧
  filtered_df (filtered_df df) = filtered_df df.
Proof.
  split; [apply filtered_df_filter|]. split; [|split].
  - intros r. rewrite filtered_df_filter, list_elem_of_filter. unfold qualifies.
    unfold timedelta_days, nanoseconds_per_day.
    split.
    + intros [[Ha Hd] Hin]. split; [exact Hin|]. split; [exact Ha|].
      destruct (ControlDateTime r) as [c|], (FireDiscoveryDateTime r) as [d|];
        try contradiction.
      exists c, d. split; [reflexivity|]. split; [reflexivity|]. lia.
    + intros (Hin & Ha & c & d & -> & -> & Hd).
      split; [|exact Hin]. split; [exact Ha|]. lia.
  - intros r Hmissing. rewrite filtered_df_filter, list_elem_of_filter.
    unfold qualifies. intros [[_ Hd] _].
    destruct Hmissing as [Hm | Hm]; rewrite Hm in Hd; [done|].
    by destruct (ControlDateTime r).
  - rewrite !filtered_df_filter. apply list_filter_filter_l. done.
Qed.

Example filtered_df_of_three_fires :
  filtered_df [Scenario.fire_without_acres; Scenario.fire 0;
               Scenario.fire_without_control]
  = [Scenario.fire 0].
Proof. vm_compute. reflexivity. Qed.

Lemma acres_mask_nan (r : incident) : DailyAcres r = nan → acres_mask r = false.
Proof. unfold acres_mask. intros ->. reflexivity. Qed.

Lemma filtered_df_app (df1 df2 : list incident) :
  filtered_df (df1 ++ df2) = filtered_df df1 ++ filtered_df df2.
Proof. unfold filtered_df. by rewrite !List.filter_app. Qed.

(** C9: a record whose area is missing never passes the filter (the
    comparison of a missing value with 1 is false), so it is never requested
    by the extended and the historical campaigns: both run as if the record
    were not in the table. *)
Theorem missing_acres_never_qualify float_str requests_get (r : incident) :
  DailyAcres r = nan →
  (∀ df, r ∉ filtered_df df) ∧
  (∀ df1 df2,
     filtered_df (df1 ++ r :: df2) = filtered_df (df1 ++ df2) ∧
     nasa_big_fire_df float_str requests_get (df1 ++ r :: df2)
       = nasa_big_fire_df float_str requests_get (df1 ++ df2) ∧
     nasa_last_180_prec_df float_str requests_get (df1 ++ r :: df2)
       = nasa_last_180_prec_df float_str requests_get (df1 ++ df2)).
Proof.
  intros Hnan. pose proof (acres_mask_nan r Hnan) as Hmask. split.
  - intros df. rewrite filtered_df_filter, list_elem_of_filter.
    intros [[Ha _] _]. unfold acres_mask in Hmask. congruence.
  - intros df1 df2.
    assert (filtered_df (df1 ++ r :: df2) = filtered_df (df1 ++ df2)) as Heq.
    { rewrite !filtered_df_app. f_equal.
      unfold filtered_df. simpl. by rewrite Hmask. }
    unfold nasa_big_fire_df, nasa_last_180_prec_df. by rewrite Heq.
Qed.

Lemma missing_acres_never_qualify_witness :
  filtered_df ([Scenario.fire 0] ++ Scenario.fire_without_acres :: [Scenario.fire 1])
  = filtered_df ([Scenario.fire 0] ++ [Scenario.fire 1]).
Proof.
  exact (proj1 (proj2 (missing_acres_never_qualify Scenario.float_str
                         Scenario.service_answering Scenario.fire_without_acres eq_refl)
                 [Scenario.fire 0] [Scenario.fire 1])).
Defined.

(** ** The window of the historical precipitation *)

Lemma days_before_year_succ (y : Z) :
  days_before_year (y + 1)
  = days_before_year y + 365 + (if isleap y then 1 else 0).
Proof.
  unfold days_before_year, isleap. replace (y + 1 - 1) with y by lia.
  destruct (y mod 4 =? 0) eqn:H4; destruct (y mod 100 =? 0) eqn:H100;
    destruct (y mod 400 =? 0) eqn:H400; simpl;
    rewrite ?Z.eqb_eq, ?Z.eqb_neq in *;
    Z.to_euclidean_division_equations; lia.
Qed.

Lemma month_cases (m : Z) :
  1 <= m <= 12 →
  m = 1 ∨ m = 2 ∨ m = 3 ∨ m = 4 ∨ m = 5 ∨ m = 6 ∨
  m = 7 ∨ m = 8 ∨ m = 9 ∨ m = 10 ∨ m = 11 ∨ m = 12.
Proof. lia. Qed.

(** The date that [relativedelta] gives is the subtraction of calendar
    months. *)
Lemma sub_relativedelta_months_calendar (D : Timestamp) :
  1 <= month D <= 12 →
  sub_relativedelta_months D 6 = calendar_months_before 6 D.
Proof.
  intros Hm. unfold sub_relativedelta_months, calendar_months_before, month_index.
  destruct D as [y m d t]. simpl in *.
  replace (m + - (6)) with (m - 6) by lia.
  assert ((12 <? m - 6) = false) as -> by lia.
  destruct (m - 6 <? 1) eqn:Hlow; rewrite ?Z.ltb_lt, ?Z.ltb_ge in Hlow.
  - replace ((12 * y + (m - 1) - 6) / 12) with (y - 1)
      by (Z.to_euclidean_division_equations; lia).
    replace ((12 * y + (m - 1) - 6) mod 12 + 1) with (m - 6 + 12)
      by (Z.to_euclidean_division_equations; lia).
    by rewrite Z.min_comm.
  - replace ((12 * y + (m - 1) - 6) / 12) with y
      by (Z.to_euclidean_division_equations; lia).
    replace ((12 * y + (m - 1) - 6) mod 12 + 1) with (m - 6)
      by (Z.to_euclidean_division_equations; lia).
    by rewrite Z.min_comm.
Qed.

Lemma month_index_before (n : Z) (D : Timestamp) :
  month_index (calendar_months_before n D) = month_index D - n.
Proof.
  unfold calendar_months_before, month_index. simpl.
  Z.to_euclidean_division_equations; lia.
Qed.

(** Six calendar months are never 180 days: between 181 and 184. *)
Lemma six_months_in_days (D : Timestamp) :
  valid_timestamp D →
  181 <= toordinal D - toordinal (sub_relativedelta_months D 6) <= 184.
Proof.
  intros (Hm & Hd & _). destruct D as [y m d t]. simpl in *.
  unfold sub_relativedelta_months, toordinal. simpl.
  pose proof (days_before_year_succ (y - 1)) as Hy.
  replace (y - 1 + 1) with y in Hy by lia.
  unfold days_before_month, days_in_month in *.
  destruct (month_cases m Hm) as [->|[->|[->|[->|[->|[->|[->|[->|[->|[->|[->| ->]]]]]]]]]]];
    simpl in *; destruct (isleap y), (isleap (y - 1)); simpl in *; lia.
Qed.

(** Once the request is built, a call is the [try] statement at its
    address. *)
Lemma build_request_param_answered float_str requests_get call id lat long sd ed
    result_df base_uri fmt p :
  params float_str lat long sd ed fmt = Return p →
  build_request_param float_str requests_get call id lat long sd ed result_df base_uri fmt
  = answered requests_get call id lat long result_df (base_uri +:+ p).
Proof. intros Hp. unfold build_request_param, answered. by rewrite Hp. Qed.

(** The start of the window, as the loop computes it. *)
Lemma historical_start_date_in_bounds (r : incident) (D : Timestamp) :
  FireDiscoveryDateTime r = Some D →
  in_bounds (sub_relativedelta_months D 6) = true →
  historical_start_date r = Return (Some (sub_relativedelta_months D 6)).
Proof.
  intros HD Hb. unfold historical_start_date, sub_DateOffset_months.
  by rewrite HD, Hb.
Qed.

Lemma historical_start_date_out_of_bounds (r : incident) (D : Timestamp) :
  FireDiscoveryDateTime r = Some D →
  in_bounds (sub_relativedelta_months D 6) = false →
  historical_start_date r = Raise OutOfBoundsDatetime.
Proof.
  intros HD Hb. unfold historical_start_date, sub_DateOffset_months.
  by rewrite HD, Hb.
Qed.

(** The request of the historical campaign for a record discovered at [D],
    the start [S0] of whose window is within the bounds. *)
Lemma last_180_prec_request_answered float_str requests_get call r acc (D S0 : Timestamp) :
  FireDiscoveryDateTime r = Some D →
  sub_relativedelta_months D 6 = S0 →
  in_bounds S0 = true →
  last_180_prec_request float_str requests_get call r acc
  = build_request_param float_str requests_get call (CInt (id r))
      (InitialLatitude r) (InitialLongitude r) (Some S0) (Some D) acc
      (monthly_uri "parameters=PRECTOTCORR_SUM,PRECSNO") fmt_Y ∧
  last_180_prec_request float_str requests_get call r acc
  = answered requests_get call (CInt (id r))
      (InitialLatitude r) (InitialLongitude r) acc
      (monthly_uri "parameters=PRECTOTCORR_SUM,PRECSNO" +:+
       "latitude=" +:+ float_str (InitialLatitude r) +:+
       "&longitude=" +:+ float_str (InitialLongitude r) +:+
       "&start=" +:+ pad4 (year S0) +:+ "&end=" +:+ pad4 (year D)).
Proof.
  intros HD <- Hb. unfold last_180_prec_request.
  rewrite (historical_start_date_in_bounds r D HD Hb).
  unfold historical_end_date. rewrite HD. split; [done|].
  by apply build_request_param_answered.
Qed.

(** C6: for a record discovered at [D], the loop of the historical
    precipitation computes the start of the window as [D] minus six
    calendar months (the month six months earlier, the same day of the
    month or the last day of a shorter month, the same time of day), 181 to
    184 days before [D] and never 180, and, that date being within the
    bounds of a [Timestamp], calls [build_request_param] with it as the
    start date and [D] as the end date; the request that is sent names the
    years of the two dates. *)
Theorem historical_window_is_six_calendar_months float_str requests_get
    (call : nat) (r : incident) (D : Timestamp) (acc : option DataFrame) :
  FireDiscoveryDateTime r = Some D →
  valid_timestamp D →
  in_bounds (calendar_months_before 6 D) = true →
  historical_start_date r = Return (Some (calendar_months_before 6 D)) ∧
  historical_end_date r = Some D ∧
  month_index (calendar_months_before 6 D) = month_index D - 6 ∧
  181 <= toordinal D - toordinal (calendar_months_before 6 D) <= 184 ∧
  value D - value (calendar_months_before 6 D) ≠ timedelta_days 180 ∧
  last_180_prec_request float_str requests_get call r acc
  = build_request_param float_str requests_get call (CInt (id r))
      (InitialLatitude r) (InitialLongitude r)
      (Some (calendar_months_before 6 D)) (Some D) acc
      (monthly_uri "parameters=PRECTOTCORR_SUM,PRECSNO") fmt_Y ∧
  last_180_prec_request float_str requests_get call r acc
  = answered requests_get call (CInt (id r))
      (InitialLatitude r) (InitialLongitude r) acc
      (monthly_uri "parameters=PRECTOTCORR_SUM,PRECSNO" +:+
       "latitude=" +:+ float_str (InitialLatitude r) +:+
       "&longitude=" +:+ float_str (InitialLongitude r) +:+
       "&start=" +:+ pad4 (year (calendar_months_before 6 D)) +:+
       "&end=" +:+ pad4 (year D)).
Proof.
  intros HD Hvalid Hb.
  pose proof (sub_relativedelta_months_calendar D (proj1 Hvalid)) as Hsub.
  pose proof (six_months_in_days D Hvalid) as Hdays. rewrite Hsub in Hdays.
  destruct (last_180_prec_request_answered float_str requests_get call r acc
              D (calendar_months_before 6 D) HD Hsub Hb) as [Hcall Hsent].
  split.
  { rewrite <-Hsub. apply historical_start_date_in_bounds; [done|]. by rewrite Hsub. }
  split; [done|]. split; [apply month_index_before|]. split; [lia|].
  split; [|by split].
  unfold value, timedelta_days, nanoseconds_per_day.
  change (time_of_day (calendar_months_before 6 D)) with (time_of_day D).
  lia.
Qed.

Lemma historical_window_is_six_calendar_months_witness :
  historical_start_date Cases.fire_in_march
  = Return (Some {| year := 2019; month := 9; day := 30;
                    time_of_day := 36000000000000 |}) ∧
  last_180_prec_request Scenario.float_str Scenario.service_answering 0
    Cases.fire_in_march None
  = answered Scenario.service_answering 0 (CInt 108) 0 0 None
      "https://power.larc.nasa.gov/api/temporal/monthly/point?header=true&format=csv&community=sb&parameters=PRECTOTCORR_SUM,PRECSNO&latitude=0.0&longitude=0.0&start=2019&end=2020".
Proof.
  destruct (historical_window_is_six_calendar_months Scenario.float_str
              Scenario.service_answering 0 Cases.fire_in_march
              {| year := 2020; month := 3; day := 31; time_of_day := 36000000000000 |}
              None eq_refl)
    as (Hstart & _ & _ & _ & _ & _ & Hsent).
  - repeat split; vm_compute; congruence.
  - vm_compute. reflexivity.
  - split; [exact Hstart | exact Hsent].
Defined.

(** The request of the example, and the loop over a record discovered
    within six months of the least [Timestamp]. *)
Example historical_request_of_the_example :
  last_180_prec_request Scenario.float_str Scenario.service_answering 0
    (Scenario.fire 0) None
  = answered Scenario.service_answering 0 (CInt 100) 0 0 None
      "https://power.larc.nasa.gov/api/temporal/monthly/point?header=true&format=csv&community=sb&parameters=PRECTOTCORR_SUM,PRECSNO&latitude=0.0&longitude=0.0&start=2020&end=2020" ∧
  nasa_last_180_prec_df Scenario.float_str Scenario.service_answering
    [Scenario.fire 0; Cases.fire_in_1677]
  = ([], Raise OutOfBoundsDatetime).
Proof. split; vm_compute; reflexivity. Qed.

(** ** The projection of the columns *)

Lemma select_fmap {A B} (g : A → B) (mask : list bool) (l : list A) :
  select mask (g <$> l) = g <$> select mask l.
Proof.
  revert l. induction mask as [|b mask IH]; intros [|x l]; simpl; try done.
  destruct b; [rewrite fmap_cons; f_equal|]; apply IH.
Qed.

Lemma select_filter {A} (f : A → bool) (l : list A) :
  select (f <$> l) l = List.filter f l.
Proof.
  induction l as [|x l IH]; simpl; [done|].
  destruct (f x); [f_equal|]; apply IH.
Qed.

Lemma remove_at_fmap {A B} (g : A → B) (j : nat) (l : list A) :
  remove_at j (g <$> l) = g <$> remove_at j l.
Proof.
  unfold remove_at. by rewrite fmap_app, fmap_take, fmap_drop.
Qed.

Lemma filter_id (c : string) (cols : list string) :
  c ∉ cols → filter (λ c', c' ≠ c) cols = cols.
Proof.
  induction cols as [|c' cols IH]; [done|].
  intros [Hne Hc]%not_elem_of_cons.
  rewrite filter_cons, decide_True by done. by rewrite IH.
Qed.

(** Without its one column labelled [c], a list of distinct labels is the
    list of its labels other than [c]. *)
Lemma remove_at_filter (c : string) (cols : list string) (j : nat) :
  NoDup cols → col_index c cols = Some j →
  remove_at j cols = filter (λ c', c' ≠ c) cols.
Proof.
  intros Hnd. revert j. induction Hnd as [|c' cols Hc' Hnd IH]; intros j; simpl; [done|].
  case_decide as Heq.
  - intros [= <-]. subst c'. unfold remove_at. simpl.
    rewrite filter_cons, decide_False by (by intros []).
    by rewrite filter_id.
  - destruct (col_index c cols) as [k|] eqn:Hk; [|done].
    intros [= <-]. unfold remove_at in *. simpl.
    rewrite filter_cons, decide_True by done. by rewrite <-(IH k).
Qed.

Lemma select_row (f : string → bool) (cols : list string) (row : list cell) :
  NoDup cols → length row = length cols →
  select (f <$> cols) row = realign cols (select (f <$> cols) cols) row.
Proof.
  intros Hnd Hlen. rewrite <-(realign_same cols row Hnd Hlen) at 1.
  unfold realign. apply select_fmap.
Qed.

Lemma col_index_elem_of (c : string) (cols : list string) :
  c ∈ cols → ∃ j, col_index c cols = Some j.
Proof.
  intros Hc. destruct (col_index c cols) as [j|] eqn:Hj; [by exists j|].
  by apply col_index_None in Hj.
Qed.

Lemma key_position_NoDup (c : string) (cols : list string) (j : nat) :
  NoDup cols → col_index c cols = Some j → key_position c cols = Return j.
Proof.
  intros Hnd Hj. unfold key_position. rewrite Hj.
  destruct (has_col c (List.skipn (S j) cols)) eqn:Hdup; [|done].
  apply has_col_true in Hdup. apply col_index_Some in Hj.
  rewrite <-(take_drop_middle cols j c Hj) in Hnd.
  apply NoDup_app in Hnd as (_ & _ & Hnd). apply NoDup_cons in Hnd as [Hnotin _].
  done.
Qed.

Lemma key_position_Return (c : string) (cols : list string) (j : nat) :
  key_position c cols = Return j → col_index c cols = Some j.
Proof.
  unfold key_position. destruct (col_index c cols) as [k|]; [|done].
  destruct (has_col c _); [done|]. by intros [= ->].
Qed.

Lemma drop_Return (table : DataFrame) (drop_columns : list string) :
  Forall (λ c, c ∈ columns table) drop_columns →
  drop table drop_columns =
  Return {| index_name := index_name table; index := index table;
            columns := filter (λ c, c ∉ drop_columns) (columns table);
            rows := select ((λ c, negb (has_col c drop_columns)) <$> columns table)
                      <$> rows table |}.
Proof.
  intros Hall. unfold drop.
  replace (List.filter _ drop_columns) with (@nil string).
  - rewrite select_filter. do 2 f_equal.
    apply List_filter_decide. intros c.
    by rewrite negb_true_iff, has_col_false.
  - symmetry. induction Hall as [|c l Hc _ IH]; [done|]. simpl.
    by rewrite (proj2 (has_col_true c (columns table)) Hc).
Qed.

Lemma drop_Raise (table : DataFrame) (drop_columns : list string) (c : string) :
  c ∈ drop_columns → c ∉ columns table →
  ∃ missing, drop table drop_columns = Raise (KeyError missing) ∧ c ∈ missing.
Proof.
  intros Hc Hnot. unfold drop.
  assert (c ∈ List.filter (λ c, negb (has_col c (columns table))) drop_columns) as Hin.
  { apply list_elem_of_In, filter_In. split; [by apply list_elem_of_In|].
    by apply negb_true_iff, has_col_false. }
  destruct (List.filter _ drop_columns) as [|c' missing]; [by apply elem_of_nil in Hin|].
  by eexists.
Qed.

(** C4, as the code has it: on a well-formed table with distinct labels,
    when every label of the drop list is a column, the projection drops
    them, makes [id] the index and leaves the other columns, each row
    keeping its cells under them; a label of the drop list that is not a
    column is a [KeyError], and nothing is projected. *)
Theorem project_drops_strictly (table : DataFrame) (drop_columns : list string) :
  well_formed table →
  NoDup (columns table) →
  (Forall (λ c, c ∈ columns table) drop_columns →
   "id" ∈ columns table → "id" ∉ drop_columns →
   ∃ T, project table drop_columns = Return T ∧
        columns T = filter (λ c, c ≠ "id" ∧ c ∉ drop_columns) (columns table) ∧
        index_name T = Some "id" ∧
        index T = column_values "id" table ∧
        rows T = rows_under (columns T) table) ∧
  (∀ c, c ∈ drop_columns → c ∉ columns table →
   ∃ missing, project table drop_columns = Raise (KeyError missing) ∧ c ∈ missing).
Proof.
  intros Hwf Hnd. split.
  - intros Hall Hid Hkeep. unfold project. rewrite (drop_Return _ _ Hall). simpl.
    set (kept := filter (λ c, c ∉ drop_columns) (columns table)).
    set (mask := (λ c, negb (has_col c drop_columns)) <$> columns table).
    assert (kept = select mask (columns table)) as Hkept.
    { unfold kept, mask. rewrite select_filter. symmetry.
      apply List_filter_decide. intros c. by rewrite negb_true_iff, has_col_false. }
    assert (NoDup kept) as Hndk by (by apply NoDup_filter).
    destruct (col_index_elem_of "id" kept) as [j Hj].
    { by apply list_elem_of_filter. }
    unfold set_index. simpl. rewrite (key_position_NoDup _ _ _ Hndk Hj). simpl.
    eexists. split; [done|]. simpl.
    assert (remove_at j kept
            = filter (λ c, c ≠ "id" ∧ c ∉ drop_columns) (columns table)) as Hcols.
    { rewrite (remove_at_filter "id") by done. unfold kept.
      by rewrite list_filter_filter. }
    split; [done|]. split; [done|]. split.
    + unfold column_values. rewrite <-list_fmap_compose.
      apply Forall_fmap_ext. eapply Forall_impl; [exact Hwf|].
      intros row Hlen. simpl. unfold mask. rewrite select_row by done.
      fold mask. rewrite <-Hkept.
      apply nth_lookup_Some. unfold realign.
      rewrite list_lookup_fmap, (col_index_Some _ _ _ Hj). done.
    + unfold rows_under. rewrite <-list_fmap_compose.
      apply Forall_fmap_ext. eapply Forall_impl; [exact Hwf|].
      intros row Hlen. simpl. unfold mask. rewrite select_row by done.
      fold mask. rewrite <-Hkept. unfold realign.
      apply remove_at_fmap.
  - intros c Hc Hnot. unfold project.
    destruct (drop_Raise table drop_columns c Hc Hnot) as (missing & -> & Hin).
    by exists missing.
Qed.

Lemma project_drops_strictly_witness :
  ∃ T, project Scenario.joined ["x"] = Return T ∧
       columns T = ["temp_2m_max"] ∧
       index T = [CInt 1; CInt 2] ∧
       rows T = [[CInt 30]; [CInt 25]].
Proof.
  assert (well_formed Scenario.joined) as Hwf by (repeat constructor).
  assert (NoDup (columns Scenario.joined)) as Hnd
    by (apply (bool_decide_unpack _); vm_compute; exact I).
  destruct (proj1 (project_drops_strictly Scenario.joined ["x"] Hwf Hnd))
    as (T & Hproj & Hcols & _ & Hindex & Hrows);
    [apply (bool_decide_unpack _); vm_compute; exact I..|].
  exists T. split; [exact Hproj|]. split; [exact Hcols|]. split; [exact Hindex|].
  rewrite Hrows, Hcols. reflexivity.
Defined.

(** C4, the claim as stated fails: a drop list with a label that the table
    does not have is refused with a [KeyError]; so is the drop list of the
    notebook on joined tables without a [rain_sum] column. *)
Lemma absent_label_is_a_KeyError :
  project Scenario.joined ["x"; "y"] = Raise (KeyError ["y"]) ∧
  master_dataset_allfires (Scenario.wildfires 1 2 3)
    (Scenario.table (List.filter (λ c, negb (bool_decide (c = "rain_sum")))
                       Scenario.weather_columns)
       [[("id", CInt 1)]; [("id", CInt 2)]])
    (Scenario.landcover 1 3)
  = Raise (KeyError ["rain_sum"]).
Proof. split; vm_compute; reflexivity. Qed.

(** ** The export of the master tables *)

Lemma bind_Return {A B} (a : A) (k : A → result B) : (Return a ≫= k) = k a.
Proof. reflexivity. Qed.

Lemma bind_Raise {A B} (e : exn) (k : A → result B) : (Raise e ≫= k) = Raise e.
Proof. reflexivity. Qed.

Lemma col_index_first (c : string) (cols : list string) (j : nat) :
  col_index c cols = Some j → c ∉ take j cols.
Proof.
  revert j. induction cols as [|c' cols IH]; intros j; simpl; [done|].
  case_decide as Hc; [intros [= <-]; apply not_elem_of_nil|].
  destruct (col_index c cols) as [k|]; [|done].
  intros [= <-]. simpl. apply not_elem_of_cons. split; [done | by apply IH].
Qed.



(** What [to_csv] writes with [index=False] is read off the columns and
    the rows alone. *)
Lemma to_csv_without_index float_str (df : DataFrame) (name : option string)
    (labels : list cell) :
  to_csv float_str
    {| index_name := name; index := labels; columns := columns df; rows := rows df |}
    false
  = to_csv float_str df false.
Proof. reflexivity. Qed.



(** ** The rows of an inner join *)

Section JoinedRows.

Variable shared : bool.
Variables lk rk : nat.

#[local] Abbreviation kl := (λ l : list cell, nth lk l NaN).
#[local] Abbreviation kr := (λ r : list cell, nth rk r NaN).
#[local] Abbreviation glue := (λ l r : list cell, l ++ strip_key shared rk r).

Lemma joined_rows_cons (l : list cell) (L R : list (list cell)) :
  joined_rows shared lk rk (l :: L) R
  = (glue l <$> filter (λ r, kl l = kr r) R) ++ joined_rows shared lk rk L R.
Proof.
  unfold joined_rows at 1. rewrite bind_cons. f_equal.
  rewrite (List_filter_decide _ (λ r, kl l = kr r))
    by (intros r; apply bool_decide_eq_true).
  induction (filter _ R) as [|r rs IH]; [done|].
  by rewrite bind_cons, fmap_cons, IH.
Qed.

Lemma elem_of_joined_rows (m : list cell) (L R : list (list cell)) :
  m ∈ joined_rows shared lk rk L R ↔
  ∃ l r, l ∈ L ∧ r ∈ R ∧ kl l = kr r ∧ m = glue l r.
Proof.
  induction L as [|l L IH].
  - split; [by intros ?%elem_of_nil | by intros (l & r & ?%elem_of_nil & _)].
  - rewrite joined_rows_cons, elem_of_app, list_elem_of_fmap, IH. split.
    + intros [(r & -> & [Hk Hr]%list_elem_of_filter) | (l' & r & Hl' & Hr & Hk & ->)].
      * exists l, r. by rewrite elem_of_cons; eauto.
      * exists l', r. by rewrite elem_of_cons; eauto.
    + intros (l' & r & [->|Hl']%elem_of_cons & Hr & Hk & ->).
      * left. exists r. by rewrite list_elem_of_filter.
      * right. by exists l', r.
Qed.

Lemma filter_none {A} (P : A → Prop) `{∀ x, Decision (P x)} (l : list A) :
  (∀ x, x ∈ l → ¬ P x) → filter P l = [].
Proof.
  induction l as [|x l IH]; [done|]. intros Hno.
  rewrite filter_cons, decide_False by (apply Hno, list_elem_of_here).
  apply IH. intros y Hy. by apply Hno, list_elem_of_further.
Qed.

Lemma filter_ext_in {A} (P Q : A → Prop) `{∀ x, Decision (P x)} `{∀ x, Decision (Q x)}
    (l : list A) :
  (∀ x, x ∈ l → (P x ↔ Q x)) → filter P l = filter Q l.
Proof.
  induction l as [|x l IH]; [done|]. intros Hext.
  rewrite !filter_cons, IH by (intros y Hy; by apply Hext, list_elem_of_further).
  destruct (decide (P x)) as [HP|HP], (decide (Q x)) as [HQ|HQ]; try done;
    by apply (Hext x (list_elem_of_here _ _)) in HP || by apply (Hext x (list_elem_of_here _ _)) in HQ.
Qed.

(** A key of a keyed table picks one row at most. *)
Lemma keyed_filter (k : cell) (R : list (list cell)) :
  NoDup (kr <$> R) →
  filter (λ r, k = kr r) R = [] ∨ ∃ r, filter (λ r, k = kr r) R = [r].
Proof.
  induction R as [|r R IH]; [by left|].
  rewrite fmap_cons, NoDup_cons. intros [Hr Hnd].
  rewrite filter_cons. case_decide as Hk; [|by apply IH].
  right. exists r. f_equal. apply filter_none.
  intros r' Hr' Hk'. apply Hr. rewrite <-Hk, Hk'.
  apply list_elem_of_fmap. by exists r'.
Qed.

(** When the right table is keyed, the join keeps a part of the left rows,
    in their order: what is read off the left rows is a sublist. *)
Lemma joined_rows_sublist {V} (f f' : list cell → V) (L R : list (list cell)) :
  NoDup (kr <$> R) →
  (∀ l r, l ∈ L → r ∈ R → f (glue l r) = f' l) →
  (f <$> joined_rows shared lk rk L R) `sublist_of` (f' <$> L).
Proof.
  intros Hnd. induction L as [|l L IH]; intros Hf; [done|].
  rewrite joined_rows_cons, fmap_app, fmap_cons.
  assert ((f <$> joined_rows shared lk rk L R) `sublist_of` (f' <$> L)) as Hsub.
  { apply IH. intros l' r Hl' Hr. by apply Hf; [apply list_elem_of_further|]. }
  destruct (keyed_filter (kl l) R Hnd) as [Hnone | [r Hone]].
  - rewrite Hnone. simpl. by apply sublist_cons.
  - rewrite Hone. simpl. rewrite Hf; [by apply sublist_skip | apply list_elem_of_here |].
    assert (r ∈ filter (λ r, kl l = kr r) R) as Hr by (rewrite Hone; apply list_elem_of_here).
    by apply list_elem_of_filter in Hr as [_ Hr].
Qed.

Lemma joined_rows_filter_right (P : list cell → Prop) `{∀ r, Decision (P r)}
    (L R : list (list cell)) :
  (∀ l r, l ∈ L → r ∈ R → kl l = kr r → P r) →
  joined_rows shared lk rk L (filter P R) = joined_rows shared lk rk L R.
Proof.
  induction L as [|l L IH]; intros HP; [done|].
  rewrite !joined_rows_cons, IH
    by (intros l' r Hl' Hr; by apply HP; [apply list_elem_of_further|]).
  do 2 f_equal. rewrite list_filter_filter. apply filter_ext_in.
  intros r Hr. split; [by intros [? _]|].
  intros Hk. split; [done|]. by apply (HP l r); [apply list_elem_of_here|..].
Qed.

(** When the left table is keyed, the join uses each right row once at
    most: what is read off the right rows is a part of them, in some
    order. *)
Lemma joined_rows_submseteq {V} (f f' : list cell → V) (L R : list (list cell)) :
  NoDup (kl <$> L) →
  (∀ l r, l ∈ L → r ∈ R → f (glue l r) = f' r) →
  (f <$> joined_rows shared lk rk L R) ⊆+ (f' <$> R).
Proof.
  intros Hnd. revert R. induction L as [|l L IH]; intros R Hf.
  { apply submseteq_nil_l. }
  rewrite fmap_cons in Hnd. apply NoDup_cons in Hnd as [Hl Hnd].
  rewrite joined_rows_cons, fmap_app.
  rewrite <-(joined_rows_filter_right (λ r, ¬ kl l = kr r)).
  - rewrite <-(filter_app_complement (λ r, kl l = kr r) R) at 3.
    rewrite fmap_app. apply submseteq_app.
    + rewrite <-list_fmap_compose.
      replace (f ∘ glue l <$> filter (λ r, kl l = kr r) R)
        with (f' <$> filter (λ r, kl l = kr r) R); [done|].
      symmetry. apply Forall_fmap_ext, Forall_forall.
      intros r [_ Hr]%list_elem_of_filter. simpl.
      by apply Hf; [apply list_elem_of_here|].
    + apply IH; [done|]. intros l' r Hl' [_ Hr]%list_elem_of_filter.
      by apply Hf; [apply list_elem_of_further|].
  - intros l' r Hl' Hr Hk Hk'. apply Hl.
    rewrite Hk', <-Hk. apply list_elem_of_fmap. by exists l'.
Qed.

Lemma length_joined_rows_left (L R : list (list cell)) :
  NoDup (kr <$> R) → (length (joined_rows shared lk rk L R) ≤ length L)%nat.
Proof.
  intros Hnd.
  pose proof (joined_rows_sublist (λ _, ()) (λ _, ()) L R Hnd (λ _ _ _ _, eq_refl)) as H.
  apply sublist_length in H. by rewrite !length_fmap in H.
Qed.

Lemma length_joined_rows_right (L R : list (list cell)) :
  NoDup (kl <$> L) → (length (joined_rows shared lk rk L R) ≤ length R)%nat.
Proof.
  intros Hnd.
  pose proof (joined_rows_submseteq (λ _, ()) (λ _, ()) L R Hnd (λ _ _ _ _, eq_refl)) as H.
  apply submseteq_length in H. by rewrite !length_fmap in H.
Qed.

End JoinedRows.

Lemma submseteq_NoDup {A} (l k : list A) : l ⊆+ k → NoDup k → NoDup l.
Proof.
  intros (k' & Hsub & Hperm)%submseteq_sublist_l Hnd.
  rewrite <-Hperm in Hnd. by apply (sublist_NoDup _ k').
Qed.

(** ** The columns of a join *)

Lemma plain_not_suffixed (n c s : string) :
  plain n → s = "_x" ∨ s = "_y" → c +:+ s ≠ n.
Proof.
  intros [Hx Hy] Hs <-.
  assert (Str.drop (String.length (c +:+ s) - 2) (c +:+ s) = s) as Hdrop.
  { rewrite StrFacts.length_app.
    replace (String.length c + String.length s - 2)%nat with (String.length c + 0)%nat
      by (destruct Hs as [-> | ->]; simpl; lia).
    by rewrite StrFacts.drop_app, StrFacts.drop_0. }
  destruct Hs as [-> | ->]; congruence.
Qed.

Lemma add_suffix_plain (other : list string) (s c n : string) :
  plain n → s = "_x" ∨ s = "_y" →
  add_suffix other s c = n ↔ c = n ∧ n ∉ other.
Proof.
  intros Hn Hs. unfold add_suffix. destruct (has_col c other) eqn:Hc.
  - apply has_col_true in Hc. split.
    + intros H. by apply plain_not_suffixed in H.
    + by intros [-> ?].
  - apply has_col_false in Hc. split; [by intros -> | by intros [-> _]].
Qed.

Lemma col_index_add_suffix (other cols : list string) (s n : string) :
  plain n → s = "_x" ∨ s = "_y" → n ∉ other →
  col_index n (add_suffix other s <$> cols) = col_index n cols.
Proof.
  intros Hn Hs Hother. induction cols as [|c cols IH]; [done|].
  rewrite fmap_cons. simpl. rewrite IH.
  destruct (decide (n = add_suffix other s c)) as [Heq|Hne].
  - symmetry in Heq. apply add_suffix_plain in Heq as [-> _]; [|done..].
    by rewrite decide_True.
  - rewrite decide_False; [done|]. intros ->. apply Hne. symmetry.
    by apply add_suffix_plain.
Qed.

Lemma not_elem_of_add_suffix (other cols : list string) (s n : string) :
  plain n → s = "_x" ∨ s = "_y" → n ∈ other →
  n ∉ add_suffix other s <$> cols.
Proof.
  intros Hn Hs Hother (c & Heq & _)%list_elem_of_fmap.
  symmetry in Heq. by apply add_suffix_plain in Heq as [_ ?].
Qed.

Lemma elem_of_add_suffix (other cols : list string) (s n : string) :
  plain n → s = "_x" ∨ s = "_y" →
  n ∈ add_suffix other s <$> cols ↔ n ∈ cols ∧ n ∉ other.
Proof.
  intros Hn Hs. rewrite list_elem_of_fmap. split.
  - intros (c & Heq & Hc). symmetry in Heq.
    by apply add_suffix_plain in Heq as [-> ?].
  - intros [Hc Hother]. exists n. split; [|done]. symmetry.
    by apply add_suffix_plain.
Qed.

Lemma get_cell_app_l (c1 c2 : list string) (r1 r2 : list cell) (n : string) :
  n ∈ c1 → length r1 = length c1 →
  get_cell (c1 ++ c2) (r1 ++ r2) n = get_cell c1 r1 n.
Proof.
  intros [j Hj]%col_index_elem_of Hlen. unfold get_cell.
  rewrite col_index_app, Hj. apply app_nth1.
  apply col_index_lt in Hj. lia.
Qed.

Lemma get_cell_app_r (c1 c2 : list string) (r1 r2 : list cell) (n : string) :
  n ∉ c1 → length r1 = length c1 →
  get_cell (c1 ++ c2) (r1 ++ r2) n = get_cell c2 r2 n.
Proof.
  intros Hn%col_index_None Hlen. unfold get_cell.
  rewrite col_index_app, Hn. destruct (col_index n c2) as [j|]; [|done].
  simpl. rewrite <-Hlen. rewrite app_nth2 by lia. f_equal. lia.
Qed.

Lemma remove_at_cons {A} (j : nat) (x : A) (l : list A) :
  remove_at (S j) (x :: l) = x :: remove_at j l.
Proof. reflexivity. Qed.

Lemma get_cell_remove_at (cols : list string) (row : list cell) (rk : nat) (n : string) :
  length row = length cols → cols !! rk ≠ Some n →
  get_cell (remove_at rk cols) (remove_at rk row) n = get_cell cols row n.
Proof.
  revert row rk. induction cols as [|c cols IH]; intros [|v row] rk Hlen Hrk;
    simpl in Hlen; try done.
  { unfold remove_at. by destruct rk. }
  destruct rk as [|rk].
  - unfold remove_at. simpl. rewrite get_cell_cons, decide_False; [done|].
    intros ->. by apply Hrk.
  - rewrite !remove_at_cons, !get_cell_cons. case_decide; [done|].
    apply IH; [lia | done].
Qed.

Lemma get_cell_select (f : string → bool) (cols : list string) (row : list cell)
    (n : string) :
  length row = length cols → f n = true →
  get_cell (select (f <$> cols) cols) (select (f <$> cols) row) n
  = get_cell cols row n.
Proof.
  intros Hlen Hn. revert row Hlen.
  induction cols as [|c cols IH]; intros [|v row] Hlen; simpl in Hlen; try done.
  rewrite fmap_cons. simpl. destruct (f c) eqn:Hc.
  - rewrite !get_cell_cons. case_decide; [done|]. apply IH. lia.
  - rewrite get_cell_cons, decide_False by congruence. apply IH. lia.
Qed.

Lemma elem_of_remove_at {A} (j : nat) (x : A) (l : list A) :
  x ∈ remove_at j l → x ∈ l.
Proof.
  unfold remove_at. rewrite elem_of_app.
  intros [H|H]; [by apply (subseteq_take j l) | by apply (subseteq_drop (S j) l)].
Qed.

Lemma elem_of_strip_key {A} (shared : bool) (j : nat) (x : A) (l : list A) :
  x ∈ strip_key shared j l → x ∈ l.
Proof. destruct shared; [apply elem_of_remove_at | done]. Qed.

Lemma length_remove_at {A B} (j : nat) (l : list A) (k : list B) :
  length l = length k → length (remove_at j l) = length (remove_at j k).
Proof.
  intros Hlen. unfold remove_at.
  by rewrite !length_app, !length_take, !length_drop, Hlen.
Qed.

Lemma length_strip_key {A B} (shared : bool) (j : nat) (l : list A) (k : list B) :
  length l = length k → length (strip_key shared j l) = length (strip_key shared j k).
Proof. destruct shared; [apply length_remove_at | done]. Qed.

Section MergedColumns.

Variable shared : bool.
Variable rk : nat.
Variables Lc Rc : list string.
Variable n : string.
Hypothesis plain_n : plain n.

#[local] Abbreviation Mc := (merged_columns shared rk Lc Rc).

(** A plain label of a join is a label of one side alone. *)
Lemma elem_of_merged_columns :
  n ∈ Mc ↔
  (n ∈ Lc ∧ n ∉ strip_key shared rk Rc) ∨ ((n ∉ Lc) ∧ n ∈ strip_key shared rk Rc).
Proof.
  unfold merged_columns. rewrite elem_of_app, !elem_of_add_suffix by auto.
  split; [intros [[??]|[??]]; auto | intros [[??]|[??]]; auto].
Qed.

(** Under a label of the left side, a joined row reads as its left row. *)
Lemma get_cell_merged_left (l r : list cell) :
  n ∈ Mc → n ∈ Lc → length l = length Lc →
  get_cell Mc (l ++ strip_key shared rk r) n = get_cell Lc l n.
Proof.
  intros [[_ Hnr]|[Hnl _]]%elem_of_merged_columns Hl Hlen; [|done].
  unfold merged_columns. rewrite get_cell_app_l.
  - unfold get_cell. by rewrite col_index_add_suffix by auto.
  - apply elem_of_add_suffix; auto.
  - by rewrite length_fmap.
Qed.

(** Under a label of the right side, it reads as its right row. *)
Lemma get_cell_merged_right (l r : list cell) :
  n ∈ Mc → n ∉ Lc → length l = length Lc → length r = length Rc →
  (shared = true → Rc !! rk ≠ Some n) →
  n ∈ Rc ∧ get_cell Mc (l ++ strip_key shared rk r) n = get_cell Rc r n.
Proof.
  intros [[Hl _]|[_ Hr]]%elem_of_merged_columns Hnl Hlen Hlenr Hkey; [done|].
  split; [by apply elem_of_strip_key in Hr|].
  unfold merged_columns. rewrite get_cell_app_r.
  - transitivity (get_cell (strip_key shared rk Rc) (strip_key shared rk r) n).
    { unfold get_cell. by rewrite col_index_add_suffix by auto. }
    destruct shared; [|done]. simpl. apply get_cell_remove_at; auto.
  - intros [? _]%elem_of_add_suffix; auto.
  - by rewrite length_fmap.
Qed.

End MergedColumns.

(** What a merge that returns has found and built. *)
Lemma merge_Return (L R M : DataFrame) (lo ro : string) :
  merge L R lo ro = Return M →
  ∃ lk rk,
    col_index lo (columns L) = Some lk ∧
    col_index ro (columns R) = Some rk ∧
    (ro ∉ remove_at rk (columns R)) ∧
    columns M = merged_columns (bool_decide (lo = ro)) rk (columns L) (columns R) ∧
    rows M = joined_rows (bool_decide (lo = ro)) lk rk (rows L) (rows R).
Proof.
  unfold merge.
  destruct (key_position lo (columns L)) as [lk|] eqn:Hlk; [|done].
  destruct (key_position ro (columns R)) as [rk|] eqn:Hrk; [|done].
  rewrite !bind_Return. intros [= <-]. exists lk, rk. simpl.
  split; [by apply key_position_Return|].
  split; [by apply key_position_Return|]. split; [|done].
  unfold key_position in Hrk.
  destruct (col_index ro (columns R)) as [k|] eqn:Hk; [|done].
  destruct (has_col ro (List.skipn (S k) (columns R))) eqn:Hdup; [done|].
  injection Hrk as ->. unfold remove_at. rewrite elem_of_app.
  intros [Hin|Hin]; [by apply (col_index_first _ _ _ Hk) | by apply has_col_false in Hdup].
Qed.

Lemma merge_well_formed (L R M : DataFrame) (lo ro : string) :
  well_formed L → well_formed R → merge L R lo ro = Return M → well_formed M.
Proof.
  intros HL HR (lk & rk & _ & _ & _ & Hcols & Hrows)%merge_Return.
  unfold well_formed. rewrite Hcols, Hrows. apply Forall_forall.
  intros m (l & r & Hl & Hr & _ & ->)%elem_of_joined_rows.
  unfold merged_columns. rewrite !length_app, !length_fmap.
  unfold well_formed in HL, HR.
  rewrite Forall_forall in HL. rewrite Forall_forall in HR.
  rewrite (HL l Hl). f_equal. apply length_strip_key. by apply HR.
Qed.

Lemma key_cell (cols : list string) (row : list cell) (c : string) (j : nat) :
  col_index c cols = Some j → nth j row NaN = get_cell cols row c.
Proof. intros H. unfold get_cell. by rewrite H. Qed.

Lemma key_column (df : DataFrame) (c : string) (j : nat) :
  col_index c (columns df) = Some j →
  (λ row, nth j row NaN) <$> rows df = column_values c df.
Proof.
  intros H. unfold column_values. apply list_fmap_ext.
  intros _ row _. by apply key_cell.
Qed.

(** The rows of a merge: each is a left row and a right row of equal key;
    its cells are cells of the two, and under a plain label it reads as
    the row of the side that has the label. *)
Lemma merge_rows (L R M : DataFrame) (lo ro : string) :
  well_formed L → well_formed R → merge L R lo ro = Return M →
  ∀ m, m ∈ rows M →
    ∃ l r, l ∈ rows L ∧ r ∈ rows R ∧
      get_cell (columns L) l lo = get_cell (columns R) r ro ∧
      (∀ v, v ∈ m → v ∈ l ∨ v ∈ r) ∧
      ∀ n, plain n → n ∈ columns M →
        (n ∈ columns L ∧ get_cell (columns M) m n = get_cell (columns L) l n) ∨
        ((n ∉ columns L) ∧ n ∈ columns R ∧
         get_cell (columns M) m n = get_cell (columns R) r n).
Proof.
  intros HL HR (lk & rk & Hlk & Hrk & Hro & Hcols & Hrows)%merge_Return m Hm.
  rewrite Hrows in Hm.
  apply elem_of_joined_rows in Hm as (l & r & Hl & Hr & Hkey & ->).
  exists l, r. split; [done|]. split; [done|].
  rewrite (key_cell _ _ _ _ Hlk), (key_cell _ _ _ _ Hrk) in Hkey.
  split; [done|]. split.
  { intros v [Hv|Hv]%elem_of_app; [by left | right].
    by apply elem_of_strip_key in Hv. }
  unfold well_formed in HL, HR.
  rewrite Forall_forall in HL. rewrite Forall_forall in HR.
  intros n Hn HnM. rewrite Hcols in *.
  destruct (decide (n ∈ columns L)) as [HnL|HnL].
  - left. split; [done|]. apply get_cell_merged_left; auto.
  - right. split; [done|]. apply get_cell_merged_right; auto.
    intros Hshared%bool_decide_eq_true Hnk. subst ro.
    apply col_index_Some in Hrk. rewrite Hrk in Hnk. injection Hnk as ->.
    apply HnL. apply col_index_Some in Hlk. by apply list_elem_of_lookup_2 in Hlk.
Qed.

(** The row count of a merge, against each side when the other is keyed. *)
Lemma merge_length (L R M : DataFrame) (lo ro : string) :
  merge L R lo ro = Return M →
  (keyed_by ro R → (length (rows M) ≤ length (rows L))%nat) ∧
  (keyed_by lo L → (length (rows M) ≤ length (rows R))%nat).
Proof.
  intros (lk & rk & Hlk & Hrk & _ & _ & ->)%merge_Return.
  unfold keyed_by. rewrite <-(key_column _ _ _ Hlk), <-(key_column _ _ _ Hrk).
  split; [apply length_joined_rows_left | apply length_joined_rows_right].
Qed.

(** A column by which the left table is keyed keys the merge too, when the
    right table is keyed by its merge key. *)
Lemma merge_keyed_left (L R M : DataFrame) (lo ro n : string) :
  well_formed L → well_formed R → merge L R lo ro = Return M →
  keyed_by ro R → plain n → n ∈ columns M → n ∈ columns L →
  keyed_by n L → keyed_by n M.
Proof.
  intros HL HR (lk & rk & Hlk & Hrk & _ & Hcols & Hrows)%merge_Return
    HkR Hn HnM HnL HkL.
  unfold keyed_by, column_values in *. rewrite Hrows.
  eapply sublist_NoDup; [exact HkL|].
  apply joined_rows_sublist.
  - by rewrite (key_column _ _ _ Hrk).
  - intros l r Hl Hr. rewrite Hcols in *.
    apply get_cell_merged_left; auto.
    unfold well_formed in HL. rewrite Forall_forall in HL. by apply HL.
Qed.

(** A column by which the right table is keyed keys the merge too, when
    the left table is keyed by its merge key. *)
Lemma merge_keyed_right (L R M : DataFrame) (lo ro n : string) :
  well_formed L → well_formed R → merge L R lo ro = Return M →
  keyed_by lo L → plain n → n ∈ columns M → n ∉ columns L →
  keyed_by n R → keyed_by n M.
Proof.
  intros HL HR (lk & rk & Hlk & Hrk & _ & Hcols & Hrows)%merge_Return
    HkL Hn HnM HnL HkR.
  unfold keyed_by, column_values in *. rewrite Hrows.
  eapply submseteq_NoDup; [|exact HkR].
  apply joined_rows_submseteq.
  - by rewrite (key_column _ _ _ Hlk).
  - intros l r Hl Hr. rewrite Hcols in *.
    unfold well_formed in HL, HR.
    rewrite Forall_forall in HL. rewrite Forall_forall in HR.
    apply get_cell_merged_right; auto.
    intros Hshared%bool_decide_eq_true Hnk. subst ro.
    apply col_index_Some in Hrk. rewrite Hrk in Hnk. injection Hnk as ->.
    apply HnL. apply col_index_Some in Hlk. by apply list_elem_of_lookup_2 in Hlk.
Qed.

Lemma elem_of_select {A} (mask : list bool) (l : list A) (x : A) :
  x ∈ select mask l → x ∈ l.
Proof.
  revert l.
  induction mask as [|b mask IH]; intros [|y l]; simpl;
    try (by intros ?%elem_of_nil).
  destruct b; rewrite ?elem_of_cons; intros H; [destruct H as [->|H]|]; auto.
Qed.

Lemma elem_of_select_columns (f : string → bool) (cols : list string) (c : string) :
  c ∈ select (f <$> cols) cols → f c = true.
Proof.
  rewrite select_filter. intros H%list_elem_of_In%filter_In. by destruct H.
Qed.

(** The projection reads the index off the [id] column of the joined table
    and leaves each row a part of its cells. *)
Lemma project_rows (J M : DataFrame) (drop_columns : list string) :
  well_formed J → project J drop_columns = Return M →
  "id" ∈ columns J ∧
  ∃ g1 g2,
    index M = g1 <$> rows J ∧ rows M = g2 <$> rows J ∧
    ∀ m, m ∈ rows J →
      g1 m = get_cell (columns J) m "id" ∧ ∀ v, v ∈ g2 m → v ∈ m.
Proof.
  intros HJ. unfold project, drop.
  destruct (List.filter _ drop_columns); [|done]. rewrite bind_Return.
  set (f := λ c, negb (has_col c drop_columns)).
  unfold set_index. simpl.
  destruct (key_position "id" _) as [j|] eqn:Hj; [|done].
  rewrite bind_Return. intros [= <-]. simpl.
  apply key_position_Return in Hj.
  assert ("id" ∈ select (f <$> columns J) (columns J)) as Hid.
  { apply col_index_Some in Hj. by apply list_elem_of_lookup_2 in Hj. }
  split; [by apply elem_of_select in Hid|].
  exists (λ m, nth j (select (f <$> columns J) m) NaN),
         (λ m, remove_at j (select (f <$> columns J) m)).
  split; [by rewrite <-list_fmap_compose|]. split; [by rewrite <-list_fmap_compose|].
  intros m Hm. split.
  - rewrite (key_cell _ _ _ _ Hj). apply get_cell_select.
    + unfold well_formed in HJ. rewrite Forall_forall in HJ. by apply HJ.
    + by apply elem_of_select_columns in Hid.
  - intros v Hv%elem_of_remove_at. by apply elem_of_select in Hv.
Qed.

Lemma length_project (J M : DataFrame) (drop_columns : list string) :
  well_formed J → project J drop_columns = Return M →
  length (rows M) = length (rows J) ∧ length (index M) = length (rows J).
Proof.
  intros HJ (_ & g1 & g2 & -> & -> & _)%project_rows; [|done].
  by rewrite !length_fmap.
Qed.

(** A plain key of the right side alone that the left side has too is no
    label of the merge. *)
Lemma merge_right_key_renamed (L R M : DataFrame) (lo ro : string) :
  merge L R lo ro = Return M → lo ≠ ro → plain ro →
  ro ∈ columns L → ro ∉ columns M.
Proof.
  intros (lk & rk & _ & Hrk & _ & -> & _)%merge_Return Hne Hplain HL.
  rewrite bool_decide_false by done.
  rewrite elem_of_merged_columns by done. simpl.
  intros [[_ Hno]|[Hno _]]; [|done].
  apply Hno. apply col_index_Some in Hrk. by apply list_elem_of_lookup_2 in Hrk.
Qed.

Lemma merge_left_key (L R M : DataFrame) (lo ro : string) :
  merge L R lo ro = Return M → lo ∈ columns L.
Proof.
  intros (lk & _ & Hlk & _)%merge_Return.
  apply col_index_Some in Hlk. by apply list_elem_of_lookup_2 in Hlk.
Qed.

Lemma merge_right_key (L R M : DataFrame) (lo ro : string) :
  merge L R lo ro = Return M → ro ∈ columns R.
Proof.
  intros (_ & rk & _ & Hrk & _)%merge_Return.
  apply col_index_Some in Hrk. by apply list_elem_of_lookup_2 in Hrk.
Qed.

Lemma plain_id : plain "id".
Proof. by split. Qed.

Lemma plain_fire_id : plain "fire_id".
Proof. by split. Qed.

Lemma plain_UniqueFireIdentifier : plain "UniqueFireIdentifier".
Proof. by split. Qed.

Lemma merged_label_side (L R M : DataFrame) (lo ro n : string) :
  merge L R lo ro = Return M → plain n → n ∈ columns M →
  n ∈ columns L ∨ n ∈ columns R.
Proof.
  intros (_ & rk & _ & _ & _ & -> & _)%merge_Return Hn.
  rewrite elem_of_merged_columns by done.
  intros [[? _]|[_ ?%elem_of_strip_key]]; auto.
Qed.

(** ** The master tables *)

Lemma all_fires_inv (wf w lc M : DataFrame) :
  master_dataset_allfires wf w lc = Return M →
  ∃ D1 J, merge wf w "fire_id" "id" = Return D1 ∧
          merge D1 lc "id" "fire_id" = Return J ∧
          project J cols = Return M.
Proof.
  unfold master_dataset_allfires, data_2.
  destruct (merge wf w "fire_id" "id") as [D1|] eqn:H1; [|done].
  rewrite bind_Return.
  destruct (merge D1 lc "id" "fire_id") as [J|] eqn:H2; [|done].
  rewrite bind_Return. intros H. by exists D1, J.
Qed.

Lemma filtered_inv (hp wf w lc M : DataFrame) :
  master_dataset hp wf w lc = Return M →
  ∃ D0 D1 J,
    merge hp wf "UniqueFireIdentifier" "UniqueFireIdentifier" = Return D0 ∧
    merge D0 w "id" "id" = Return D1 ∧
    merge D1 lc "id" "fire_id" = Return J ∧
    project J cols = Return M.
Proof.
  unfold master_dataset, data2.
  destruct (merge hp wf _ _) as [D0|] eqn:H0; [|done]. rewrite bind_Return.
  destruct (merge D0 w "id" "id") as [D1|] eqn:H1; [|done]. rewrite bind_Return.
  destruct (merge D1 lc "id" "fire_id") as [J|] eqn:H2; [|done].
  rewrite bind_Return. intros H. by exists D0, D1, J.
Qed.

Lemma all_fires_rows (wf w lc M : DataFrame) :
  well_formed wf → well_formed w → well_formed lc →
  master_dataset_allfires wf w lc = Return M →
  Forall2 (from_all_fires_sources wf w lc) (index M) (rows M).
Proof.
  intros Hwf Hw Hlc (D1 & J & HD1 & HJ & HM)%all_fires_inv.
  pose proof (merge_well_formed _ _ _ _ _ Hwf Hw HD1) as HwD1.
  pose proof (merge_well_formed _ _ _ _ _ HwD1 Hlc HJ) as HwJ.
  destruct (project_rows _ _ _ HwJ HM) as (HidJ & g1 & g2 & -> & -> & Hg).
  apply Forall2_fmap, Forall_Forall2_diag, Forall_forall. intros m2 Hm2.
  destruct (Hg m2 Hm2) as [-> Hcells2].
  destruct (merge_rows _ _ _ _ _ HwD1 Hlc HJ m2 Hm2)
    as (m1 & c & Hm1 & Hc & Hkey2 & Hin2 & Hread2).
  destruct (Hread2 "id" plain_id HidJ) as [[HidD1 Hid2] | [HidD1 _]];
    [|by destruct HidD1; apply (merge_left_key _ _ _ _ _ HJ)].
  destruct (merge_rows _ _ _ _ _ Hwf Hw HD1 m1 Hm1)
    as (f & x & Hf & Hx & Hkey1 & Hin1 & Hread1).
  destruct (Hread1 "id" plain_id HidD1) as [[Hidwf _] | (_ & _ & Hid1)].
  { by destruct (merge_right_key_renamed _ _ _ _ _ HD1 ltac:(done) plain_id Hidwf). }
  exists f, x, c. repeat split; try done; try congruence.
  intros v [Hv|Hv]%Hcells2%Hin2; [|auto].
  apply Hin1 in Hv as [?|?]; auto.
Qed.

Lemma all_fires_length (wf w lc M : DataFrame) :
  well_formed wf → well_formed w → well_formed lc →
  master_dataset_allfires wf w lc = Return M →
  keyed_by "fire_id" wf → keyed_by "id" w → keyed_by "fire_id" lc →
  (length (rows M)
   ≤ Nat.min (Nat.min (length (rows wf)) (length (rows w))) (length (rows lc)))%nat.
Proof.
  intros Hwf Hw Hlc (D1 & J & HD1 & HJ & HM)%all_fires_inv Hkwf Hkw Hklc.
  pose proof (merge_well_formed _ _ _ _ _ Hwf Hw HD1) as HwD1.
  pose proof (merge_well_formed _ _ _ _ _ HwD1 Hlc HJ) as HwJ.
  destruct (length_project _ _ _ HwJ HM) as [-> _].
  destruct (merge_length _ _ _ _ _ HD1) as [H1l H1r].
  destruct (merge_length _ _ _ _ _ HJ) as [H2l H2r].
  assert (keyed_by "id" D1) as HkD1.
  { pose proof (merge_left_key _ _ _ _ _ HJ) as HidD1.
    apply (merge_keyed_right wf w D1 "fire_id" "id"); try done.
    intros Hidwf.
    by destruct (merge_right_key_renamed _ _ _ _ _ HD1 ltac:(done) plain_id Hidwf). }
  specialize (H1l Hkw). specialize (H1r Hkwf).
  specialize (H2l Hklc). specialize (H2r HkD1). lia.
Qed.

Lemma filtered_rows (hp wf w lc M : DataFrame) :
  well_formed hp → well_formed wf → well_formed w → well_formed lc →
  master_dataset hp wf w lc = Return M →
  Forall2 (from_filtered_sources hp wf w lc) (index M) (rows M).
Proof.
  intros Hhp Hwf Hw Hlc (D0 & D1 & J & HD0 & HD1 & HJ & HM)%filtered_inv.
  pose proof (merge_well_formed _ _ _ _ _ Hhp Hwf HD0) as HwD0.
  pose proof (merge_well_formed _ _ _ _ _ HwD0 Hw HD1) as HwD1.
  pose proof (merge_well_formed _ _ _ _ _ HwD1 Hlc HJ) as HwJ.
  destruct (project_rows _ _ _ HwJ HM) as (HidJ & g1 & g2 & -> & -> & Hg).
  apply Forall2_fmap, Forall_Forall2_diag, Forall_forall. intros m2 Hm2.
  destruct (Hg m2 Hm2) as [-> Hcells2].
  destruct (merge_rows _ _ _ _ _ HwD1 Hlc HJ m2 Hm2)
    as (m1 & c & Hm1 & Hc & Hkey2 & Hin2 & Hread2).
  destruct (Hread2 "id" plain_id HidJ) as [[HidD1 Hid2] | [HidD1 _]];
    [|by destruct HidD1; apply (merge_left_key _ _ _ _ _ HJ)].
  destruct (merge_rows _ _ _ _ _ HwD0 Hw HD1 m1 Hm1)
    as (m0 & x & Hm0 & Hx & Hkey1 & Hin1 & Hread1).
  destruct (Hread1 "id" plain_id HidD1) as [[HidD0 Hid1] | [HidD0 _]];
    [|by destruct HidD0; apply (merge_left_key _ _ _ _ _ HD1)].
  destruct (merge_rows _ _ _ _ _ Hhp Hwf HD0 m0 Hm0)
    as (h & f & Hh & Hf & Hkey0 & Hin0 & Hread0).
  exists h, f, x, c. repeat split; try done; try congruence.
  - destruct (Hread0 "id" plain_id HidD0) as [[Hidhp Hid0] | (_ & Hidwf & Hid0)];
      [left | right]; split; congruence.
  - intros v [Hv|Hv]%Hcells2%Hin2; [|auto].
    apply Hin1 in Hv as [Hv|?]; [|auto].
    apply Hin0 in Hv as [?|?]; auto.
Qed.

Lemma filtered_length (hp wf w lc M : DataFrame) :
  well_formed hp → well_formed wf → well_formed w → well_formed lc →
  master_dataset hp wf w lc = Return M →
  keyed_by "UniqueFireIdentifier" hp → keyed_by "UniqueFireIdentifier" wf →
  keyed_by "id" w → keyed_by "fire_id" lc →
  ("id" ∈ columns hp → keyed_by "id" hp) →
  ("id" ∈ columns wf → keyed_by "id" wf) →
  (length (rows M)
   ≤ Nat.min (Nat.min (Nat.min (length (rows hp)) (length (rows wf)))
                (length (rows w))) (length (rows lc)))%nat.
Proof.
  intros Hhp Hwf Hw Hlc (D0 & D1 & J & HD0 & HD1 & HJ & HM)%filtered_inv
    Hkhp Hkwf Hkw Hklc Hidhp Hidwf.
  pose proof (merge_well_formed _ _ _ _ _ Hhp Hwf HD0) as HwD0.
  pose proof (merge_well_formed _ _ _ _ _ HwD0 Hw HD1) as HwD1.
  pose proof (merge_well_formed _ _ _ _ _ HwD1 Hlc HJ) as HwJ.
  destruct (length_project _ _ _ HwJ HM) as [-> _].
  destruct (merge_length _ _ _ _ _ HD0) as [H0l H0r].
  destruct (merge_length _ _ _ _ _ HD1) as [H1l H1r].
  destruct (merge_length _ _ _ _ _ HJ) as [H2l H2r].
  pose proof (merge_left_key _ _ _ _ _ HD1) as HidD0.
  pose proof (merge_left_key _ _ _ _ _ HJ) as HidD1.
  assert (keyed_by "id" D0) as HkD0.
  { destruct (decide ("id" ∈ columns hp)) as [Hin|Hnotin].
    - apply (merge_keyed_left hp wf D0 "UniqueFireIdentifier" "UniqueFireIdentifier");
        auto using plain_id.
    - apply (merge_keyed_right hp wf D0 "UniqueFireIdentifier" "UniqueFireIdentifier");
        auto using plain_id.
      apply Hidwf.
      by destruct (merged_label_side _ _ _ _ _ _ HD0 plain_id HidD0). }
  assert (keyed_by "id" D1) as HkD1.
  { apply (merge_keyed_left D0 w D1 "id" "id"); auto using plain_id. }
  specialize (H0l Hkwf). specialize (H0r Hkhp).
  specialize (H1l Hkw). specialize (H1r HkD0).
  specialize (H2l Hklc). specialize (H2r HkD1). lia.
Qed.

(** C5: every row of a master table, under its label [k], stems from one
    row of each of the table's sources, matched on the join keys, [k]
    being the identifier of each of them, and holds cells of these rows
    alone: the joins bring in no missing value and leave out the fires
    that a source lacks.  When every source is keyed by its join keys, a
    master table has at most as many rows as its smallest source. *)
Theorem master_rows_come_from_every_source :
  (∀ historical_precip wildfires weather landcover M,
     well_formed historical_precip → well_formed wildfires →
     well_formed weather → well_formed landcover →
     master_dataset historical_precip wildfires weather landcover = Return M →
     Forall2 (from_filtered_sources historical_precip wildfires weather landcover)
       (index M) (rows M) ∧
     (keyed_by "UniqueFireIdentifier" historical_precip →
      keyed_by "UniqueFireIdentifier" wildfires →
      keyed_by "id" weather → keyed_by "fire_id" landcover →
      ("id" ∈ columns historical_precip → keyed_by "id" historical_precip) →
      ("id" ∈ columns wildfires → keyed_by "id" wildfires) →
      (length (rows M)
       ≤ Nat.min (Nat.min (Nat.min (length (rows historical_precip))
                                   (length (rows wildfires)))
                    (length (rows weather))) (length (rows landcover)))%nat)) ∧
  (∀ wildfires weather landcover M,
     well_formed wildfires → well_formed weather → well_formed landcover →
     master_dataset_allfires wildfires weather landcover = Return M →
     Forall2 (from_all_fires_sources wildfires weather landcover)
       (index M) (rows M) ∧
     (keyed_by "fire_id" wildfires → keyed_by "id" weather →
      keyed_by "fire_id" landcover →
      (length (rows M)
       ≤ Nat.min (Nat.min (length (rows wildfires)) (length (rows weather)))
           (length (rows landcover)))%nat)).
Proof.
  split.
  - intros hp wf w lc M Hhp Hwf Hw Hlc HM. split.
    + by apply filtered_rows.
    + by apply filtered_length.
  - intros wf w lc M Hwf Hw Hlc HM. split.
    + by apply all_fires_rows.
    + by apply all_fires_length.
Qed.

Lemma master_rows_come_from_every_source_witness :
  ∃ M, master_dataset_allfires (Scenario.wildfires 1 2 3) (Scenario.weather 1 2)
         (Scenario.landcover 1 3) = Return M ∧
       Forall2 (from_all_fires_sources (Scenario.wildfires 1 2 3)
                  (Scenario.weather 1 2) (Scenario.landcover 1 3))
         (index M) (rows M) ∧
       (length (rows M) ≤ 2)%nat.
Proof.
  eexists. split; [vm_compute; reflexivity|].
  assert (well_formed (Scenario.wildfires 1 2 3)) as Hwf by (repeat constructor).
  assert (well_formed (Scenario.weather 1 2)) as Hw by (repeat constructor).
  assert (well_formed (Scenario.landcover 1 3)) as Hlc by (repeat constructor).
  destruct (proj2 master_rows_come_from_every_source _ _ _ _ Hwf Hw Hlc eq_refl)
    as [Hrows Hlen].
  split; [exact Hrows|].
  apply Hlen; apply (bool_decide_unpack _); vm_compute; exact I.
Defined.

(** The master tables of the example. *)
Example master_tables_of_the_example :
  master_dataset (Scenario.historical_precip 1 2) (Scenario.wildfires 1 2 3)
    (Scenario.weather 1 2) (Scenario.landcover 1 3)
  = Return {| index_name := Some "id"; index := [CInt 1];
              columns := ["rain_6mo"; "snow_6mo"; "DiscoveryAcres";
                          "temp_2m_max"; "landcover"];
              rows := [[CInt 120; CInt 3; CInt 5; CInt 30; CStr "Shrub/Scrub"]] |} ∧
  master_dataset_allfires (Scenario.wildfires 1 2 3) (Scenario.weather 1 2)
    (Scenario.landcover 1 3)
  = Return {| index_name := Some "id"; index := [CInt 1];
              columns := ["DiscoveryAcres"; "temp_2m_max"; "landcover"];
              rows := [[CInt 5; CInt 30; CStr "Shrub/Scrub"]] |}.
Proof. split; vm_compute; reflexivity. Qed.

(** * Further properties *)

(** ** Splitting a text and joining its pieces *)

Module StrMore.
Import Str StrFacts.

#[local] Arguments String.append !_ _ / : simpl nomatch.

Lemma split_loop_nonempty (k : nat) (sep s : string) : split_loop k sep s ≠ [].
Proof. destruct k; cbn [split_loop]; [done|]. by destruct (find sep s). Qed.

Lemma join_cons (sep x : string) (l : list string) :
  l ≠ [] → join sep (x :: l) = x +:+ sep +:+ join sep l.
Proof. by destruct l. Qed.

Lemma join_split_loop (k : nat) (sep s : string) :
  join sep (split_loop k sep s) = s.
Proof.
  revert s. induction k as [|k IH]; intros s; cbn [split_loop]; [done|].
  destruct (find sep s) as [i|] eqn:Hi; [|done].
  rewrite join_cons by apply split_loop_nonempty.
  rewrite IH. symmetry. by apply find_Some.
Qed.

(** [find] gives the first occurrence: none starts before it. *)
Lemma find_le (sep a r : string) :
  ∃ i, find sep (a +:+ sep +:+ r) = Some i ∧ (i ≤ String.length a)%nat.
Proof.
  induction a as [|x a (i & Hi & Hle)]; simpl.
  - exists 0%nat. split; [|done]. apply find_startswith, startswith_app.
  - destruct (startswith (String x (a +:+ sep +:+ r)) sep).
    + exists 0%nat. split; [done | lia].
    + exists (S i). rewrite Hi. split; [done | lia].
Qed.

Lemma length_take (n : nat) (s : string) :
  String.length (take n s) = Nat.min n (String.length s).
Proof.
  revert s. induction n as [|n IH]; intros [|x s]; simpl; try done.
  by rewrite IH.
Qed.

(** The text before the first occurrence holds no occurrence. *)
Lemma take_free (sep s : string) (i : nat) :
  sep ≠ EmptyString → find sep s = Some i → ¬ occurs sep (take i s).
Proof.
  intros Hsep Hi [a [b Hab]].
  pose proof (find_Some _ _ _ Hi) as Hs.
  rewrite Hab in Hs.
  destruct (find_le sep a (b +:+ sep +:+ drop (i + String.length sep) s))
    as (j & Hj & Hle).
  rewrite Hs in Hi at 1.
  rewrite !app_assoc in Hi. rewrite Hj in Hi. injection Hi as ->.
  apply (f_equal String.length) in Hab. rewrite length_take, !length_app in Hab.
  assert (0 < String.length sep)%nat by (destruct sep; simpl; [done|lia]).
  lia.
Qed.

Lemma split_loop_free (k : nat) (sep s : string) :
  sep ≠ EmptyString → (String.length s ≤ k)%nat →
  Forall (λ p, ¬ occurs sep p) (split_loop k sep s).
Proof.
  intros Hsep. revert s. induction k as [|k IH]; intros s Hk; cbn [split_loop].
  - destruct s; [|simpl in Hk; lia].
    constructor; [|done]. apply find_None. by apply find_empty.
  - destruct (find sep s) as [i|] eqn:Hi.
    + constructor; [by apply take_free|].
      assert (0 < String.length sep)%nat by (destruct sep; simpl; [done|lia]).
      assert (0 < String.length s)%nat.
      { destruct s; [by rewrite find_empty in Hi | simpl; lia]. }
      apply IH. rewrite length_drop. lia.
    + constructor; [|done]. by apply find_None.
Qed.

Lemma length_split_loop (k : nat) (sep s : string) :
  sep ≠ EmptyString → (String.length s ≤ k)%nat →
  (2 ≤ length (split_loop k sep s))%nat ↔ occurs sep s.
Proof.
  intros Hsep Hk. destruct (find sep s) as [i|] eqn:Hi.
  - assert (0 < String.length s)%nat.
    { destruct s; [by rewrite find_empty in Hi | simpl; lia]. }
    destruct k; [lia|]. cbn [split_loop]. rewrite Hi.
    pose proof (split_loop_nonempty k sep (drop (i + String.length sep) s)).
    split.
    + intros _. apply find_Some in Hi. by eexists _, _.
    + intros _. destruct (split_loop k sep _); [done | simpl; lia].
  - pose proof Hi as Hno. apply find_None in Hno.
    destruct k; cbn [split_loop]; rewrite ?Hi; simpl; split; (lia || done).
Qed.

End StrMore.

(** X1: joining the pieces of [s.split(sep)] with the separator gives the
    text back, for any non-empty separator ([split] refuses an empty
    one). *)
Theorem join_split (sep s : string) :
  sep ≠ EmptyString → Str.join sep (Str.split sep s) = s.
Proof. intros _. apply StrMore.join_split_loop. Qed.

Lemma join_split_witness :
  Str.join END_HEADER (Str.split END_HEADER "a-END HEADER-b-END HEADER-")
  = "a-END HEADER-b-END HEADER-".
Proof. apply join_split. discriminate. Defined.

(** X2: no piece of [s.split(sep)] holds the separator: the text is cut at
    every occurrence met from left to right. *)
Theorem split_pieces_hold_no_separator (sep s : string) :
  sep ≠ EmptyString → Forall (λ piece, ¬ occurs sep piece) (Str.split sep s).
Proof. intros H. by apply StrMore.split_loop_free. Qed.

Lemma split_pieces_hold_no_separator_witness :
  Forall (λ piece, ¬ occurs END_HEADER piece)
    (Str.split END_HEADER "a-END HEADER-b-END HEADER-").
Proof. apply split_pieces_hold_no_separator. discriminate. Defined.

(** X3: the test [len(split_text) >= 2] of [build_request_param] holds
    exactly when the marker occurs in the text of the response. *)
Theorem two_pieces_iff_the_marker_occurs (text : string) :
  (2 <=? length (Str.split END_HEADER text))%nat = true ↔ occurs END_HEADER text.
Proof. rewrite Nat.leb_le. by apply StrMore.length_split_loop. Qed.

(** ** The loop of a campaign, batch after batch *)

Section BatchFacts.

Variable float_str : float → string.
Variable requests_get : nat → string → result string.
Variable c : campaign.

(** The requests of a loop that starts at call [k] are those of a loop
    that starts at call 0 on the service taken from its [k]-th call on. *)
Lemma for_each_shift (k call : nat) (records : list incident) (acc : option DataFrame) :
  for_each (request float_str requests_get c) (k + call) records acc
  = for_each (request float_str (λ n, requests_get (k + n)%nat) c) call records acc.
Proof.
  revert call acc. induction records as [|r records IH]; intros call acc; [done|].
  cbn [for_each].
  change (request float_str requests_get c (k + call)%nat r acc)
    with (request float_str (λ n, requests_get (k + n)%nat) c call r acc).
  destruct (request float_str (λ n, requests_get (k + n)%nat) c call r acc)
    as [out [acc'|e]]; [|done].
  replace (S (k + call)) with (k + S call)%nat by lia. by rewrite IH.
Qed.

Lemma for_each_app (call : nat) (xs ys : list incident) (acc : option DataFrame) :
  for_each (request float_str requests_get c) call (xs ++ ys) acc =
  match for_each (request float_str requests_get c) call xs acc with
  | (out, Return acc') =>
      let '(out', res) :=
        for_each (request float_str requests_get c) (length xs + call) ys acc' in
      (out ++ out', res)
  | (out, Raise e) => (out, Raise e)
  end.
Proof.
  revert call acc. induction xs as [|x xs IH]; intros call acc.
  - simpl. by destruct (for_each _ _ ys acc).
  - cbn [for_each app].
    destruct (request float_str requests_get c call x acc) as [out [acc'|e]]; [|done].
    rewrite IH. destruct (for_each _ (S call) xs acc') as [out1 [acc1|e1]]; [|done].
    replace (length (x :: xs) + call)%nat with (length xs + S call)%nat by (simpl; lia).
    destruct (for_each _ _ ys acc1) as [out2 res]. by rewrite app_assoc.
Qed.

(** A campaign prints the message of the [except] clause once for every
    request that is refused with a connection error it catches. *)
Lemma for_each_lines (call : nat) (records : list incident)
    (acc acc' : option DataFrame) (out : list string) :
  for_each (request float_str requests_get c) call records acc = (out, Return acc') →
  out = replicate (caught_errors float_str requests_get c call records)
          connection_error_message.
Proof.
  revert call acc out. induction records as [|r records IH]; intros call acc out.
  - by intros [= <- _].
  - cbn [for_each caught_errors]. unfold request at 1, caught, build_request_param.
    destruct (params _ _ _ _ _ _) as [p|e]; [|done].
    rewrite try_block_response.
    destruct (requests_get call _) as [text|e]; simpl.
    + destruct (response_df _ _ _ text) as [new|e] eqn:Hnew; simpl.
      * destruct (for_each _ (S call) records _) as [o' res] eqn:Hloop.
        intros [= <- ->]. by eapply IH.
      * unfold response_df in Hnew. destruct (2 <=? _)%nat; [|done].
        destruct (read_csv _) as [df|e'] eqn:Hread; [done|].
        simpl in Hnew. injection Hnew as <-.
        unfold read_csv in Hread.
        destruct (List.filter _ _); [by injection Hread as <-|].
        destruct (forallb _ _); [done | by injection Hread as <-].
    + destruct (is_ConnectionError e); [|done].
      destruct (for_each _ (S call) records _) as [o' res] eqn:Hloop.
      intros [= <- ->]. simpl. f_equal. by eapply IH.
Qed.

End BatchFacts.

(** X4: a campaign over the records [xs ++ ys] is the campaign over [xs]
    followed by the campaign over [ys], which starts from the table the
    first one left and meets the service where the first one left it; an
    exception of the first batch ends the whole. *)
Theorem campaign_in_two_batches float_str requests_get (c : campaign)
    (xs ys : list incident) (acc : option DataFrame) :
  for_each (request float_str requests_get c) 0 (xs ++ ys) acc =
  match for_each (request float_str requests_get c) 0 xs acc with
  | (out, Return acc') =>
      let '(out', res) :=
        for_each (request float_str (λ n, requests_get (length xs + n)%nat) c) 0 ys acc' in
      (out ++ out', res)
  | (out, Raise e) => (out, Raise e)
  end.
Proof.
  rewrite for_each_app.
  destruct (for_each _ 0 xs acc) as [out [acc'|e]]; [|done].
  by rewrite for_each_shift.
Qed.

(** X5: when the request of a record is refused with a connection error of
    the builtin class, the campaign prints the message and goes on from
    [None]: what it returns is what the campaign over the records that
    follow returns when started with no table, whatever was gathered
    before. *)
Theorem rows_before_a_connection_error_are_lost float_str requests_get (c : campaign)
    (pre post : list incident) (r : incident) (acc acc' : option DataFrame)
    (out : list string) (p : string) (e : exn) :
  for_each (request float_str requests_get c) 0 pre acc = (out, Return acc') →
  params float_str (InitialLatitude r) (InitialLongitude r)
    (start_date_of c r) (end_date_of c r) (date_filter_of c) = Return p →
  requests_get (length pre) (base_uri_of c +:+ p) = Raise e →
  is_ConnectionError e = true →
  for_each (request float_str requests_get c) 0 (pre ++ r :: post) acc =
  (let '(out', res) :=
     for_each (request float_str (λ n, requests_get (S (length pre) + n)%nat) c)
       0 post None in
   (out ++ connection_error_message :: out', res)).
Proof.
  intros Hpre Hp Hget He. rewrite for_each_app, Hpre.
  cbn [for_each]. unfold request at 1.
  rewrite Nat.add_0_r.
  rewrite (build_request_param_connection_error _ _ _ _ _ _ _ _ _ _ _ _ _ Hp Hget He).
  rewrite <-for_each_shift. rewrite Nat.add_0_r.
  by destruct (for_each _ _ post None).
Qed.

Lemma rows_before_a_connection_error_are_lost_witness :
  for_each (request Scenario.float_str Scenario.service_failing_second basic) 0
    ([Scenario.fire 0] ++ Scenario.fire 1 :: [Scenario.fire 2]) (Some empty_frame) =
  (let '(out', res) :=
     for_each (request Scenario.float_str
                 (λ n, Scenario.service_failing_second (2 + n)%nat) basic)
       0 [Scenario.fire 2] None in
   ([] ++ connection_error_message :: out', res)).
Proof.
  eapply (rows_before_a_connection_error_are_lost
            Scenario.float_str Scenario.service_failing_second basic
            [Scenario.fire 0] [Scenario.fire 2] (Scenario.fire 1)
            (Some empty_frame) _ [] _ ConnectionError).
  - vm_compute. reflexivity.
  - vm_compute. reflexivity.
  - reflexivity.
  - reflexivity.
Defined.

(** X6: an exception of [requests.get] that is no connection error of the
    builtin class, as the [ConnectionError] and the [Timeout] of
    [requests] are none, is not caught: it ends the campaign, which returns
    no table. *)
Theorem other_errors_of_the_request_end_the_campaign float_str requests_get
    (c : campaign) (pre post : list incident) (r : incident)
    (acc acc' : option DataFrame) (out : list string) (p : string) (e : exn) :
  for_each (request float_str requests_get c) 0 pre acc = (out, Return acc') →
  params float_str (InitialLatitude r) (InitialLongitude r)
    (start_date_of c r) (end_date_of c r) (date_filter_of c) = Return p →
  requests_get (length pre) (base_uri_of c +:+ p) = Raise e →
  is_ConnectionError e = false →
  for_each (request float_str requests_get c) 0 (pre ++ r :: post) acc
  = (out, Raise e).
Proof.
  intros Hpre Hp Hget He. rewrite for_each_app, Hpre.
  cbn [for_each]. unfold request at 1.
  rewrite Nat.add_0_r.
  rewrite (build_request_param_other_error _ _ _ _ _ _ _ _ _ _ _ _ _ Hp Hget He).
  by rewrite app_nil_r.
Qed.

Lemma other_errors_of_the_request_end_the_campaign_witness :
  for_each (request Scenario.float_str Cases.service_unreachable_second basic) 0
    ([Scenario.fire 0] ++ Scenario.fire 1 :: [Scenario.fire 2]) (Some empty_frame)
  = ([], Raise requests_ConnectionError).
Proof.
  eapply (other_errors_of_the_request_end_the_campaign
            Scenario.float_str Cases.service_unreachable_second basic
            [Scenario.fire 0] [Scenario.fire 2] (Scenario.fire 1)
            (Some empty_frame) _ [] _ requests_ConnectionError).
  - vm_compute. reflexivity.
  - vm_compute. reflexivity.
  - reflexivity.
  - reflexivity.
Defined.

(** X7: when the request of the last record of a campaign is refused with a
    connection error of the builtin class, the campaign ends with [None]
    for its table, and storing the table raises [AttributeError]: no file
    is written. *)
Theorem a_connection_error_at_the_end_leaves_nothing_to_write float_str requests_get
    (c : campaign) (pre : list incident) (r : incident) (acc acc' : option DataFrame)
    (out : list string) (p : string) (e : exn) :
  for_each (request float_str requests_get c) 0 pre acc = (out, Return acc') →
  params float_str (InitialLatitude r) (InitialLongitude r)
    (start_date_of c r) (end_date_of c r) (date_filter_of c) = Return p →
  requests_get (length pre) (base_uri_of c +:+ p) = Raise e →
  is_ConnectionError e = true →
  for_each (request float_str requests_get c) 0 (pre ++ [r]) acc
    = (out ++ [connection_error_message], Return None) ∧
  (snd (for_each (request float_str requests_get c) 0 (pre ++ [r]) acc)
     ≫= store float_str) = Raise AttributeError.
Proof.
  intros Hpre Hp Hget He.
  assert (for_each (request float_str requests_get c) 0 (pre ++ [r]) acc
          = (out ++ [connection_error_message], Return None)) as ->; [|done].
  rewrite for_each_app, Hpre. cbn [for_each]. unfold request at 1.
  rewrite Nat.add_0_r.
  by rewrite (build_request_param_connection_error _ _ _ _ _ _ _ _ _ _ _ _ _ Hp Hget He).
Qed.

Lemma a_connection_error_at_the_end_leaves_nothing_to_write_witness :
  for_each (request Scenario.float_str Scenario.service_failing_second basic) 0
    ([Scenario.fire 0] ++ [Scenario.fire 1]) (Some empty_frame)
    = ([] ++ [connection_error_message], Return None) ∧
  (snd (for_each (request Scenario.float_str Scenario.service_failing_second basic) 0
          ([Scenario.fire 0] ++ [Scenario.fire 1]) (Some empty_frame))
     ≫= store Scenario.float_str) = Raise AttributeError.
Proof.
  eapply (a_connection_error_at_the_end_leaves_nothing_to_write
            Scenario.float_str Scenario.service_failing_second basic
            [Scenario.fire 0] (Scenario.fire 1) (Some empty_frame) _ [] _ ConnectionError).
  - vm_compute. reflexivity.
  - vm_compute. reflexivity.
  - reflexivity.
  - reflexivity.
Defined.

(** X8: in the basic campaign, which runs over all the fires, a record with
    a missing discovery or control date raises [ValueError] when the
    request is built, before anything is requested: the campaign ends
    there, whatever the service would answer, and returns no table. *)
Theorem missing_date_ends_the_basic_campaign float_str requests_get
    (pre post : list incident) (r : incident) (acc' : option DataFrame)
    (out : list string) :
  FireDiscoveryDateTime r = None ∨ ControlDateTime r = None →
  nasa_df float_str requests_get pre = (out, Return acc') →
  nasa_df float_str requests_get (pre ++ r :: post) = (out, Raise ValueError).
Proof.
  intros Hdate. rewrite !nasa_df_campaign. intros Hpre.
  rewrite for_each_app, Hpre. cbn [for_each].
  unfold request at 1, build_request_param, params. simpl.
  destruct Hdate as [-> | ->]; simpl.
  - by rewrite app_nil_r.
  - destruct (FireDiscoveryDateTime r); simpl; by rewrite app_nil_r.
Qed.

Lemma missing_date_ends_the_basic_campaign_witness :
  nasa_df Scenario.float_str Scenario.service_answering
    ([Scenario.fire 0] ++ Scenario.fire_without_control :: [Scenario.fire 2])
  = ([], Raise ValueError).
Proof.
  eapply (missing_date_ends_the_basic_campaign
            Scenario.float_str Scenario.service_answering
            [Scenario.fire 0] [Scenario.fire 2] Scenario.fire_without_control).
  - right. reflexivity.
  - vm_compute. reflexivity.
Defined.

(** X9: the records of the two campaigns over the filtered fires have
    their two dates, so that no request of theirs fails for a missing
    date.  The extended campaign asks for the days of the discovery and of
    the control.  The historical campaign asks for the years of the window
    when the start of the window is within the bounds of a [Timestamp], and
    raises [OutOfBoundsDatetime] before anything is requested when it is
    not. *)
Theorem filtered_records_have_their_dates float_str requests_get
    (df : list incident) (r : incident) (call : nat) (acc : option DataFrame) :
  r ∈ filtered_df df →
  ∃ D C,
    FireDiscoveryDateTime r = Some D ∧ ControlDateTime r = Some C ∧
    big_fire_request float_str requests_get call r acc
    = answered requests_get call (CInt (id r))
        (InitialLatitude r) (InitialLongitude r) acc
        (daily_uri "parameters=T2MDEW,T2MWET,RH2M,CLRSKY_SFC_PAR_TOT,ALLSKY_SFC_PAR_TOT,ALLSKY_SFC_UV_INDEX" +:+
         "latitude=" +:+ float_str (InitialLatitude r) +:+
         "&longitude=" +:+ float_str (InitialLongitude r) +:+
         "&start=" +:+ (pad4 (year D) +:+ pad2 (month D) +:+ pad2 (day D)) +:+
         "&end=" +:+ (pad4 (year C) +:+ pad2 (month C) +:+ pad2 (day C))) ∧
    (in_bounds (sub_relativedelta_months D 6) = true →
     last_180_prec_request float_str requests_get call r acc
     = answered requests_get call (CInt (id r))
         (InitialLatitude r) (InitialLongitude r) acc
         (monthly_uri "parameters=PRECTOTCORR_SUM,PRECSNO" +:+
          "latitude=" +:+ float_str (InitialLatitude r) +:+
          "&longitude=" +:+ float_str (InitialLongitude r) +:+
          "&start=" +:+ pad4 (year (sub_relativedelta_months D 6)) +:+
          "&end=" +:+ pad4 (year D))) ∧
    (in_bounds (sub_relativedelta_months D 6) = false →
     last_180_prec_request float_str requests_get call r acc
     = ([], Raise OutOfBoundsDatetime)).
Proof.
  rewrite filtered_df_filter, list_elem_of_filter. intros [[_ Hd] _].
  destruct (ControlDateTime r) as [C|] eqn:HC,
    (FireDiscoveryDateTime r) as [D|] eqn:HD; try contradiction.
  exists D, C. split; [done|]. split; [done|]. split; [|split].
  - unfold big_fire_request. rewrite HD, HC.
    by apply build_request_param_answered.
  - intros Hb.
    apply (last_180_prec_request_answered float_str requests_get call r acc D _ HD eq_refl Hb).
  - intros Hb. unfold last_180_prec_request.
    by rewrite (historical_start_date_out_of_bounds r D HD Hb).
Qed.

Lemma filtered_records_have_their_dates_witness :
  ∃ D C, FireDiscoveryDateTime (Scenario.fire 0) = Some D ∧
         ControlDateTime (Scenario.fire 0) = Some C ∧
         big_fire_request Scenario.float_str Scenario.service_answering 0
           (Scenario.fire 0) None
         = answered Scenario.service_answering 0 (CInt 100) 0 0 None
             "https://power.larc.nasa.gov/api/temporal/daily/point?time-standard=lst&header=true&format=csv&community=sb&parameters=T2MDEW,T2MWET,RH2M,CLRSKY_SFC_PAR_TOT,ALLSKY_SFC_PAR_TOT,ALLSKY_SFC_UV_INDEX&latitude=0.0&longitude=0.0&start=20200719&end=20200902".
Proof.
  destruct (filtered_records_have_their_dates Scenario.float_str
              Scenario.service_answering
              [Scenario.fire 0] (Scenario.fire 0) 0 None) as (D & C & HD & HC & Hbig & _).
  { vm_compute. apply list_elem_of_here. }
  exists D, C. split; [exact HD|]. split; [exact HC|].
  rewrite Hbig. injection HD as <-. injection HC as <-. reflexivity.
Defined.

(** X10: a campaign that runs to its end has printed the message of the
    [except] clause once for every request refused with a connection
    error of the builtin class, and nothing else. *)
Theorem one_line_per_caught_connection_error float_str requests_get (c : campaign)
    (records : list incident) (acc acc' : option DataFrame) (out : list string) :
  for_each (request float_str requests_get c) 0 records acc = (out, Return acc') →
  out = replicate (caught_errors float_str requests_get c 0 records)
          connection_error_message.
Proof. apply for_each_lines. Qed.

Lemma one_line_per_caught_connection_error_witness :
  [connection_error_message]
  = replicate (caught_errors Scenario.float_str Scenario.service_failing_second basic 0
                 [Scenario.fire 0; Scenario.fire 1; Scenario.fire 2])
      connection_error_message.
Proof.
  eapply (one_line_per_caught_connection_error
            Scenario.float_str Scenario.service_failing_second basic
            [Scenario.fire 0; Scenario.fire 1; Scenario.fire 2] (Some empty_frame)).
  vm_compute. reflexivity.
Defined.

(** X11: whatever the service answers, every row of the table that a
    campaign returns holds, under [LAT], [LONG] and [PID], the coordinates
    and the id of one of the records of the campaign: the three columns are
    set on every row of a response, over a column of the response of the
    same label, and the concatenations keep them. *)
Theorem gathered_rows_carry_their_fire float_str requests_get (c : campaign)
    (records : list incident) (out : list string) (T : DataFrame) :
  for_each (request float_str requests_get c) 0 records (Some empty_frame)
    = (out, Return (Some T)) →
  Forall (λ row, ∃ r, r ∈ records ∧ tagged_with c (columns T) row r) (rows T).
Proof.
  intros H.
  apply (all_tagged_for_each float_str requests_get c (λ r, r ∈ records)
           0 records (Some empty_frame) (Some T) out); [|constructor|exact H].
  by apply Forall_forall.
Qed.

Lemma gathered_rows_carry_their_fire_witness :
  Forall (λ row, ∃ r, r ∈ [Scenario.fire 0; Scenario.fire 1; Scenario.fire 2] ∧
                      tagged_with basic ["YEAR"; "T2M"; "LAT"; "LONG"; "PID"] row r)
    [[CStr "2020"; CStr "21.5"; CFloat 0; CFloat 0; CInt 0];
     [CStr "2021"; CStr "17.0"; CFloat 0; CFloat 0; CInt 2]].
Proof.
  apply (gathered_rows_carry_their_fire
           Scenario.float_str Scenario.service_answering basic
           [Scenario.fire 0; Scenario.fire 1; Scenario.fire 2] []
           {| index_name := None; index := [CInt 0; CInt 0];
              columns := ["YEAR"; "T2M"; "LAT"; "LONG"; "PID"];
              rows := [[CStr "2020"; CStr "21.5"; CFloat 0; CFloat 0; CInt 0];
                       [CStr "2021"; CStr "17.0"; CFloat 0; CFloat 0; CInt 2]] |}).
  vm_compute. reflexivity.
Defined.

Lemma foldl_accumulate_index (news : list (option DataFrame)) (A : DataFrame) :
  ∃ T, foldl accumulate (Some A) news = Some T ∧
       index T = index A ++ mjoin (index <$> omap Datatypes.id news).
Proof.
  revert A. induction news as [|new news IH]; intros A.
  - exists A. simpl. by rewrite app_nil_r.
  - destruct new as [f|]; simpl; [|apply IH].
    destruct (IH (concat_frames A f)) as (T & HT & Hidx).
    exists T. split; [done|]. rewrite Hidx. simpl. by rewrite <-app_assoc.
Qed.

(** X13: when the requests of a campaign are all answered and read as the
    tables [news], the row labels of the table that the loop returns are
    the row labels of those tables, one table after the other: the
    concatenation does not renumber the rows, and the labels of one
    response come again with the next. *)
Theorem gathered_row_labels_restart float_str requests_get
    (c : campaign) (records : list incident) (news : list (option DataFrame))
    (out : list string) (T : DataFrame) :
  fetches float_str requests_get c 0 records news →
  for_each (request float_str requests_get c) 0 records (Some empty_frame)
    = (out, Return (Some T)) →
  index T = mjoin (index <$> omap Datatypes.id news).
Proof.
  intros Hfetch.
  destruct (foldl_accumulate_index news empty_frame) as (T' & HT & Hidx).
  rewrite (for_each_fetches _ _ _ _ _ _ _ Hfetch), HT.
  by intros [= _ <-].
Qed.

Lemma gathered_row_labels_restart_witness :
  ∃ T : DataFrame,
    nasa_df Scenario.float_str Scenario.service_answering
      [Scenario.fire 0; Scenario.fire 1; Scenario.fire 2]
    = ([], Return (Some T)) ∧
    index T = [CInt 0; CInt 0].
Proof.
  destruct (nasa_df Scenario.float_str Scenario.service_answering
              [Scenario.fire 0; Scenario.fire 1; Scenario.fire 2])
    as [out [[T|]|e]] eqn:Hloop; try (vm_compute in Hloop; discriminate Hloop).
  assert (out = []) as -> by (vm_compute in Hloop; congruence).
  exists T. split; [reflexivity|].
  eapply eq_trans.
  - eapply (gathered_row_labels_restart
              Scenario.float_str Scenario.service_answering basic
              [Scenario.fire 0; Scenario.fire 1; Scenario.fire 2] _ [] T);
      [|exact Hloop].
    eapply fetches_cons; [reflexivity | reflexivity | vm_compute; reflexivity |].
    eapply fetches_cons; [reflexivity | reflexivity | vm_compute; reflexivity |].
    eapply fetches_cons; [reflexivity | reflexivity | vm_compute; reflexivity |].
    apply fetches_nil.
  - reflexivity.
Defined.

Lemma foldl_accumulate_None (news : list (option DataFrame)) (acc : option DataFrame) :
  Forall (λ new, new = None) news → foldl accumulate acc news = acc.
Proof.
  intros H. revert acc. induction H as [|new news -> _ IH]; intros acc; [done|].
  simpl. apply IH.
Qed.

(** X14: a campaign whose requests are all answered with a text without the
    marker ends with the empty table it started from; the file written from
    it holds a line break alone, and reading that file raises
    [EmptyDataError]. *)
Theorem a_campaign_without_data_writes_an_unreadable_file float_str requests_get
    (c : campaign) (records : list incident) (news : list (option DataFrame)) :
  fetches float_str requests_get c 0 records news →
  Forall (λ new, new = None) news →
  for_each (request float_str requests_get c) 0 records (Some empty_frame)
    = ([], Return (Some empty_frame)) ∧
  store float_str (Some empty_frame) = Return newline ∧
  ((snd (for_each (request float_str requests_get c) 0 records (Some empty_frame))
      ≫= store float_str) ≫= read_csv) = Raise EmptyDataError.
Proof.
  intros Hfetch Hnone.
  rewrite (for_each_fetches _ _ _ _ _ _ _ Hfetch), (foldl_accumulate_None _ _ Hnone).
  done.
Qed.

Lemma a_campaign_without_data_writes_an_unreadable_file_witness :
  for_each (request Scenario.float_str Scenario.service_no_marker basic) 0
    [Scenario.fire 0; Scenario.fire 1] (Some empty_frame)
    = ([], Return (Some empty_frame)) ∧
  store Scenario.float_str (Some empty_frame) = Return newline ∧
  ((snd (for_each (request Scenario.float_str Scenario.service_no_marker basic) 0
           [Scenario.fire 0; Scenario.fire 1] (Some empty_frame))
      ≫= store Scenario.float_str) ≫= read_csv) = Raise EmptyDataError.
Proof.
  eapply (a_campaign_without_data_writes_an_unreadable_file
            Scenario.float_str Scenario.service_no_marker basic
            [Scenario.fire 0; Scenario.fire 1] [None; None]).
  - eapply fetches_cons; [reflexivity | reflexivity | vm_compute; reflexivity |].
    eapply fetches_cons; [reflexivity | reflexivity | vm_compute; reflexivity |].
    apply fetches_nil.
  - repeat constructor.
Defined.

(** ** The joins of the master tables *)

Section JoinedRowsMore.

Variable shared : bool.
Variables lk rk : nat.

#[local] Abbreviation kl := (λ l : list cell, nth lk l NaN).
#[local] Abbreviation kr := (λ r : list cell, nth rk r NaN).
#[local] Abbreviation glue := (λ l r : list cell, l ++ strip_key shared rk r).

Lemma joined_rows_nil_r (L : list (list cell)) : joined_rows shared lk rk L [] = [].
Proof. induction L as [|l L IH]; [done|]. by rewrite joined_rows_cons, IH. Qed.

(** When the right table is keyed and holds the key of every left row, the
    join keeps every left row once, in the order of the left rows. *)
Lemma joined_rows_total {V} (f f' : list cell → V) (L R : list (list cell)) :
  NoDup (kr <$> R) →
  (∀ l, l ∈ L → kl l ∈ kr <$> R) →
  (∀ l r, l ∈ L → r ∈ R → f (glue l r) = f' l) →
  f <$> joined_rows shared lk rk L R = f' <$> L.
Proof.
  intros Hnd. induction L as [|l L IH]; intros Hcov Hf; [done|].
  rewrite joined_rows_cons, fmap_app, fmap_cons.
  rewrite IH; cycle 1.
  { intros l' Hl'. by apply Hcov, list_elem_of_further. }
  { intros l' r Hl' Hr. by apply Hf; [apply list_elem_of_further|]. }
  pose proof (Hcov l (list_elem_of_here _ _)) as Hl0.
  apply list_elem_of_fmap in Hl0 as (r0 & Hk0 & Hr0).
  assert (r0 ∈ filter (λ r, kl l = kr r) R) as Hin by (by apply list_elem_of_filter).
  destruct (keyed_filter rk (kl l) R Hnd) as [Hnone | [r Hone]]; cbn beta in *.
  - rewrite Hnone in Hin. by apply elem_of_nil in Hin.
  - rewrite Hone. simpl. f_equal. apply Hf; [apply list_elem_of_here|].
    assert (r ∈ filter (λ r, kl l = kr r) R) as Hr by (rewrite Hone; apply list_elem_of_here).
    by apply list_elem_of_filter in Hr as [_ Hr].
Qed.

End JoinedRowsMore.

Lemma merge_columns_length (L R M : DataFrame) (lo ro : string) :
  merge L R lo ro = Return M →
  (length (columns M) + (if bool_decide (lo = ro) then 1 else 0)
   = length (columns L) + length (columns R))%nat.
Proof.
  intros (lk & rk & _ & Hrk & _ & -> & _)%merge_Return.
  unfold merged_columns. rewrite length_app, !length_fmap.
  apply col_index_lt in Hrk.
  destruct (bool_decide (lo = ro)); simpl; [|lia].
  unfold remove_at. rewrite length_app, length_take, length_drop. lia.
Qed.

Lemma key_position_absent (c : string) (cols : list string) :
  c ∉ cols → key_position c cols = Raise (KeyError [c]).
Proof. intros H%col_index_None. unfold key_position. by rewrite H. Qed.

Lemma merge_left_key_absent (L R : DataFrame) (lo ro : string) :
  lo ∉ columns L → merge L R lo ro = Raise (KeyError [lo]).
Proof. intros H. unfold merge. by rewrite (key_position_absent _ _ H). Qed.

Lemma elem_of_remove_at_ne {A} (j : nat) (x : A) (l : list A) :
  x ∈ l → l !! j ≠ Some x → x ∈ remove_at j l.
Proof.
  intros [i Hi]%list_elem_of_lookup_1 Hj. unfold remove_at. apply elem_of_app.
  destruct (decide (i < j)%nat) as [Hlt|Hge].
  - left. apply list_elem_of_lookup. exists i. by rewrite lookup_take_lt.
  - right. apply list_elem_of_lookup. exists (i - S j)%nat.
    rewrite lookup_drop. rewrite <-Hi. f_equal.
    assert (i ≠ j) by (intros ->; congruence). lia.
Qed.

(** A plain label that both sides of a merge hold, the key of the right
    side apart, is no label of the merge: both columns are renamed. *)
Lemma merge_shared_label_renamed (L R M : DataFrame) (lo ro n : string) :
  merge L R lo ro = Return M → plain n → n ≠ ro →
  n ∈ columns L → n ∈ columns R → n ∉ columns M.
Proof.
  intros (lk & rk & _ & Hrk & _ & -> & _)%merge_Return Hplain Hne HL HR.
  rewrite elem_of_merged_columns by done.
  intros [[_ Hno]|[Hno _]]; [|done]. apply Hno.
  destruct (bool_decide (lo = ro)); simpl; [|done].
  apply elem_of_remove_at_ne; [done|].
  apply col_index_Some in Hrk. rewrite Hrk. congruence.
Qed.

Lemma merge_no_rows (L R M : DataFrame) (lo ro : string) :
  merge L R lo ro = Return M → rows L = [] ∨ rows R = [] → rows M = [].
Proof.
  intros (lk & rk & _ & _ & _ & _ & ->)%merge_Return [-> | ->]; [done|].
  apply joined_rows_nil_r.
Qed.

(** X15: a merge on two keys of different labels, neither of which the
    other side holds, keeps both key columns under their labels, and they
    agree on every row of the merge. *)
Theorem merge_keys_agree (L R M : DataFrame) (lo ro : string) :
  well_formed L → well_formed R → merge L R lo ro = Return M →
  plain lo → plain ro → lo ∉ columns R → ro ∉ columns L →
  lo ∈ columns M ∧ ro ∈ columns M ∧
  Forall (λ m, get_cell (columns M) m lo = get_cell (columns M) m ro) (rows M).
Proof.
  intros HL HR HM Hlo Hro HloR HroL.
  pose proof (merge_left_key _ _ _ _ _ HM) as HloL.
  pose proof (merge_right_key _ _ _ _ _ HM) as HroR.
  assert (lo ≠ ro) as Hne by (by intros ->).
  assert (lo ∈ columns M ∧ ro ∈ columns M) as [HloM HroM].
  { destruct (merge_Return _ _ _ _ _ HM) as (lk & rk & _ & _ & _ & -> & _).
    rewrite bool_decide_false by done.
    rewrite !elem_of_merged_columns by done. simpl. auto. }
  split; [done|]. split; [done|].
  apply Forall_forall. intros m Hm.
  destruct (merge_rows _ _ _ _ _ HL HR HM m Hm) as (l & r & _ & _ & Hkey & _ & Hread).
  destruct (Hread lo Hlo HloM) as [[_ ->] | [? _]]; [|done].
  destruct (Hread ro Hro HroM) as [[? _] | (_ & _ & ->)]; [done|].
  exact Hkey.
Qed.

Lemma merge_keys_agree_witness :
  ∃ M, merge (Scenario.wildfires 1 2 3) (Scenario.weather 1 2) "fire_id" "id"
       = Return M ∧
       Forall (λ m, get_cell (columns M) m "fire_id" = get_cell (columns M) m "id")
         (rows M).
Proof.
  destruct (merge (Scenario.wildfires 1 2 3) (Scenario.weather 1 2) "fire_id" "id")
    as [M|e] eqn:HM; [|vm_compute in HM; discriminate HM].
  exists M. split; [reflexivity|].
  apply (merge_keys_agree (Scenario.wildfires 1 2 3) (Scenario.weather 1 2) M
           "fire_id" "id").
  - repeat constructor.
  - repeat constructor.
  - exact HM.
  - exact plain_fire_id.
  - exact plain_id.
  - apply (bool_decide_unpack _). vm_compute. exact I.
  - apply (bool_decide_unpack _). vm_compute. exact I.
Defined.

(** X16: when the right table of a merge is keyed by its key, a column of
    integers, and holds the key of every left row, the merge loses and
    repeats no left row: it has as many rows as the left table, and under
    a plain label of the left table alone its column holds the cells of
    the column of the left table, as many times each; in the same order
    when the left table is keyed as well. *)
Theorem merge_keeps_the_covered_rows (L R M : DataFrame) (lo ro : string) :
  well_formed L → merge L R lo ro = Return M →
  keyed_by ro R →
  forallb is_int (column_values ro R) = true →
  (∀ l, l ∈ rows L → get_cell (columns L) l lo ∈ column_values ro R) →
  length (rows M) = length (rows L) ∧
  (∀ n, plain n → n ∈ columns L → n ∈ columns M →
        column_values n M ≡ₚ column_values n L) ∧
  (keyed_by lo L →
   ∀ n, plain n → n ∈ columns L → n ∈ columns M →
        column_values n M = column_values n L).
Proof.
  intros HL HM HkR _ Hcov.
  destruct (merge_Return _ _ _ _ _ HM) as (lk & rk & Hlk & Hrk & _ & Hcols & Hrows).
  unfold keyed_by in HkR. rewrite <-(key_column _ _ _ Hrk) in HkR, Hcov.
  assert (∀ l, l ∈ rows L → nth lk l NaN ∈ (λ r, nth rk r NaN) <$> rows R) as Hcov'.
  { intros l Hl. rewrite (key_cell _ _ _ _ Hlk). by apply Hcov. }
  assert (∀ n, plain n → n ∈ columns L → n ∈ columns M →
               column_values n M = column_values n L) as Hsame.
  { intros n Hn HnL HnM. unfold column_values. rewrite Hrows.
    apply joined_rows_total; [done..|].
    intros l r Hl Hr. rewrite Hcols in *.
    apply get_cell_merged_left; auto.
    unfold well_formed in HL. rewrite Forall_forall in HL. by apply HL. }
  split; [|split].
  - rewrite Hrows.
    pose proof (joined_rows_total (bool_decide (lo = ro)) lk rk (λ _, ()) (λ _, ())
                  (rows L) (rows R) HkR Hcov' (λ _ _ _ _, eq_refl)) as H.
    apply (f_equal length) in H. by rewrite !length_fmap in H.
  - intros n Hn HnL HnM. by rewrite Hsame.
  - intros _. exact Hsame.
Qed.

Lemma merge_keeps_the_covered_rows_witness :
  ∃ M, merge (Scenario.weather 1 2) (Scenario.wildfires 1 2 3) "id" "fire_id"
       = Return M ∧
       length (rows M) = length (rows (Scenario.weather 1 2)).
Proof.
  destruct (merge (Scenario.weather 1 2) (Scenario.wildfires 1 2 3) "id" "fire_id")
    as [M|e] eqn:HM; [|vm_compute in HM; discriminate HM].
  exists M. split; [reflexivity|].
  apply (merge_keeps_the_covered_rows (Scenario.weather 1 2)
           (Scenario.wildfires 1 2 3) M "id" "fire_id").
  - repeat constructor.
  - exact HM.
  - apply (bool_decide_unpack _). vm_compute. exact I.
  - vm_compute. reflexivity.
  - apply Forall_forall, (bool_decide_unpack _). vm_compute. exact I.
Defined.

(** X17: the [id] column must come from one table alone.  When the
    precipitation and the wildfire tables both hold one, their merge
    renames both, and the merge with the weather on [id] raises
    [KeyError]; so does, for all the fires, the merge with the land cover
    when the wildfire table holds an [id] besides its [fire_id].  No
    master table is built. *)
Theorem a_second_id_column_breaks_the_joins :
  (∀ historical_precip wildfires weather landcover D0,
     merge historical_precip wildfires "UniqueFireIdentifier" "UniqueFireIdentifier"
       = Return D0 →
     "id" ∈ columns historical_precip → "id" ∈ columns wildfires →
     NoDup (columns weather) →
     master_dataset historical_precip wildfires weather landcover
       = Raise (KeyError ["id"])) ∧
  (∀ wildfires weather landcover D1,
     merge wildfires weather "fire_id" "id" = Return D1 →
     "id" ∈ columns wildfires →
     "fire_id" ∈ columns landcover → NoDup (columns landcover) →
     master_dataset_allfires wildfires weather landcover
       = Raise (KeyError ["id"])).
Proof.
  split.
  - intros hp wf w lc D0 HD0 Hhp Hwf _.
    unfold master_dataset, data2. rewrite HD0, !bind_Return.
    rewrite merge_left_key_absent; [done|].
    by apply (merge_shared_label_renamed _ _ _ _ _ _ HD0 plain_id).
  - intros wf w lc D1 HD1 Hwf _ _.
    unfold master_dataset_allfires, data_2. rewrite HD1, !bind_Return.
    rewrite merge_left_key_absent; [done|].
    by apply (merge_right_key_renamed _ _ _ _ _ HD1 ltac:(done) plain_id).
Qed.

Lemma a_second_id_column_breaks_the_joins_witness :
  master_dataset (Scenario.historical_precip 1 2) Cases.wildfires_with_id
    (Scenario.weather 1 2) (Scenario.landcover 1 3) = Raise (KeyError ["id"]) ∧
  master_dataset_allfires Cases.wildfires_with_id
    (Scenario.weather 1 2) (Scenario.landcover 1 3) = Raise (KeyError ["id"]).
Proof.
  split.
  - eapply (proj1 a_second_id_column_breaks_the_joins).
    + vm_compute. reflexivity.
    + apply (bool_decide_unpack _). vm_compute. exact I.
    + apply (bool_decide_unpack _). vm_compute. exact I.
    + apply (bool_decide_unpack _). vm_compute. exact I.
  - eapply (proj2 a_second_id_column_breaks_the_joins).
    + vm_compute. reflexivity.
    + apply (bool_decide_unpack _). vm_compute. exact I.
    + apply (bool_decide_unpack _). vm_compute. exact I.
    + apply (bool_decide_unpack _). vm_compute. exact I.
Defined.

(** X18: the joined tables have the columns of their sources, a join key
    given once under one label counting once: [data_2] has as many columns
    as the wildfire, the weather and the land cover tables together, and
    [data2] two fewer than its four sources together. *)
Theorem joined_tables_have_the_columns_of_their_sources :
  (∀ historical_precip wildfires weather landcover J,
     data2 historical_precip wildfires weather landcover = Return J →
     (length (columns J) + 2
      = length (columns historical_precip) + length (columns wildfires)
        + length (columns weather) + length (columns landcover))%nat) ∧
  (∀ wildfires weather landcover J,
     data_2 wildfires weather landcover = Return J →
     (length (columns J)
      = length (columns wildfires) + length (columns weather)
        + length (columns landcover))%nat).
Proof.
  split.
  - intros hp wf w lc J. unfold data2.
    destruct (merge hp wf _ _) as [D0|] eqn:H0; [|done]. rewrite bind_Return.
    destruct (merge D0 w "id" "id") as [D1|] eqn:H1; [|done]. rewrite bind_Return.
    intros H2.
    apply merge_columns_length in H0, H1, H2.
    rewrite bool_decide_true in H0, H1 by done.
    rewrite bool_decide_false in H2 by done. lia.
  - intros wf w lc J. unfold data_2.
    destruct (merge wf w _ _) as [D1|] eqn:H1; [|done]. rewrite bind_Return.
    intros H2.
    apply merge_columns_length in H1, H2.
    rewrite bool_decide_false in H1, H2 by done. lia.
Qed.

Lemma joined_tables_have_the_columns_of_their_sources_witness :
  ∃ J, data_2 (Scenario.wildfires 1 2 3) (Scenario.weather 1 2) (Scenario.landcover 1 3)
       = Return J ∧
       length (columns J) = 50%nat.
Proof.
  destruct (data_2 (Scenario.wildfires 1 2 3) (Scenario.weather 1 2)
              (Scenario.landcover 1 3)) as [J|e] eqn:HJ;
    [|vm_compute in HJ; discriminate HJ].
  exists J. split; [reflexivity|].
  apply (proj2 joined_tables_have_the_columns_of_their_sources
           (Scenario.wildfires 1 2 3) (Scenario.weather 1 2) (Scenario.landcover 1 3) J HJ).
Defined.

(** ** The projection and the tables without rows *)

Lemma length_select {A B} (mask : list bool) (l : list A) (k : list B) :
  length l = length k → length (select mask l) = length (select mask k).
Proof.
  revert l k. induction mask as [|b mask IH]; intros [|x l] [|y k] Hlen;
    simpl in *; try done.
  destruct b; simpl; [f_equal|]; apply IH; lia.
Qed.

(** What a projection that returns has found and built. *)
Lemma project_inv (J M : DataFrame) (drop_columns : list string) :
  project J drop_columns = Return M →
  ∃ j,
    let keep := (λ c, negb (has_col c drop_columns)) <$> columns J in
    Forall (λ c, c ∈ columns J) drop_columns ∧
    col_index "id" (select keep (columns J)) = Some j ∧
    columns M = remove_at j (select keep (columns J)) ∧
    rows M = (λ row, remove_at j (select keep row)) <$> rows J ∧
    index M = (λ row, nth j (select keep row) NaN) <$> rows J.
Proof.
  unfold project, drop.
  destruct (List.filter _ drop_columns) eqn:Hmiss; [|done]. rewrite bind_Return.
  unfold set_index. simpl.
  destruct (key_position "id" _) as [j|] eqn:Hj; [|done].
  rewrite bind_Return. intros [= <-]. simpl.
  exists j. split; [|split; [by apply key_position_Return|]].
  - apply Forall_forall. intros c Hc.
    destruct (decide (c ∈ columns J)) as [|Hno]; [done|].
    assert (c ∈ List.filter (λ c, negb (has_col c (columns J))) drop_columns) as Hin.
    { apply list_elem_of_In, filter_In. split; [by apply list_elem_of_In|].
      by apply negb_true_iff, has_col_false. }
    rewrite Hmiss in Hin. by apply elem_of_nil in Hin.
  - by rewrite <-!list_fmap_compose.
Qed.

Lemma project_well_formed (J M : DataFrame) (drop_columns : list string) :
  well_formed J → project J drop_columns = Return M → well_formed M.
Proof.
  intros HJ (j & _ & _ & Hcols & Hrows & _)%project_inv.
  unfold well_formed. rewrite Hcols, Hrows. apply Forall_fmap.
  eapply Forall_impl; [exact HJ|]. intros row Hrow. simpl.
  by apply length_remove_at, length_select.
Qed.

Lemma project_no_rows (J M : DataFrame) (drop_columns : list string) :
  project J drop_columns = Return M → rows J = [] → rows M = [] ∧ index M = [].
Proof. intros (j & _ & _ & _ & -> & ->)%project_inv ->. done. Qed.

(** X19: a source table without rows leaves the master tables without
    rows and without row labels: an inner join with it keeps nothing.  The
    file of all the fires then holds the header record alone. *)
Theorem an_empty_source_empties_the_master_tables float_str :
  (∀ historical_precip wildfires weather landcover M,
     master_dataset historical_precip wildfires weather landcover = Return M →
     rows historical_precip = [] ∨ rows wildfires = [] ∨
     rows weather = [] ∨ rows landcover = [] →
     rows M = [] ∧ index M = []) ∧
  (∀ wildfires weather landcover M,
     master_dataset_allfires wildfires weather landcover = Return M →
     rows wildfires = [] ∨ rows weather = [] ∨ rows landcover = [] →
     rows M = [] ∧ index M = [] ∧
     master_dataset_allfires_csv float_str wildfires weather landcover
     = Return (csv_record (columns M))).
Proof.
  split.
  - intros hp wf w lc M HM Hempty.
    apply filtered_inv in HM as (D0 & D1 & J & HD0 & HD1 & HJ & HM).
    assert (rows J = []) as HrJ.
    { apply (merge_no_rows _ _ _ _ _ HJ).
      destruct Hempty as [H|[H|[H|H]]]; [left..|by right];
        apply (merge_no_rows _ _ _ _ _ HD1); [left|left|by right];
        apply (merge_no_rows _ _ _ _ _ HD0); auto. }
    exact (project_no_rows _ _ _ HM HrJ).
  - intros wf w lc M HM Hempty.
    unfold master_dataset_allfires_csv. rewrite HM, bind_Return.
    apply all_fires_inv in HM as (D1 & J & HD1 & HJ & HM).
    assert (rows J = []) as HrJ.
    { apply (merge_no_rows _ _ _ _ _ HJ).
      destruct Hempty as [H|[H|H]]; [left..|by right];
        apply (merge_no_rows _ _ _ _ _ HD1); auto. }
    destruct (project_no_rows _ _ _ HM HrJ) as [Hr Hi].
    split; [done|]. split; [done|]. unfold to_csv. by rewrite Hr.
Qed.

Lemma an_empty_source_empties_the_master_tables_witness :
  master_dataset_allfires_csv Scenario.float_str (Scenario.wildfires 1 2 3)
    (Scenario.weather 1 2) Cases.landcover_without_rows
  = Return (csv_record ["DiscoveryAcres"; "temp_2m_max"; "landcover"]).
Proof.
  refine (proj2 (proj2 (proj2 (an_empty_source_empties_the_master_tables
                                 Scenario.float_str)
            (Scenario.wildfires 1 2 3) (Scenario.weather 1 2)
            Cases.landcover_without_rows
            {| index_name := Some "id"; index := [];
               columns := ["DiscoveryAcres"; "temp_2m_max"; "landcover"];
               rows := [] |} _ _))).
  - vm_compute. reflexivity.
  - right. right. reflexivity.
Defined.

(** X20: every row of a master table has one cell per column, when the
    rows of the source tables have. *)
Theorem master_tables_are_rectangular :
  (∀ historical_precip wildfires weather landcover M,
     well_formed historical_precip → well_formed wildfires →
     well_formed weather → well_formed landcover →
     master_dataset historical_precip wildfires weather landcover = Return M →
     well_formed M) ∧
  (∀ wildfires weather landcover M,
     well_formed wildfires → well_formed weather → well_formed landcover →
     master_dataset_allfires wildfires weather landcover = Return M →
     well_formed M).
Proof.
  split.
  - intros hp wf w lc M Hhp Hwf Hw Hlc (D0 & D1 & J & HD0 & HD1 & HJ & HM)%filtered_inv.
    apply (project_well_formed J M cols); [|done].
    repeat (eapply merge_well_formed; [| |done]); done.
  - intros wf w lc M Hwf Hw Hlc (D1 & J & HD1 & HJ & HM)%all_fires_inv.
    apply (project_well_formed J M cols); [|done].
    repeat (eapply merge_well_formed; [| |done]); done.
Qed.

Lemma master_tables_are_rectangular_witness :
  ∃ M, master_dataset (Scenario.historical_precip 1 2) (Scenario.wildfires 1 2 3)
         (Scenario.weather 1 2) (Scenario.landcover 1 3) = Return M ∧
       well_formed M.
Proof.
  destruct (master_dataset (Scenario.historical_precip 1 2) (Scenario.wildfires 1 2 3)
              (Scenario.weather 1 2) (Scenario.landcover 1 3)) as [M|e] eqn:HM;
    [|vm_compute in HM; discriminate HM].
  exists M. split; [reflexivity|].
  apply (proj1 master_tables_are_rectangular
           (Scenario.historical_precip 1 2) (Scenario.wildfires 1 2 3)
           (Scenario.weather 1 2) (Scenario.landcover 1 3) M);
    [repeat constructor.. | exact HM].
Defined.

Lemma NoDup_cols : NoDup cols.
Proof. apply (bool_decide_unpack _). vm_compute. exact I. Qed.

Lemma length_filter_complement (S l : list string) :
  NoDup l → NoDup S → S ⊆ l →
  (length (List.filter (λ c, negb (has_col c S)) l) + length S = length l)%nat.
Proof.
  intros Hl HS Hincl.
  rewrite (List_filter_decide _ (λ c, c ∉ S))
    by (intros c; by rewrite negb_true_iff, has_col_false).
  rewrite <-(filter_app_complement (λ c, c ∈ S) l) at 2.
  rewrite length_app.
  assert (filter (λ c, c ∈ S) l ≡ₚ S) as ->; [|lia].
  apply NoDup_Permutation; [by apply NoDup_filter | done |].
  intros c. rewrite list_elem_of_filter. split; [by intros [? _] | auto].
Qed.

(** X21: the projection of a joined table with distinct labels removes 47
    columns: the 46 of the drop list, which are distinct, and [id]. *)
Theorem projection_removes_47_columns (J M : DataFrame) :
  NoDup (columns J) → project J cols = Return M →
  length (columns J) = (length (columns M) + 47)%nat.
Proof.
  intros Hnd (j & Hall & Hj & -> & _)%project_inv. simpl in *.
  apply col_index_lt in Hj.
  unfold remove_at. rewrite length_app, length_take, length_drop.
  rewrite select_filter in *.
  pose proof (length_filter_complement cols (columns J) Hnd NoDup_cols) as Hlen.
  rewrite <-Hlen by (intros c Hc; by rewrite Forall_forall in Hall; apply Hall).
  change (length cols) with 46%nat. lia.
Qed.

Lemma projection_removes_47_columns_witness :
  ∃ J M, data_2 (Scenario.wildfires 1 2 3) (Scenario.weather 1 2)
           (Scenario.landcover 1 3) = Return J ∧
         project J cols = Return M ∧
         length (columns J) = (length (columns M) + 47)%nat.
Proof.
  eexists _, _. split; [vm_compute; reflexivity|]. split; [vm_compute; reflexivity|].
  apply projection_removes_47_columns.
  - apply (bool_decide_unpack _). vm_compute. exact I.
  - vm_compute. reflexivity.
Defined.

Lemma select_nil_r {A} (mask : list bool) : select mask (@nil A) = [].
Proof. by destruct mask. Qed.

Lemma select_select {A} (f g : string → bool) (cols : list string) (row : list A) :
  select (g <$> select (f <$> cols) cols) (select (f <$> cols) row)
  = select ((λ c, f c && g c) <$> cols) row.
Proof.
  revert row. induction cols as [|c cols IH]; intros [|v row];
    rewrite ?select_nil_r; try done.
  rewrite !fmap_cons. simpl.
  destruct (f c); simpl; [destruct (g c); [f_equal|]|]; apply IH.
Qed.

Lemma has_col_app (c : string) (a b : list string) :
  has_col c (a ++ b) = has_col c a || has_col c b.
Proof.
  unfold has_col. apply eq_true_iff_eq.
  rewrite orb_true_iff, !bool_decide_eq_true. apply elem_of_app.
Qed.

(** X22: dropping the columns of two lists at once is dropping those of
    the first and then those of the second, when every listed label is a
    column and no label of the second list is in the first. *)
Theorem drop_in_two_steps (df : DataFrame) (cols1 cols2 : list string) :
  Forall (λ c, c ∈ columns df) cols1 →
  Forall (λ c, c ∈ columns df ∧ c ∉ cols1) cols2 →
  drop df (cols1 ++ cols2) = (df1 ← drop df cols1; drop df1 cols2).
Proof.
  intros H1 H2.
  rewrite (drop_Return df cols1 H1), bind_Return.
  rewrite drop_Return; cycle 1.
  { apply Forall_app. split; [done|]. eapply Forall_impl; [exact H2|]. by intros c [? _]. }
  rewrite drop_Return; cycle 1.
  { simpl. eapply Forall_impl; [exact H2|]. intros c [Hc Hn]. simpl.
    by apply list_elem_of_filter. }
  simpl. f_equal. f_equal.
  - rewrite list_filter_filter. apply filter_ext_in. intros c _.
    rewrite not_elem_of_app. tauto.
  - rewrite <-list_fmap_compose. apply list_fmap_ext. intros _ row _. simpl.
    rewrite <-(List_filter_decide (λ c, negb (has_col c cols1)) (λ c, c ∉ cols1))
      by (intros c; by rewrite negb_true_iff, has_col_false).
    rewrite <-select_filter, select_select.
    f_equal. apply list_fmap_ext. intros _ c _. by rewrite has_col_app, negb_orb.
Qed.

Lemma drop_in_two_steps_witness :
  drop Scenario.joined (["x"] ++ ["temp_2m_max"])
  = (df1 ← drop Scenario.joined ["x"]; drop df1 ["temp_2m_max"]).
Proof.
  apply drop_in_two_steps.
  - apply (bool_decide_unpack _). vm_compute. exact I.
  - apply (bool_decide_unpack _). vm_compute. exact I.
Defined.

(** ** Dates *)

Lemma digit_app (d : Z) (s : string) :
  digit d +:+ s = String (ascii_of_nat (48 + Z.to_nat (d mod 10))) s.
Proof. reflexivity. Qed.

Lemma digit_app_inj (a b : Z) (s t : string) :
  digit a +:+ s = digit b +:+ t → a mod 10 = b mod 10 ∧ s = t.
Proof.
  rewrite !digit_app. intros [= H ->]. split; [|done].
  apply (f_equal nat_of_ascii) in H.
  pose proof (Z.mod_pos_bound a 10 ltac:(lia)).
  pose proof (Z.mod_pos_bound b 10 ltac:(lia)).
  rewrite !nat_ascii_embedding in H by lia. lia.
Qed.

Lemma pad2_app_inj (a b : Z) (s t : string) :
  0 <= a < 100 → 0 <= b < 100 → pad2 a +:+ s = pad2 b +:+ t → a = b ∧ s = t.
Proof.
  intros Ha Hb. unfold pad2. rewrite !StrFacts.app_assoc.
  intros [H1 [H2 ->]%digit_app_inj]%digit_app_inj. split; [|done].
  Z.to_euclidean_division_equations; lia.
Qed.

Lemma pad4_app_inj (a b : Z) (s t : string) :
  0 <= a < 10000 → 0 <= b < 10000 → pad4 a +:+ s = pad4 b +:+ t → a = b ∧ s = t.
Proof.
  intros Ha Hb. unfold pad4. rewrite !StrFacts.app_assoc.
  intros [H1 [H2 [H3 [H4 ->]%digit_app_inj]%digit_app_inj]%digit_app_inj]%digit_app_inj.
  split; [|done].
  Z.to_euclidean_division_equations; lia.
Qed.

Lemma days_in_month_bounds (y m : Z) :
  1 <= m <= 12 → 28 <= days_in_month y m <= 31.
Proof.
  intros Hm. unfold days_in_month.
  destruct (month_cases m Hm) as [->|[->|[->|[->|[->|[->|[->|[->|[->|[->|[->| ->]]]]]]]]]]];
    simpl; destruct (isleap y); simpl; lia.
Qed.

(** X23: with the format ['%Y%m%d'] of the daily campaigns, the text of a
    date of a four-digit year has eight characters, and two dates have
    the same text exactly when they are the same day. *)
Theorem strftime_Ymd_tells_the_day (a b : Timestamp) :
  valid_timestamp a → valid_timestamp b →
  1000 <= year a <= 9999 → 1000 <= year b <= 9999 →
  ∃ s t,
    strftime (Some a) fmt_Ymd = Return s ∧ strftime (Some b) fmt_Ymd = Return t ∧
    String.length s = 8%nat ∧
    (s = t ↔ year a = year b ∧ month a = month b ∧ day a = day b).
Proof.
  intros (Hma & Hda & _) (Hmb & Hdb & _) Hya Hyb.
  pose proof (days_in_month_bounds (year a) (month a) Hma).
  pose proof (days_in_month_bounds (year b) (month b) Hmb).
  eexists _, _. split; [reflexivity|]. split; [reflexivity|]. split; [reflexivity|].
  split.
  - intros [Hy [Hm Hd]%pad2_app_inj]%pad4_app_inj; [|lia..].
    rewrite <-(StrFacts.app_empty_r (pad2 (day a))),
      <-(StrFacts.app_empty_r (pad2 (day b))) in Hd.
    apply pad2_app_inj in Hd as [Hd _]; [done|lia..].
  - by intros (-> & -> & ->).
Qed.

Lemma strftime_Ymd_tells_the_day_witness :
  ∃ s t,
    strftime (Some Scenario.discovery) fmt_Ymd = Return s ∧
    strftime (Some Scenario.control) fmt_Ymd = Return t ∧
    String.length s = 8%nat ∧
    (s = t ↔ year Scenario.discovery = year Scenario.control ∧
             month Scenario.discovery = month Scenario.control ∧
             day Scenario.discovery = day Scenario.control).
Proof.
  apply strftime_Ymd_tells_the_day.
  - repeat split; vm_compute; congruence.
  - repeat split; vm_compute; congruence.
  - split; vm_compute; congruence.
  - split; vm_compute; congruence.
Defined.

Lemma sub_relativedelta_months_6 (D : Timestamp) :
  1 <= month D <= 12 →
  sub_relativedelta_months D 6 =
  let y := if month D <=? 6 then year D - 1 else year D in
  let m := if month D <=? 6 then month D + 6 else month D - 6 in
  {| year := y; month := m; day := Z.min (days_in_month y m) (day D);
     time_of_day := time_of_day D |}.
Proof.
  intros Hm. unfold sub_relativedelta_months.
  replace (12 <? month D + - (6)) with false by lia.
  destruct (month D <=? 6) eqn:Hle; rewrite ?Z.leb_le, ?Z.leb_gt in Hle.
  - replace (month D + - (6) <? 1) with true by lia. simpl.
    replace (month D + - (6) + 12) with (month D + 6) by lia. reflexivity.
  - replace (month D + - (6) <? 1) with false by lia. simpl.
    replace (month D + - (6)) with (month D - 6) by lia. reflexivity.
Qed.

(** X24: the start of the historical window of a fire is a date of the
    calendar; it lies in the year before the discovery when the fire was
    discovered from January to June, and in the year of the discovery
    otherwise.  When it is within the bounds of a [Timestamp], the loop
    sends the request that names that year and the year of the
    discovery. *)
Theorem historical_request_years float_str requests_get
    (call : nat) (r : incident) (D : Timestamp) (acc : option DataFrame) :
  FireDiscoveryDateTime r = Some D →
  valid_timestamp D →
  in_bounds (sub_relativedelta_months D 6) = true →
  ∃ S0,
    historical_start_date r = Return (Some S0) ∧ valid_timestamp S0 ∧
    year S0 = (if month D <=? 6 then year D - 1 else year D) ∧
    month S0 = (if month D <=? 6 then month D + 6 else month D - 6) ∧
    last_180_prec_request float_str requests_get call r acc
    = answered requests_get call (CInt (id r))
        (InitialLatitude r) (InitialLongitude r) acc
        (monthly_uri "parameters=PRECTOTCORR_SUM,PRECSNO" +:+
         "latitude=" +:+ float_str (InitialLatitude r) +:+
         "&longitude=" +:+ float_str (InitialLongitude r) +:+
         "&start=" +:+ pad4 (if month D <=? 6 then year D - 1 else year D) +:+
         "&end=" +:+ pad4 (year D)).
Proof.
  intros HD (Hm & Hd & Ht) Hb.
  exists (sub_relativedelta_months D 6).
  split; [by apply historical_start_date_in_bounds|].
  rewrite (proj2 (last_180_prec_request_answered float_str requests_get call r acc
                    D _ HD eq_refl Hb)).
  rewrite (sub_relativedelta_months_6 D Hm). simpl.
  split; [|done].
  assert (1 <= (if month D <=? 6 then month D + 6 else month D - 6) <= 12) as Hm'
    by (destruct (month D <=? 6) eqn:Hle; lia).
  pose proof (days_in_month_bounds
                (if month D <=? 6 then year D - 1 else year D) _ Hm') as Hdays.
  split; [exact Hm'|]. split; [simpl; lia | exact Ht].
Qed.

Lemma historical_request_years_witness :
  ∃ S0,
    historical_start_date Cases.fire_in_march = Return (Some S0) ∧
    valid_timestamp S0 ∧ year S0 = 2019 ∧ month S0 = 9 ∧
    last_180_prec_request Scenario.float_str Scenario.service_answering 0
      Cases.fire_in_march None
    = answered Scenario.service_answering 0 (CInt 108) 0 0 None
        "https://power.larc.nasa.gov/api/temporal/monthly/point?header=true&format=csv&community=sb&parameters=PRECTOTCORR_SUM,PRECSNO&latitude=0.0&longitude=0.0&start=2019&end=2020".
Proof.
  destruct (historical_request_years Scenario.float_str Scenario.service_answering
              0 Cases.fire_in_march
              {| year := 2020; month := 3; day := 31; time_of_day := 36000000000000 |}
              None eq_refl)
    as (S0 & HS & Hv & Hy & Hm & Hreq).
  { repeat split; vm_compute; congruence. }
  { vm_compute. reflexivity. }
  exists S0. repeat split; try done; apply Hv.
Defined.

Lemma days_before_year_mono (y1 y2 : Z) :
  y1 <= y2 → days_before_year y1 + 365 * (y2 - y1) <= days_before_year y2.
Proof.
  intros H. unfold days_before_year.
  Z.to_euclidean_division_equations. lia.
Qed.

Lemma toordinal_in_year (t : Timestamp) :
  valid_timestamp t →
  days_before_year (year t) < toordinal t <= days_before_year (year t + 1).
Proof.
  intros (Hm & Hd & _). rewrite days_before_year_succ.
  destruct t as [y m d tt]. simpl in *.
  unfold toordinal, days_before_month, days_in_month in *. simpl.
  destruct (month_cases _ Hm) as [->|[->|[->|[->|[->|[->|[->|[->|[->|[->|[->| ->]]]]]]]]]]];
    simpl in *; destruct (isleap y); simpl in *; lia.
Qed.

Lemma toordinal_months (y m1 m2 d1 d2 : Z) :
  1 <= m1 → m1 < m2 → m2 <= 12 → d1 <= days_in_month y m1 → 1 <= d2 →
  days_before_month y m1 + d1 < days_before_month y m2 + d2.
Proof.
  intros H1 H12 H2 Hd1 Hd2.
  unfold days_before_month, days_in_month in *.
  destruct (month_cases m1 ltac:(lia)) as [->|[->|[->|[->|[->|[->|[->|[->|[->|[->|[->| ->]]]]]]]]]]];
  destruct (month_cases m2 ltac:(lia)) as [->|[->|[->|[->|[->|[->|[->|[->|[->|[->|[->| ->]]]]]]]]]]];
    try lia; simpl in *; destruct (isleap y); simpl in *; lia.
Qed.

Lemma earlier_value (a b : Timestamp) :
  valid_timestamp a → valid_timestamp b → earlier a b → value a < value b.
Proof.
  intros Ha Hb Hlt.
  pose proof (toordinal_in_year a Ha) as Hoa.
  pose proof (toordinal_in_year b Hb) as Hob.
  destruct Ha as (Hma & Hda & Hta), Hb as (Hmb & Hdb & Htb).
  unfold value, nanoseconds_per_day in *.
  destruct Hlt as [Hy | [Hy [Hm | [Hm [Hd | [Hd Ht]]]]]].
  - pose proof (days_before_year_mono (year a + 1) (year b) ltac:(lia)). lia.
  - pose proof (toordinal_months (year a) (month a) (month b) (day a) (day b)
                  ltac:(lia) Hm ltac:(lia) ltac:(lia) ltac:(lia)) as H.
    unfold toordinal. rewrite <-Hy. lia.
  - unfold toordinal. rewrite <-Hy, <-Hm. lia.
  - unfold toordinal. rewrite <-Hy, <-Hm, <-Hd. lia.
Qed.

(** X25: the instant of a timestamp, by which the durations of the fires
    are computed, follows the calendar: of two dates of the calendar, one
    has the smaller instant exactly when it is the earlier by year, month,
    day and time of day, and two have the same instant only when they are
    the same. *)
Theorem value_orders_the_timestamps (a b : Timestamp) :
  valid_timestamp a → valid_timestamp b →
  (value a < value b ↔ earlier a b) ∧ (value a = value b ↔ a = b).
Proof.
  intros Ha Hb.
  assert (earlier a b ∨ a = b ∨ earlier b a) as Htri.
  { unfold earlier. destruct a as [ya ma da ta], b as [yb mb db tb]. simpl.
    destruct (Z.lt_trichotomy ya yb) as [?|[->|?]]; [auto| |auto].
    destruct (Z.lt_trichotomy ma mb) as [?|[->|?]]; [auto| |auto 6].
    destruct (Z.lt_trichotomy da db) as [?|[->|?]]; [auto 8| |auto 8].
    destruct (Z.lt_trichotomy ta tb) as [?|[->|?]]; [auto 10|auto|auto 10]. }
  split; split.
  - intros Hlt. destruct Htri as [?|[->|Hgt]]; [done|lia|].
    apply earlier_value in Hgt; [lia|done..].
  - by apply earlier_value.
  - intros Heq. destruct Htri as [Hlt|[?|Hgt]]; [|done|].
    + apply earlier_value in Hlt; [lia|done..].
    + apply earlier_value in Hgt; [lia|done..].
  - by intros ->.
Qed.

Lemma value_orders_the_timestamps_witness :
  (value Scenario.discovery < value Scenario.control
   ↔ earlier Scenario.discovery Scenario.control) ∧
  (value Scenario.discovery = value Scenario.control
   ↔ Scenario.discovery = Scenario.control).
Proof.
  apply value_orders_the_timestamps.
  - repeat split; vm_compute; congruence.
  - repeat split; vm_compute; congruence.
Defined.

(** X26: the request of the historical campaign names years alone: two
    fires of the same coordinates discovered in the same year and the same
    half of it, January to June or July to December, are asked for at the
    same address, whatever the days of their discovery. *)
Theorem historical_requests_of_a_half_year_coincide float_str requests_get
    (call call' : nat) (r r' : incident) (D D' : Timestamp)
    (acc acc' : option DataFrame) :
  FireDiscoveryDateTime r = Some D → FireDiscoveryDateTime r' = Some D' →
  1 <= month D <= 12 → 1 <= month D' <= 12 →
  in_bounds (sub_relativedelta_months D 6) = true →
  in_bounds (sub_relativedelta_months D' 6) = true →
  year D = year D' → (month D <=? 6) = (month D' <=? 6) →
  InitialLatitude r = InitialLatitude r' →
  InitialLongitude r = InitialLongitude r' →
  let uri :=
    monthly_uri "parameters=PRECTOTCORR_SUM,PRECSNO" +:+
    "latitude=" +:+ float_str (InitialLatitude r) +:+
    "&longitude=" +:+ float_str (InitialLongitude r) +:+
    "&start=" +:+ pad4 (if month D <=? 6 then year D - 1 else year D) +:+
    "&end=" +:+ pad4 (year D) in
  last_180_prec_request float_str requests_get call r acc
  = answered requests_get call (CInt (id r))
      (InitialLatitude r) (InitialLongitude r) acc uri ∧
  last_180_prec_request float_str requests_get call' r' acc'
  = answered requests_get call' (CInt (id r'))
      (InitialLatitude r') (InitialLongitude r') acc' uri.
Proof.
  intros HD HD' Hm Hm' Hb Hb' Hy Hhalf Hlat Hlong uri. subst uri.
  rewrite (proj2 (last_180_prec_request_answered float_str requests_get call r acc
                    D _ HD eq_refl Hb)).
  rewrite (proj2 (last_180_prec_request_answered float_str requests_get call' r' acc'
                    D' _ HD' eq_refl Hb')).
  rewrite (sub_relativedelta_months_6 D Hm), (sub_relativedelta_months_6 D' Hm'). simpl.
  by rewrite Hy, Hhalf, Hlat, Hlong.
Qed.

Lemma historical_requests_of_a_half_year_coincide_witness :
  last_180_prec_request Scenario.float_str Scenario.service_answering 0
    (Scenario.fire 0) None
  = answered Scenario.service_answering 0 (CInt 100) 0 0 None
      "https://power.larc.nasa.gov/api/temporal/monthly/point?header=true&format=csv&community=sb&parameters=PRECTOTCORR_SUM,PRECSNO&latitude=0.0&longitude=0.0&start=2020&end=2020" ∧
  last_180_prec_request Scenario.float_str Scenario.service_answering 1
    Cases.fire_in_december None
  = answered Scenario.service_answering 1 (CInt 109) 0 0 None
      "https://power.larc.nasa.gov/api/temporal/monthly/point?header=true&format=csv&community=sb&parameters=PRECTOTCORR_SUM,PRECSNO&latitude=0.0&longitude=0.0&start=2020&end=2020".
Proof.
  apply (historical_requests_of_a_half_year_coincide Scenario.float_str
           Scenario.service_answering 0%nat 1%nat
           (Scenario.fire 0) Cases.fire_in_december
           Scenario.discovery
           {| year := 2020; month := 12; day := 31; time_of_day := 0 |} None None);
    try reflexivity; vm_compute; split; congruence.
Defined.
